(** * Road density near streams: a model of the analysis tool

    The development follows the two source files of the tool:
    - [MapSession.py]: the map session and its [get_map_scale];
    - [roaddensity.py]: the class [CalculateRoadDensityNearStreamsTool].

    Numbers that are [float] in the Python code are modelled by exact
    rationals ([Q]): every binary64 value is a rational, and the model
    leaves rounding, infinities and NaN out.  A missing value (pandas'
    NaN after a pivot or an outer merge) is [None] until [fillna]. *)

From Stdlib Require Import ZArith QArith Qround Qabs Lia List Bool Ascii.
From stdpp Require Import gmap strings pretty sorting.

Import ListNotations.

(** ** MapSession.py *)

Module MapSession.

Local Open Scope Z_scope.

(** [int(x)] on a float: truncation toward zero. *)
Definition py_int (x : Q) : Z := Z.quot (Qnum x) (Zpos (Qden x)).

(** [str(n)] on an integer: decimal digits, with a leading minus sign. *)
Definition py_str (n : Z) : string := pretty n.

(** [len(s)] on a string. *)
Definition py_len (s : string) : nat := String.length s.

(** [math.ceil(x)]. *)
Definition py_ceil (x : Q) : Z := Qceiling x.

(** The dictionary literal of [get_map_scale]. *)
Definition scaleround : gmap nat Z :=
  list_to_map [(9%nat, 1000000); (8%nat, 250000); (7%nat, 100000);
               (6%nat, 5000); (5%nat, 2500); (4%nat, 250); (3%nat, 25);
               (2%nat, 5); (1%nat, 1)].

(** [get_map_scale]: [None] stands for the [KeyError] of [scaleround[clen]]. *)
Definition get_map_scale (current_scale : Q) : option Z :=
  let clen := py_len (py_str (py_int current_scale)) in
  match scaleround !! clen with
  | Some r => Some (py_ceil (current_scale / inject_Z r) * r)
  | None => None
  end.

(** The table [r] of the digit counts, as a function. *)
Definition r_of_digits (n : nat) : option Z :=
  match n with
  | 1%nat => Some 1 | 2%nat => Some 5 | 3%nat => Some 25 | 4%nat => Some 250
  | 5%nat => Some 2500 | 6%nat => Some 5000 | 7%nat => Some 100000
  | 8%nat => Some 250000 | 9%nat => Some 1000000
  | _ => None
  end.

(** A non-negative integer [z] is written with [n] decimal digits. *)
Definition has_digits (z : Z) (n : nat) : Prop :=
  (1 <= n)%nat /\ 0 <= z < 10 ^ Z.of_nat n /\ (n = 1%nat \/ 10 ^ (Z.of_nat n - 1) <= z).

End MapSession.

(** ** roaddensity.py *)

Module RoadDensity.

(** *** The GIS platform: tables, feature classes, workspaces *)

(** A workspace path, kept as its list of components: [os.path.join a b]
    adds a component and [os.path.split] takes the last one off. *)
Definition path := list string.

Definition os_path_join (a : path) (b : string) : path := a ++ [b].

Definition os_path_split (p : path) : path * string :=
  (removelast p, List.last p ""%string).

(** The geometry engine of the platform, taken as an interface. *)
Class Geometry := {
  geom : Type;
  extent : Type;
  (** the INTERSECT relationship of a selection by location *)
  geom_intersects : geom -> geom -> bool;
  (** the buffer of a set of shapes by a linear distance (both sides,
      round ends), dissolved into one shape *)
  geom_buffer : string -> list geom -> geom;
  (** the overlay of two shapes at the cluster tolerance, [None] when
      they have no common part *)
  geom_intersect : string -> geom -> geom -> option geom;
  geom_length : geom -> Q;
  geom_area : geom -> Q;
  (** the extent of the shapes of a layer *)
  geom_extent : list geom -> extent;
  (** the scale a data frame takes when its extent is set *)
  extent_scale : extent -> Q
}.

(** A cell of a table. *)
Inductive value := VText (s : string) | VDouble (q : Q) | VNull.

(** A field definition: the keyword arguments of [AddField_management]. *)
Record field_def := FieldDef {
  field_name : string;
  field_type : string;
  field_alias : option string;
  field_length : option Z;
  field_precision : option Z;
  field_scale : option Z
}.

(** *** The dataframe library

    A frame has a text key column, named [fr_index], and float columns; a
    row is its key and its cells by column name.  A cell of a frame of
    [option Q] is [None] for NaN. *)

Fixpoint insert_key (k : string) (l : list string) : list string :=
  match l with
  | [] => [k]
  | h :: t =>
      match String.compare k h with
      | Lt => k :: h :: t
      | Eq => h :: t
      | Gt => h :: insert_key k t
      end
  end.

(** The distinct values of a column, in increasing order. *)
Definition sorted_unique (l : list string) : list string :=
  foldr insert_key [] l.

(** [pd.DataFrame(values, columns=names)] on the tuples of a cursor. *)
Record raw_frame := RawFrame {
  raw_columns : list string;
  raw_values : list (list value)
}.

Definition raw_cell (df : raw_frame) (c : string) (r : list value) : option value :=
  match list_find (fun n => n = c) (raw_columns df) with
  | Some (i, _) => r !! i
  | None => None
  end.

Definition as_text (v : value) : option string :=
  match v with VText s => Some s | _ => None end.

Definition as_double (v : value) : option Q :=
  match v with VDouble q => Some q | _ => None end.

Abbreviation frame_row A := (string * gmap string A)%type.

Record frame (A : Type) := Frame {
  fr_index : string;
  fr_columns : list string;
  fr_rows : list (frame_row A)
}.
Arguments Frame {A} _ _ _.
Arguments fr_index {A} _.
Arguments fr_columns {A} _.
Arguments fr_rows {A} _.

(** The sum of a group, in the order of its rows. *)
Definition Qsum (l : list Q) : Q := foldl Qplus 0%Q l.

(** The values of the rows of key [k] and column value [t]. *)
Definition group_values (recs : list (string * string * Q)) (k t : string) : list Q :=
  (fun r : string * string * Q => r.2) <$>
    List.filter (fun r => String.eqb r.1.1 k && String.eqb r.1.2 t) recs.

(** The aggregate of a group: NaN for a group without rows. *)
Definition agg_sum (l : list Q) : option Q :=
  match l with [] => None | _ => Some (Qsum l) end.

(** [df.pivot_table(index=, columns=, values=, aggfunc="sum")]. *)
Definition pivot_record (df : raw_frame) (index columns values : string)
    (r : list value) : option (string * string * Q) :=
  k ← raw_cell df index r ≫= as_text;
  t ← raw_cell df columns r ≫= as_text;
  v ← raw_cell df values r ≫= as_double;
  Some (k, t, v).

Definition pivot_table (df : raw_frame) (index columns values : string)
  : option (frame (option Q)) :=
  recs ← mapM (pivot_record df index columns values) (raw_values df);
  let cols := sorted_unique ((fun r : string * string * Q => r.1.2) <$> recs) in
  let keys := sorted_unique ((fun r : string * string * Q => r.1.1) <$> recs) in
  Some (Frame index cols
    ((fun k => (k, list_to_map ((fun t => (t, agg_sum (group_values recs k t))) <$> cols)))
       <$> keys)).

(** [df.fillna(x)]. *)
Definition fillna (x : Q) (df : frame (option Q)) : frame Q :=
  Frame (fr_index df) (fr_columns df)
        ((fun r : frame_row (option Q) => (r.1, default x <$> r.2)) <$> fr_rows df).

(** [df.reset_index()]: the index becomes a column; a column of that
    name must not exist already. *)
Definition reset_index {A} (df : frame A) : option (frame A) :=
  if existsb (String.eqb (fr_index df)) (fr_columns df) then None else Some df.

(** [df.groupby([by]).sum()]: for each key, the sums of the other
    columns, which hold floats. *)
Definition group_record (df : raw_frame) (by_ : string) (cols : list string)
    (r : list value) : option (frame_row Q) :=
  k ← raw_cell df by_ r ≫= as_text;
  vs ← mapM (fun c => raw_cell df c r ≫= as_double) cols;
  Some (k, list_to_map (zip cols vs)).

Definition key_values (recs : list (frame_row Q)) (k c : string) : list Q :=
  omap (fun r : frame_row Q => if String.eqb r.1 k then r.2 !! c else None) recs.

Definition groupby_sum (df : raw_frame) (by_ : string) : option (frame Q) :=
  let cols := List.filter (fun c => negb (String.eqb c by_)) (raw_columns df) in
  recs ← mapM (group_record df by_ cols) (raw_values df);
  Some (Frame by_ cols
    ((fun k => (k, list_to_map ((fun c => (c, Qsum (key_values recs k c))) <$> cols)))
       <$> sorted_unique (fst <$> recs))).

(** The cells of the row of key [k]: the first row with that key. *)
Definition row_of {A} (df : frame A) (k : string) : option (gmap string A) :=
  (list_to_map (fr_rows df) : gmap string (gmap string A)) !! k.

(** [pd.merge(left, right, on=key, how='outer')] of two frames with one row
    for each key: the union of the keys in increasing order, NaN where a
    frame has no row for a key, and the suffixes [_x] and [_y] on the column
    names the two frames share. *)
Definition suffixed (other : list string) (suffix c : string) : string :=
  if existsb (String.eqb c) other then c +:+ suffix else c.

Definition merged_cells (df : frame Q) (other : list string) (suffix : string)
    (k : string) : list (string * option Q) :=
  (fun c => (suffixed other suffix c, row_of df k ≫= (fun cells => cells !! c)))
    <$> fr_columns df.

Definition merge_outer (left right : frame Q) : frame (option Q) :=
  Frame (fr_index left)
    ((suffixed (fr_columns right) "_x" <$> fr_columns left) ++
     (suffixed (fr_columns left) "_y" <$> fr_columns right))
    ((fun k => (k, list_to_map (merged_cells left (fr_columns right) "_x" k ++
                              merged_cells right (fr_columns left) "_y" k)))
       <$> sorted_unique ((fst <$> fr_rows left) ++ (fst <$> fr_rows right))).

(** A Series: the float cells of one column, in the order of the rows. *)
Definition series := list Q.

(** [df[c]]: [None] stands for the [KeyError] of a missing column. *)
Definition getcol (df : frame Q) (c : string) : option series :=
  if existsb (String.eqb c) (fr_columns df)
  then mapM (fun r : frame_row Q => r.2 !! c) (fr_rows df)
  else None.

(** [df[c] = s].  A computed column that takes the name of the key
    column is left out of the model. *)
Definition setcol (df : frame Q) (c : string) (s : series) : option (frame Q) :=
  if String.eqb c (fr_index df) then None
  else Some (Frame (fr_index df)
               (if existsb (String.eqb c) (fr_columns df) then fr_columns df
                else fr_columns df ++ [c])
               (zip_with (fun (r : frame_row Q) v => (r.1, <[c := v]> r.2)) (fr_rows df) s)).

Definition s_add (a b : series) : series := zip_with Qplus a b.
Definition s_sub (a b : series) : series := zip_with Qminus a b.
Definition s_div (a b : series) : series := zip_with Qdiv a b.
Definition s_div_scalar (a : series) (x : Q) : series := (fun v => v / x)%Q <$> a.
Definition s_abs (a : series) : series := Qabs <$> a.

(** [df.sort([c], ascending=False)]: the rows by decreasing cell of [c]. *)
Definition desc (p1 p2 : Q * frame_row Q) : Prop :=
  Qle_bool p2.1 p1.1 = true.

#[export] Instance desc_dec p1 p2 : Decision (desc p1 p2).
Proof. unfold desc. apply _. Defined.

Definition sort_descending (df : frame Q) (c : string) : option (frame Q) :=
  s ← getcol df c;
  Some (Frame (fr_index df) (fr_columns df)
              (snd <$> merge_sort desc (zip s (fr_rows df)))).

(** [df[names].values]: the tuples of the rows for a list of columns. *)
Definition select_cell (df : frame Q) (r : frame_row Q) (c : string)
  : option value :=
  if String.eqb c (fr_index df) then Some (VText r.1)
  else if existsb (String.eqb c) (fr_columns df) then VDouble <$> r.2 !! c
  else None.

Definition select_values (df : frame Q) (names : list string)
  : option (list (list value)) :=
  if forallb (fun c => String.eqb c (fr_index df) || existsb (String.eqb c) (fr_columns df)) names
  then mapM (fun r => mapM (select_cell df r) names) (fr_rows df)
  else None.

(** *** Text formatting *)

Definition spaces (n : nat) : string := String.string_of_list_ascii (replicate n " "%char).

(** [{:<27s}] and [{:8s}]: the text, then spaces up to the width. *)
Definition ljust (width : nat) (s : string) : string :=
  s +:+ spaces (width - String.length s).

(** [{:.27}]: the text cut at the precision. *)
Definition truncate (precision : nat) (s : string) : string :=
  String.substring 0 precision s.

(** Rounding to the nearest integer, ties to the even one. *)
Definition round_half_even (x : Q) : Z :=
  let f := Qfloor x in
  match (x - inject_Z f ?= 1 # 2)%Q with
  | Lt => f
  | Gt => (f + 1)%Z
  | Eq => if Z.even f then f else (f + 1)%Z
  end.

Definition zfill (width : nat) (s : string) : string :=
  String.string_of_list_ascii (replicate (width - String.length s) "0"%char) +:+ s.

(** [{:.6f}]: fixed notation with six digits after the point. *)
Definition format_6f (x : Q) : string :=
  let n := round_half_even (Qabs x * 1000000) in
  (if Qlt_le_dec x 0 then "-" else "") +:+
  pretty (n / 1000000)%Z +:+ "." +:+ zfill 6 (pretty (n mod 1000000)%Z).

(** ["\n".join(items)]. *)
Fixpoint join_lines (items : list string) : string :=
  match items with
  | [] => ""
  | [s] => s
  | s :: t => s +:+ String "010"%char (join_lines t)
  end.

Definition report_header (key_field : string) : string :=
  "<BOL>" +:+ ljust 27 key_field +:+ " " +:+ ljust 8 "Exiting" +:+ " " +:+
  ljust 8 "Future" +:+ " " +:+ ljust 8 "Change" +:+ "</BOL>".

(** The line of one tuple; the key is text and the three others floats. *)
Definition report_line (r : list value) : option string :=
  match r with
  | [VText k; VDouble a; VDouble b; VDouble c] =>
      Some (truncate 27 k +:+ " " +:+ format_6f a +:+ " " +:+ format_6f b +:+ " " +:+
            format_6f c)
  | _ => None
  end.
Section Platform.
Context {G : Geometry}.

(** A row of a table; a feature has a shape. *)
Record row := Row { attrs : list (string * value); shape : option geom }.

(** A table or a feature class: its fields and its rows. *)
Record table := Table { tbl_fields : list field_def; tbl_rows : list row }.

(** The value of an attribute: the first field of that name. *)
Fixpoint get_attr (name : string) (l : list (string * value)) : option value :=
  match l with
  | [] => None
  | (n, v) :: t => if String.eqb n name then Some v else get_attr name t
  end.

(** Setting an attribute, in place when the row has it. *)
Fixpoint set_attr (name : string) (v : value) (l : list (string * value))
  : list (string * value) :=
  match l with
  | [] => [(name, v)]
  | (n, w) :: t =>
      if String.eqb n name then (n, v) :: t else (n, w) :: set_attr name v t
  end.

(** The layers, data frames and text elements of the map document. *)
Record layer := Layer { workspace_path : path; dataset_name : string }.
Record data_frame := DataFrame { df_extent : option extent; df_scale : Q }.

Record map_session := MapSessionState {
  layers : gmap string (gmap string layer);
  data_frames : gmap string data_frame;
  elements : gmap string string
}.

(** A file written by the tool: the exported PDF or the saved map document. *)
Inductive document :=
  | Pdf (mxd : map_session) (image_quality : string)
  | Mxd (mxd : map_session).

(** The methods of the tool, for the trace of calls. *)
Inductive method :=
  | m_add_constant_field | m_table_to_dataframe | m_create_result_table
  | m_get_field_definition | m_dataframe_to_table | m_run_spatial_analysis
  | m_run_summary_analysis | m_export_results_table | m_simple_report
  | m_generate_pdf_mxd | m_run.

(** The state the tool works on: the datasets by path, the file
    geodatabases created, the files written, the map document, and the
    trace of the methods entered so far. *)
Record world := World {
  tables : gmap path table;
  geodatabases : list path;
  files : gmap path document;
  session : map_session;
  trace : list method
}.

(** Computations of the tool: a result or an exception, and the state
    reached; the effects before an exception stay. *)
Definition M (A : Type) : Type := world -> option A * world.

Definition ret {A} (a : A) : M A := fun w => (Some a, w).
Definition raise {A} : M A := fun w => (None, w).
Definition bind {A B} (c : M A) (k : A -> M B) : M B :=
  fun w => match c w with
           | (Some a, w') => k a w'
           | (None, w') => (None, w')
           end.
Definition lift {A} (o : option A) : M A :=
  match o with Some a => ret a | None => raise end.

#[export] Instance M_ret : MRet M := @ret.
#[export] Instance M_bind : MBind M := fun A B k c => bind c k.

Definition enter (m : method) : M unit :=
  fun w => (Some tt, World (tables w) (geodatabases w) (files w) (session w)
                           (trace w ++ [m])).

Definition read_table (p : path) : M table :=
  fun w => (tables w !! p, w).

Definition put_table (p : path) (t : table) (w : world) : world :=
  World (<[p := t]> (tables w)) (geodatabases w) (files w) (session w) (trace w).

Definition write_table (p : path) (t : table) : M unit :=
  fun w => (Some tt, put_table p t w).

Definition get_session : M map_session := fun w => (Some (session w), w).

Definition put_session (s : map_session) : M unit :=
  fun w => (Some tt, World (tables w) (geodatabases w) (files w) s (trace w)).

Definition write_file (p : path) (d : document) : M unit :=
  fun w => (Some tt, World (tables w) (geodatabases w) (<[p := d]> (files w))
                           (session w) (trace w)).

(** [arcpy.Exists]. *)
Definition arcpy_Exists (p : path) : M bool :=
  fun w => (Some (bool_decide (p ∈ geodatabases w)
                  || bool_decide (is_Some (tables w !! p))
                  || bool_decide (is_Some (files w !! p))), w).

(** [arcpy.CreateFileGDB_management]. *)
Definition CreateFileGDB_management (folder : path) (name : string) : M unit :=
  fun w => (Some tt, World (tables w) (os_path_join folder name :: geodatabases w)
                           (files w) (session w) (trace w)).

(** [arcpy.CopyFeatures_management]. *)
Definition CopyFeatures_management (in_features out_feature_class : path) : M unit :=
  t ← read_table in_features;
  write_table out_feature_class t.

(** The shapes of the rows that have one. *)
Definition shapes (rows : list row) : list geom := omap shape rows.

Definition field_names (t : table) : list string := field_name <$> tbl_fields t.

(** A row read against the fields of its table: one cell per field, null
    where the row has no value. *)
Definition project (fields : list field_def) (r : row) : list (string * value) :=
  (fun f => (field_name f, default VNull (get_attr (field_name f) (attrs r)))) <$> fields.

(** [arcpy.MakeFeatureLayer_management]: a layer on all the features. *)
Definition MakeFeatureLayer_management (in_features : path) : M table :=
  read_table in_features.

(** [arcpy.SelectLayerByLocation_management] with [overlap_type="INTERSECT"],
    [selection_type="NEW_SELECTION"] and no inversion: the layer keeps the
    features that intersect a feature of [select_features]. *)
Definition intersects_any (sel : list geom) (r : row) : bool :=
  match shape r with
  | Some g => existsb (geom_intersects g) sel
  | None => false
  end.

Definition select_by_location (in_layer select_features : table) : table :=
  Table (tbl_fields in_layer)
        (List.filter (intersects_any (shapes (tbl_rows select_features)))
                     (tbl_rows in_layer)).

Definition SelectLayerByLocation_management (in_layer : table)
    (select_features : path) : M table :=
  s ← read_table select_features;
  mret (select_by_location in_layer s).

(** [arcpy.Buffer_analysis] with [line_side="FULL"], [line_end_type="ROUND"]
    and [dissolve_option="ALL"]: one feature for all the input features, none
    when there is no input feature. *)
Definition buffer_rows (distance : string) (rows : list row) : list row :=
  match shapes rows with
  | [] => []
  | gs => [Row [] (Some (geom_buffer distance gs))]
  end.

Definition buffer_table (distance : string) (in_features : table) : table :=
  Table [] (buffer_rows distance (tbl_rows in_features)).

Definition Buffer_analysis (in_features : table) (out_feature_class : path)
    (buffer_distance : string) : M unit :=
  write_table out_feature_class (buffer_table buffer_distance in_features).

(** [arcpy.AddField_management]: a field of that name is added once. *)
Definition has_field (name : string) (t : table) : bool :=
  existsb (String.eqb name) (field_names t).

Definition add_field (fd : field_def) (t : table) : table :=
  if has_field (field_name fd) t then t
  else Table (tbl_fields t ++ [fd]) (tbl_rows t).

Definition AddField_management (in_table : path) (fd : field_def) : M unit :=
  t ← read_table in_table;
  write_table in_table (add_field fd t).

(** [arcpy.Merge_management] of two inputs: the rows of the first, then the
    rows of the second, over the fields of both. *)
Definition merge_fields (f1 f2 : list field_def) : list field_def :=
  f1 ++ List.filter (fun f => negb (existsb (String.eqb (field_name f)) (field_name <$> f1))) f2.

Definition merge_tables (t1 t2 : table) : table :=
  let fields := merge_fields (tbl_fields t1) (tbl_fields t2) in
  Table fields
        ((fun r => Row (project fields r) (shape r)) <$> (tbl_rows t1 ++ tbl_rows t2)).

Definition Merge_management (in1 in2 output : path) : M unit :=
  t1 ← read_table in1;
  t2 ← read_table in2;
  write_table output (merge_tables t1 t2).

(** [arcpy.Intersect_analysis] of two inputs with [join_attributes="ALL"]:
    one feature for each pair of input features with a common part, with
    the attributes of both. *)
Definition intersect_pair (tol : string) (f1 f2 : list field_def) (a b : row)
  : list row :=
  match shape a, shape b with
  | Some g, Some h =>
      match geom_intersect tol g h with
      | Some i => [Row (project f1 a ++ project f2 b) (Some i)]
      | None => []
      end
  | _, _ => []
  end.

Definition intersect_rows (tol : string) (t1 t2 : table) : list row :=
  flat_map (fun a => flat_map (intersect_pair tol (tbl_fields t1) (tbl_fields t2) a)
                              (tbl_rows t2))
           (tbl_rows t1).

Definition intersect_tables (tol : string) (t1 t2 : table) : table :=
  Table (tbl_fields t1 ++ tbl_fields t2) (intersect_rows tol t1 t2).

Definition Intersect_analysis (in1 in2 out_feature_class : path)
    (cluster_tolerance : string) : M unit :=
  t1 ← read_table in1;
  t2 ← read_table in2;
  write_table out_feature_class (intersect_tables cluster_tolerance t1 t2).

(** [arcpy.da.SearchCursor]: the cell of a row for a field name or for one
    of the tokens [SHAPE@LENGTH] and [SHAPE@AREA]. *)
Definition cursor_cell (r : row) (name : string) : option value :=
  if String.eqb name "SHAPE@LENGTH" then (fun g => VDouble (geom_length g)) <$> shape r
  else if String.eqb name "SHAPE@AREA" then (fun g => VDouble (geom_area g)) <$> shape r
  else Some (default VNull (get_attr name (attrs r))).

Definition is_token (name : string) : bool :=
  String.eqb name "SHAPE@LENGTH" || String.eqb name "SHAPE@AREA".

Definition SearchCursor (t : table) (names : list string) : option (list (list value)) :=
  if forallb (fun n => is_token n || has_field n t) names
  then mapM (fun r => mapM (cursor_cell r) names) (tbl_rows t)
  else None.

(** [arcpy.da.UpdateCursor] on one field, every row set to one value. *)
Definition update_all (name : string) (v : value) (t : table) : table :=
  Table (tbl_fields t)
        ((fun r => Row (set_attr name v (attrs r)) (shape r)) <$> tbl_rows t).

Definition UpdateCursor_set (in_table : path) (name : string) (v : value) : M unit :=
  t ← read_table in_table;
  if has_field name t then write_table in_table (update_all name v t) else raise.

(** [arcpy.da.InsertCursor]: a row appended for each tuple of values. *)
Definition InsertCursor_rows (in_table : path) (names : list string)
    (values : list (list value)) : M unit :=
  t ← read_table in_table;
  if forallb (fun n => has_field n t) names
  then write_table in_table
         (Table (tbl_fields t)
                (tbl_rows t ++ ((fun vs => Row (zip names vs) None) <$> values)))
  else raise.

(** [arcpy.CreateTable_management]. *)
Definition CreateTable_management (out_path : path) (out_name : string) : M unit :=
  write_table (os_path_join out_path out_name) (Table [] []).

(** [arcpy.JoinField_management] without a field list: every row of the
    input gets the cells of the first row of the join table with its key. *)
Definition value_eqb (v w : value) : bool :=
  match v, w with
  | VText s, VText t => String.eqb s t
  | VDouble p, VDouble q => Qeq_bool p q
  | _, _ => false
  end.

Definition join_row (in_field join_field : string) (jt : table) (r : row) : row :=
  let k := default VNull (get_attr in_field (attrs r)) in
  let matches :=
    List.filter (fun j => value_eqb (default VNull (get_attr join_field (attrs j))) k)
                (tbl_rows jt) in
  match matches with
  | j :: _ => Row (attrs r ++ project (tbl_fields jt) j) (shape r)
  | [] => Row (attrs r ++ ((fun f => (field_name f, VNull)) <$> tbl_fields jt)) (shape r)
  end.

Definition JoinField_management (in_data : path) (in_field : string)
    (join_table : path) (join_field : string) : M unit :=
  t ← read_table in_data;
  jt ← read_table join_table;
  if has_field in_field t && has_field join_field jt
  then write_table in_data
         (Table (tbl_fields t ++ tbl_fields jt)
                (join_row in_field join_field jt <$> tbl_rows t))
  else raise.

(** [layer.replaceDataSource] on [layers[frame][name]] of the map session. *)
Definition replaceDataSource (frame_name layer_name : string)
    (workspace_path_ : path) (dataset_name_ : string) : M unit :=
  s ← get_session;
  in_frame ← lift (layers s !! frame_name);
  _ ← lift (in_frame !! layer_name);
  put_session
    (MapSessionState
       (<[frame_name := <[layer_name := Layer workspace_path_ dataset_name_]> in_frame]>
          (layers s))
       (data_frames s) (elements s)).

(** [layer.getExtent()]: the extent of the features of the data source. *)
Definition getExtent (frame_name layer_name : string) : M extent :=
  s ← get_session;
  in_frame ← lift (layers s !! frame_name);
  lyr ← lift (in_frame !! layer_name);
  t ← read_table (os_path_join (workspace_path lyr) (dataset_name lyr));
  mret (geom_extent (shapes (tbl_rows t))).

(** [data_frames[name].extent = ext]: the frame takes the scale of the extent. *)
Definition set_extent (name : string) (ext : extent) : M unit :=
  s ← get_session;
  _ ← lift (data_frames s !! name);
  put_session
    (MapSessionState (layers s)
       (<[name := DataFrame (Some ext) (extent_scale ext)]> (data_frames s))
       (elements s)).

(** [data_frames[name].scale]. *)
Definition get_scale (name : string) : M Q :=
  s ← get_session;
  d ← lift (data_frames s !! name);
  mret (df_scale d).

(** [data_frames[name].scale = scale]. *)
Definition set_scale (name : string) (scale : Z) : M unit :=
  s ← get_session;
  d ← lift (data_frames s !! name);
  put_session
    (MapSessionState (layers s)
       (<[name := DataFrame (df_extent d) (inject_Z scale)]> (data_frames s))
       (elements s)).

(** [elements[name].text = text]. *)
Definition set_text (name text : string) : M unit :=
  s ← get_session;
  _ ← lift (elements s !! name);
  put_session
    (MapSessionState (layers s) (data_frames s) (<[name := text]> (elements s))).

(** [arcpy.mapping.ExportToPDF] and [mxd.saveACopy]. *)
Definition ExportToPDF (out_pdf : path) (image_quality : string) : M unit :=
  s ← get_session;
  write_file out_pdf (Pdf s image_quality).

Definition saveACopy (file_name : path) : M unit :=
  s ← get_session;
  write_file file_name (Mxd s).

(** *** The tool *)

Record config := Config { workspace : path; image_quality : string }.

(** The values of the parameters of the tool, by name. *)
Record parameters := Parameters {
  in_streams : path;
  in_watershed : path;
  in_watershed_id : string;
  in_distance : string;
  in_roads : path;
  in_proposed_roads : path;
  out_folder : path
}.

Record tool := Tool { tool_config : config; tool_parameters : parameters }.

Definition for_each {A} (l : list A) (f : A -> M unit) : M unit :=
  foldr (fun x k => f x;; k) (mret tt) l.

Section Methods.
Variable self : tool.

Definition add_constant_field (table_name : path) (field_name field_value : string)
  : M unit :=
  enter m_add_constant_field;;
  AddField_management table_name
    (FieldDef field_name "TEXT" None
              (Some (Z.of_nat (String.length field_value) + 2)%Z) None None);;
  UpdateCursor_set table_name field_name (VText field_value).

Definition table_to_dataframe (table : path) (field_names_ : option (list string))
  : M raw_frame :=
  enter m_table_to_dataframe;;
  t ← read_table table;
  let names := match field_names_ with
               | Some (n :: l) => n :: l
               | _ => field_names t
               end in
  values ← lift (SearchCursor t names);
  mret (RawFrame names values).

Definition result_fields (key_field_def : option field_def) : list (option field_def) :=
  [ key_field_def;
    Some (FieldDef "watershed_area" "DOUBLE" (Some "Watershed Area Sqr KM") None None None);
    Some (FieldDef "proposed_road_length" "DOUBLE"
            (Some "Proposed Road Length Near Streams KM") None None None);
    Some (FieldDef "existing_road_length" "DOUBLE"
            (Some "Existing Road Length Near Streams KM") None None None);
    Some (FieldDef "total_road_length" "DOUBLE"
            (Some "Total (proposed and existing) Road Length Near Streams KM")
            None None None);
    Some (FieldDef "original_road_density" "DOUBLE"
            (Some "Existing Road Density Near Streams KM/KM2") None None None);
    Some (FieldDef "future_road_density" "DOUBLE"
            (Some "Future Road Density Near Streams KM/KM2") None None None) ].

(** [**fld] on [None] raises. *)
Definition create_result_table (workspace_ : path) (table_name : string)
    (key_field_def : option field_def) : M path :=
  enter m_create_result_table;;
  let fields := result_fields key_field_def in
  CreateTable_management workspace_ table_name;;
  for_each fields (fun fld =>
    fd ← lift fld;
    AddField_management (os_path_join workspace_ table_name) fd);;
  mret (os_path_join workspace_ table_name).

Definition get_field_definition (table : path) (name : string)
  : M (option field_def) :=
  enter m_get_field_definition;;
  t ← read_table table;
  let field := List.filter (fun i => String.eqb (field_name i) name) (tbl_fields t) in
  mret (match field with
        | f :: _ =>
            Some (FieldDef (field_name f) (field_type f)
                    (Some (default (field_name f) (field_alias f)))
                    (Some (default 0%Z (field_length f)))
                    (Some (default 0%Z (field_precision f)))
                    (Some (default 0%Z (field_scale f))))
        | [] => None
        end).

Definition dataframe_to_table (result_df : frame Q) (table : path)
    (fields : list string) : M unit :=
  enter m_dataframe_to_table;;
  results ← lift (select_values result_df fields);
  InsertCursor_rows table fields results.

Definition run_spatial_analysis : M path :=
  enter m_run_spatial_analysis;;
  let workspace_ := workspace (tool_config self) in
  let p := tool_parameters self in
  streams_layer ← MakeFeatureLayer_management (in_streams p);
  streams_layer ← SelectLayerByLocation_management streams_layer (in_watershed p);
  Buffer_analysis streams_layer (os_path_join workspace_ "stream_buffer") (in_distance p);;
  CopyFeatures_management (in_roads p) (os_path_join workspace_ "original_roads");;
  add_constant_field (os_path_join workspace_ "original_roads") "ROAD_TYPE" "Pre-Development";;
  CopyFeatures_management (in_proposed_roads p) (os_path_join workspace_ "proposed_roads");;
  add_constant_field (os_path_join workspace_ "proposed_roads") "ROAD_TYPE" "Proposed";;
  Merge_management (os_path_join workspace_ "original_roads")
                   (os_path_join workspace_ "proposed_roads")
                   (os_path_join workspace_ "roads_combined");;
  Intersect_analysis (os_path_join workspace_ "roads_combined")
                     (os_path_join workspace_ "stream_buffer")
                     (os_path_join workspace_ "intersected_streams_roads") "0.1";;
  Intersect_analysis (os_path_join workspace_ "intersected_streams_roads")
                     (in_watershed p)
                     (os_path_join workspace_ "intersected_roads_watershed") "0.1";;
  mret (os_path_join workspace_ "intersected_roads_watershed").

(** The column assignments of [run_summary_analysis]: all the areas,
    lengths and densities. *)
Definition calculate_columns (newdf : frame Q) : option (frame Q) :=
  pre ← getcol newdf "Pre-Development";
  prop ← getcol newdf "Proposed";
  newdf ← setcol newdf "total-road-km" (s_div_scalar (s_add pre prop) 1000);
  prop ← getcol newdf "Proposed";
  newdf ← setcol newdf "proposed_road_length" (s_div_scalar prop 1000);
  pre ← getcol newdf "Pre-Development";
  newdf ← setcol newdf "existing_road_length" (s_div_scalar pre 1000);
  existing ← getcol newdf "existing_road_length";
  proposed ← getcol newdf "proposed_road_length";
  newdf ← setcol newdf "total_road_length" (s_add existing proposed);
  area ← getcol newdf "SHAPE@AREA";
  newdf ← setcol newdf "watershed_area" (s_div_scalar area 1000000);
  total ← getcol newdf "total_road_length";
  warea ← getcol newdf "watershed_area";
  newdf ← setcol newdf "future_road_density" (s_div total warea);
  existing ← getcol newdf "existing_road_length";
  warea ← getcol newdf "watershed_area";
  newdf ← setcol newdf "original_road_density" (s_div existing warea);
  Some newdf.

Definition run_summary_analysis (spatial_result : path) : M (frame Q) :=
  enter m_run_summary_analysis;;
  let p := tool_parameters self in
  let key_field := in_watershed_id p in
  roads_df ← table_to_dataframe spatial_result
                (Some [key_field; "ROAD_TYPE"; "SHAPE@LENGTH"]);
  road_watershed_df ← lift (fillna 0 <$>
                        pivot_table roads_df key_field "ROAD_TYPE" "SHAPE@LENGTH");
  road_watershed_df ← lift (reset_index road_watershed_df);
  watersheds_df ← table_to_dataframe (in_watershed p) (Some [key_field; "SHAPE@AREA"]);
  watershed_areas_df ← lift (groupby_sum watersheds_df key_field);
  watershed_areas_df ← lift (reset_index watershed_areas_df);
  let newdf := fillna 0 (merge_outer watershed_areas_df road_watershed_df) in
  lift (calculate_columns newdf).

Definition export_results_table (dataframe : frame Q) (output_gdb : path) : M path :=
  enter m_export_results_table;;
  let p := tool_parameters self in
  let key_field := in_watershed_id p in
  key_field_definition ← get_field_definition (in_watershed p) key_field;
  create_result_table output_gdb "Results" key_field_definition;;
  let fields := [key_field; "watershed_area"; "existing_road_length";
                 "proposed_road_length"; "total_road_length";
                 "original_road_density"; "future_road_density"] in
  dataframe_to_table dataframe (os_path_join output_gdb "Results") fields;;
  mret (os_path_join output_gdb "Results").

(** The frame of the caller gets the column [change_in_density] as well;
    [run] does not read it afterwards. *)
Definition simple_report (result_df : frame Q) : M string :=
  enter m_simple_report;;
  result_df ← lift (
    orig ← getcol result_df "original_road_density";
    fut ← getcol result_df "future_road_density";
    setcol result_df "change_in_density" (s_abs (s_sub orig fut)));
  result_df ← lift (sort_descending result_df "change_in_density");
  let key_field := in_watershed_id (tool_parameters self) in
  values ← lift (take 20 <$>
              select_values result_df
                [key_field; "original_road_density"; "future_road_density";
                 "change_in_density"]);
  if bool_decide (0 < length values)%nat
  then
    rows ← lift (mapM report_line values);
    mret (join_lines (report_header key_field :: rows))
  else mret "Unable to find assessment data".

Definition generate_pdf_mxd (result_layer : path) (result_df : frame Q) : M unit :=
  enter m_generate_pdf_mxd;;
  let p := tool_parameters self in
  let '(workspace_, dataset) := os_path_split result_layer in
  replaceDataSource "Existing" "Road Density" workspace_ dataset;;
  replaceDataSource "Proposed" "Road Density" workspace_ dataset;;
  let '(workspace_, dataset) := os_path_split (in_proposed_roads p) in
  replaceDataSource "Proposed" "Proposed Roads" workspace_ dataset;;
  ext ← getExtent "Existing" "Road Density";
  set_extent "Existing" ext;;
  set_extent "Proposed" ext;;
  current_scale ← get_scale "Existing";
  scale ← lift (MapSession.get_map_scale current_scale);
  set_scale "Existing" scale;;
  set_scale "Proposed" scale;;
  let distance := in_distance p in
  let stmt := "Density is based on roads within " +:+ distance +:+
              " of a stream centerline" in
  set_text "subTitleText" stmt;;
  output_table ← simple_report result_df;
  set_text "tableTextArea" output_table;;
  let out_path := os_path_join (out_folder p) "result.pdf" in
  ExportToPDF out_path (image_quality (tool_config self));;
  saveACopy (os_path_join (out_folder p) "result.mxd").

Definition run : M unit :=
  enter m_run;;
  let p := tool_parameters self in
  let key_field := in_watershed_id p in
  let output_gdb := os_path_join (out_folder p) "results.gdb" in
  exists_ ← arcpy_Exists output_gdb;
  (if negb exists_ then CreateFileGDB_management (out_folder p) "results.gdb"
   else mret tt);;
  spatial_result ← run_spatial_analysis;
  result ← run_summary_analysis spatial_result;
  result_table ← export_results_table result output_gdb;
  CopyFeatures_management (in_watershed p) (os_path_join output_gdb "result_polygons");;
  JoinField_management (os_path_join output_gdb "result_polygons") key_field
                       result_table key_field;;
  generate_pdf_mxd (os_path_join output_gdb "result_polygons") result.

End Methods.
End Platform.
End RoadDensity.

(** ** A small geometry for examples

    Shapes are finite sets of unit cells on a line: a road or a stream is
    the list of the cells it runs through, a watershed the list of the
    cells it covers.  The length and the area of a shape count its cells
    in meters and square meters, a cell being 1000 m long. *)

Module Cells.

Definition cells := list Z.

Definition cells_intersects (g h : cells) : bool :=
  existsb (fun x => existsb (Z.eqb x) h) g.

Definition cells_buffer (distance : string) (gs : list cells) : cells :=
  flat_map (fun x => [x - 1; x; x + 1]%Z) (concat gs).

Definition cells_intersect (tol : string) (g h : cells) : option cells :=
  match List.filter (fun x => existsb (Z.eqb x) h) g with
  | [] => None
  | i => Some i
  end.

Definition cells_measure (k : Z) (g : cells) : Q :=
  inject_Z (k * Z.of_nat (length g)).

Definition cells_extent (gs : list cells) : Z * Z :=
  (foldr Z.min 0%Z (concat gs), foldr Z.max 0%Z (concat gs)).

#[export] Instance cells_geometry : RoadDensity.Geometry := {|
  RoadDensity.geom := cells;
  RoadDensity.extent := Z * Z;
  RoadDensity.geom_intersects := cells_intersects;
  RoadDensity.geom_buffer := cells_buffer;
  RoadDensity.geom_intersect := cells_intersect;
  RoadDensity.geom_length := cells_measure 1000;
  RoadDensity.geom_area := cells_measure 1000000;
  RoadDensity.geom_extent := cells_extent;
  RoadDensity.extent_scale := fun e => inject_Z (1000 * (e.2 - e.1 + 1))
|}.

Import RoadDensity.

Definition text_field (name : string) : field_def :=
  FieldDef name "TEXT" None (Some 20%Z) None None.

(** Two watersheds, a stream through both, two roads and a proposed road. *)
Definition ex_watersheds : table :=
  Table [text_field "WS_ID"]
    [ Row [("WS_ID", VText "A")] (Some [0; 1; 2; 3; 4]%Z);
      Row [("WS_ID", VText "B")] (Some [5; 6; 7; 8; 9]%Z) ].

Definition ex_streams : table :=
  Table [text_field "NAME"]
    [ Row [("NAME", VText "creek")] (Some [2; 3]%Z);
      Row [("NAME", VText "far")] (Some [40]%Z) ].

Definition ex_roads : table :=
  Table [text_field "ROAD_NAME"]
    [ Row [("ROAD_NAME", VText "r1")] (Some [0; 1; 2]%Z);
      Row [("ROAD_NAME", VText "r2")] (Some [8; 9]%Z) ].

Definition ex_proposed : table :=
  Table [text_field "ROAD_NAME"]
    [ Row [("ROAD_NAME", VText "p1")] (Some [3; 4; 5]%Z) ].

Definition ex_session : map_session :=
  MapSessionState
    {[ "Existing" := {[ "Road Density" := Layer ["template.gdb"] "density" ]};
       "Proposed" := {[ "Road Density" := Layer ["template.gdb"] "density";
                        "Proposed Roads" := Layer ["template.gdb"] "roads" ]} ]}
    {[ "Existing" := DataFrame None 1; "Proposed" := DataFrame None 1 ]}
    {[ "subTitleText" := ""%string; "tableTextArea" := ""%string ]}.

Definition ex_world : world :=
  World {[ ["in.gdb"; "watersheds"] := ex_watersheds;
           ["in.gdb"; "streams"] := ex_streams;
           ["in.gdb"; "roads"] := ex_roads;
           ["in.gdb"; "proposed"] := ex_proposed ]}
        [] ∅ ex_session [].

Definition ex_tool : tool :=
  Tool (Config ["scratch.gdb"] "BEST")
       (Parameters ["in.gdb"; "streams"] ["in.gdb"; "watersheds"] "WS_ID" "100 Meters"
                   ["in.gdb"; "roads"] ["in.gdb"; "proposed"] ["out"]).

(** The example, stage by stage. *)
Definition ex_spatial : option path * world := run_spatial_analysis ex_tool ex_world.

Definition ex_spatial_result : path := ["scratch.gdb"; "intersected_roads_watershed"].

Definition ex_summary : option (frame Q) * world :=
  run_summary_analysis ex_tool ex_spatial_result ex_spatial.2.

Definition ex_frame : frame Q := default (Frame "" [] []) ex_summary.1.

(** The row of watershed A in the summary. *)
Definition ex_row : frame_row Q := default (""%string, ∅) (head (fr_rows ex_frame)).

Definition ex_intersected : table :=
  default (Table [] []) (tables ex_spatial.2 !! ex_spatial_result).

Definition ex_cell (name : string) : Q := default 0%Q (ex_row.2 !! name).

Definition ex_report : option string * world :=
  simple_report ex_tool ex_frame ex_summary.2.

Definition ex_run : option unit * world := run ex_tool ex_world.

End Cells.

(** ** Notions used by the statements *)

Module Spec.
Import RoadDensity.

(** The four stages of the analysis, among the methods of the tool. *)
Definition is_stage (m : method) : bool :=
  match m with
  | m_run_spatial_analysis | m_run_summary_analysis
  | m_export_results_table | m_generate_pdf_mxd => true
  | _ => false
  end.

Definition stages (l : list method) : list method := List.filter is_stage l.

Definition pipeline : list method :=
  [m_run_spatial_analysis; m_run_summary_analysis; m_export_results_table;
   m_generate_pdf_mxd].

(** The cells a row gets from [calculate_columns], for the road lengths
    [pre] and [prop] and the area [area] of its watershed. *)
Definition computed_cells (pre prop area : Q) (cells : gmap string Q) : gmap string Q :=
  <["original_road_density" := (pre / 1000 / (area / 1000000))%Q]>
  (<["future_road_density" := ((pre / 1000 + prop / 1000) / (area / 1000000))%Q]>
  (<["watershed_area" := (area / 1000000)%Q]>
  (<["total_road_length" := (pre / 1000 + prop / 1000)%Q]>
  (<["existing_road_length" := (pre / 1000)%Q]>
  (<["proposed_road_length" := (prop / 1000)%Q]>
  (<["total-road-km" := ((pre + prop) / 1000)%Q]> cells)))))).

(** The cell of a row for a column, [0] when the row has none. *)
Definition cell (cells : gmap string Q) (name : string) : Q :=
  default 0%Q (cells !! name).

(** The road-density change of a row: the absolute value of the original
    density minus the future density. *)
Definition change_in_density (cells : gmap string Q) : Q :=
  Qabs (cell cells "original_road_density" - cell cells "future_road_density").

(** The line of the report for a row of the result. *)
Definition report_row (r : frame_row Q) : string :=
  truncate 27 r.1 +:+ " " +:+
  format_6f (cell r.2 "original_road_density") +:+ " " +:+
  format_6f (cell r.2 "future_road_density") +:+ " " +:+
  format_6f (change_in_density r.2).

(** Rows by decreasing change. *)
Definition by_decreasing_change (r1 r2 : frame_row Q) : Prop :=
  (change_in_density r2.2 <= change_in_density r1.2)%Q.

Section Measures.
Context {G : Geometry}.

(** The value of a field in a row, null when the row has none. *)
Definition field_value (name : string) (r : row) : value :=
  default VNull (get_attr name (attrs r)).

(** The road length of one road type inside one watershed: the lengths of
    the features of a table that carry the key of the watershed and the
    road type, added up. *)
Definition road_length (t : table) (key_field road_type k : string) : Q :=
  Qsum (geom_length <$>
          shapes (List.filter
                    (fun r => value_eqb (field_value key_field r) (VText k) &&
                              value_eqb (field_value "ROAD_TYPE" r) (VText road_type))
                    (tbl_rows t))).

(** The area of one watershed: the areas of its polygons, added up. *)
Definition watershed_area (t : table) (key_field k : string) : Q :=
  Qsum (geom_area <$>
          shapes (List.filter
                    (fun r => value_eqb (field_value key_field r) (VText k))
                    (tbl_rows t))).

(** The states of a world that the methods keep when they only read. *)
Definition same_data (w w' : world) : Prop :=
  tables w' = tables w /\ geodatabases w' = geodatabases w /\
  files w' = files w /\ session w' = session w.

(** A path that [arcpy.Exists] finds in a world. *)
Definition present (q : path) (w : world) : Prop :=
  q ∈ geodatabases w \/ is_Some (tables w !! q) \/ is_Some (files w !! q).

(** A world that has everything an earlier one had. *)
Definition extends (w w' : world) : Prop :=
  (forall q, q ∈ geodatabases w -> q ∈ geodatabases w') /\
  (forall q, is_Some (tables w !! q) -> is_Some (tables w' !! q)) /\
  (forall q, is_Some (files w !! q) -> is_Some (files w' !! q)).

(** A world with the datasets, workspaces and files of an earlier one. *)
Definition static (w w' : world) : Prop :=
  tables w' = tables w /\ geodatabases w' = geodatabases w /\ files w' = files w.

(** The fields of the results table after the key field. *)
Definition result_field_names : list string :=
  ["watershed_area"; "proposed_road_length"; "existing_road_length";
   "total_road_length"; "original_road_density"; "future_road_density"].

(** A computation emits [full]: whatever the state, it extends the trace,
    the stages it adds are the first ones of [full], and all of [full] when
    it returns. *)
Definition emits {A} (c : M A) (full : list method) : Prop :=
  forall w, exists l,
    trace (c w).2 = trace w ++ l /\
    stages l `prefix_of` full /\
    (is_Some (c w).1 -> stages l = full).

(** A computation respects a relation between the worlds before and
    after. *)
Definition respects (Rel : world -> world -> Prop) {A} (c : M A) : Prop :=
  forall w, Rel w (c w).2.

(** The definitions of the fields of the results table after the key
    field. *)
Definition result_field_defs : list field_def :=
  omap id (tail (result_fields None)).

(** The field that [add_constant_field] adds for a text value. *)
Definition constant_field (name v : string) : field_def :=
  FieldDef name "TEXT" None (Some (Z.of_nat (String.length v) + 2)%Z) None None.

(** A table after [add_constant_field]. *)
Definition tagged (name v : string) (t : table) : table :=
  update_all name (VText v) (add_field (constant_field name v) t).

(** The buffer of the streams that intersect the watersheds. *)
Definition stream_buffer (streams watersheds : table) (distance : string) : table :=
  buffer_table distance (select_by_location streams watersheds).

(** The spatial result for given inputs: the two road networks, tagged and
    merged, overlaid with the buffer and then with the watersheds. *)
Definition spatial_result (streams watersheds roads proposed : table)
    (distance : string) : table :=
  intersect_tables "0.1"
    (intersect_tables "0.1"
       (merge_tables (tagged "ROAD_TYPE" "Pre-Development" roads)
                     (tagged "ROAD_TYPE" "Proposed" proposed))
       (stream_buffer streams watersheds distance))
    watersheds.

(** The features of the spatial result that come from the features
    [network] of one tagged road network: merged, overlaid with the buffer
    and then with the watersheds. *)
Definition network_pieces (streams watersheds roads proposed : table)
    (distance : string) (network : list row) : list row :=
  let fields := tbl_fields (merge_tables (tagged "ROAD_TYPE" "Pre-Development" roads)
                                         (tagged "ROAD_TYPE" "Proposed" proposed)) in
  tbl_rows
    (intersect_tables "0.1"
       (intersect_tables "0.1"
          (Table fields ((fun r => Row (project fields r) (shape r)) <$> network))
          (stream_buffer streams watersheds distance))
       watersheds).

(** The length of the features of a list that carry the key of a
    watershed. *)
Definition length_in_watershed (key_field k : string) (rows : list row) : Q :=
  Qsum (geom_length <$>
          shapes (List.filter
                    (fun r => value_eqb (field_value key_field r) (VText k)) rows)).

(** The datasets the spatial analysis writes in the scratch workspace. *)
Definition scratch_outputs (self : tool) : list path :=
  os_path_join (workspace (tool_config self)) <$>
    ["stream_buffer"; "original_roads"; "proposed_roads"; "roads_combined";
     "intersected_streams_roads"; "intersected_roads_watershed"].

(** A feature without a common part with any feature of the buffer. *)
Definition outside_buffer (buffer : table) (r : row) : Prop :=
  forall g b gb,
    shape r = Some g -> b ∈ tbl_rows buffer -> shape b = Some gb ->
    geom_intersect "0.1" g gb = None.

End Measures.

End Spec.

(** ** MapSession.py: the fields and the text elements of the session *)

Module MapObjects.

(** An ordered dictionary with text keys: its items in insertion order.
    [od_set] is [d[k] = v]: the value of an existing key is replaced where
    the key stands, a new key goes to the end. *)
Definition ordered_dict (V : Type) := list (string * V).

Fixpoint od_set {V} (k : string) (v : V) (d : ordered_dict V) : ordered_dict V :=
  match d with
  | [] => [(k, v)]
  | (k', v') :: t =>
      if String.eqb k' k then (k', v) :: t else (k', v') :: od_set k v t
  end.

Fixpoint od_get {V} (k : string) (d : ordered_dict V) : option V :=
  match d with
  | [] => None
  | (k', v') :: t => if String.eqb k' k then Some v' else od_get k t
  end.

(** The inner loop of [__init__] for the fields of one layer:
    [for (k, v) in zip(fields, range(len(fields))): d[k] = v]. *)
Definition field_indexes (fields : list string) : ordered_dict nat :=
  foldl (fun d kv => od_set kv.1 kv.2 d) []
        (zip fields (seq 0 (length fields))).

(** [self.fields] after [__init__], from [config['fields']] (the empty
    dictionary when the configuration has no such entry). *)
Definition init_fields (config_fields : option (gmap string (list string)))
  : gmap string (ordered_dict nat) :=
  match config_fields with
  | Some layers_ => field_indexes <$> layers_
  | None => ∅
  end.

(** The value of an attribute of an object of the map document. *)
Inductive attr := AText (s : string) | ANumber (q : Q).

(** An object, as far as [setattr] and attribute reads go: its attributes
    by name. *)
Definition object := gmap string attr.

(** [set_attrs(obj, properties)]: [setattr(obj, k, v)] for the items of the
    dictionary, in the order the dictionary gives them. *)
Definition set_attrs (obj : object) (properties : gmap string attr) : object :=
  foldl (fun o kv => <[kv.1 := kv.2]> o) obj (map_to_list properties).

(** [element.name], a text. *)
Definition element_name (elm : object) : option string :=
  match elm !! "name" with
  | Some (AText s) => Some s
  | _ => None
  end.

(** [update_report_elements(element_props)] on [self.elements]: the
    elements whose key is in [element_props] are collected, and each gets
    the properties that [element_props] has for its name.  [None] stands
    for the KeyError of [element_props[element.name]].  The elements are
    distinct objects, one for each key, and the loop writes to the element
    at hand only, so each element is read as it was at the call. *)
Definition update_report_elements (elements : gmap string object)
    (element_props : gmap string (gmap string attr))
  : option (gmap string object) :=
  let mxd_elements :=
    List.filter (fun kv : string * object => bool_decide (is_Some (element_props !! kv.1)))
                (map_to_list elements) in
  foldl (fun acc (kv : string * object) =>
           els ← acc;
           name ← element_name kv.2;
           props ← element_props !! name;
           Some (<[kv.1 := set_attrs kv.2 props]> els))
        (Some elements) mxd_elements.

End MapObjects.

(** ** roaddensity.py: the parameters of the tool by name *)

Module Params.

(** A parameter of the tool, as the geoprocessing framework passes it. *)
Record parameter (V : Type) := MkParameter { name : string; value : V }.
Arguments MkParameter {V} _ _.
Arguments name {V} _.
Arguments value {V} _.

(** [get_param_by_name]: the first parameter of that name, or [None]. *)
Definition get_param_by_name {V} (parameters : list (parameter V)) (name_ : string)
  : option (parameter V) :=
  let param := List.filter (fun i => String.eqb (name i) name_) parameters in
  match param with
  | p :: _ => Some p
  | [] => None
  end.

End Params.

(** ** Notions used by further statements *)

Module Notions.

(** The order of the keys of a frame: text, by [String.compare]. *)
Definition string_lt (a b : string) : Prop := String.compare a b = Lt.

Section Worlds.
Import RoadDensity.
Import Spec.
Context {G : Geometry}.

(** The datasets that [run] writes: the scratch outputs of the spatial
    analysis, the table Results and the feature class result_polygons. *)
Definition run_outputs (self : tool) : list path :=
  let output_gdb := os_path_join (out_folder (tool_parameters self)) "results.gdb" in
  scratch_outputs self ++
  [os_path_join output_gdb "Results"; os_path_join output_gdb "result_polygons"].

(** A world with the datasets of an earlier one at every path outside a
    list. *)
Definition untouched_outside (L : list path) (w w' : world) : Prop :=
  forall q, q ∉ L -> tables w' !! q = tables w !! q.

(** A world with the file geodatabases of an earlier one. *)
Definition same_workspaces (w w' : world) : Prop :=
  geodatabases w' = geodatabases w.


(** A world with another map document. *)
Definition with_session (w : world) (s : map_session) : world :=
  World (tables w) (geodatabases w) (files w) s (trace w).

(** A world with the map document of an earlier one. *)
Definition same_session (w w' : world) : Prop := session w' = session w.


End Worlds.

End Notions.

(** ** More of the example *)

Module Examples.
Import RoadDensity.
Import Cells.

(** The row of watershed B in the summary: it has no road near a stream. *)
Definition ex_row_B : frame_row Q :=
  default (""%string, ∅) (fr_rows ex_frame !! 1%nat).

(** The export of the summary, the join and the map document, stage by
    stage. *)
Definition ex_export : option path * world :=
  export_results_table ex_tool ex_frame ["out"; "results.gdb"] ex_summary.2.

Definition ex_joined : option unit * world :=
  (CopyFeatures_management ["in.gdb"; "watersheds"]
                           ["out"; "results.gdb"; "result_polygons"];;
   JoinField_management ["out"; "results.gdb"; "result_polygons"] "WS_ID"
                        ["out"; "results.gdb"; "Results"] "WS_ID") ex_export.2.

Definition ex_document : option unit * world :=
  generate_pdf_mxd ex_tool ["out"; "results.gdb"; "result_polygons"] ex_frame ex_joined.2.

(** The same inputs with the streams away from the watersheds. *)
Definition ex_far_streams : table :=
  Table [text_field "NAME"] [ Row [("NAME", VText "far")] (Some [40]%Z) ].

Definition ex_world_dry : world :=
  World {[ ["in.gdb"; "watersheds"] := ex_watersheds;
           ["in.gdb"; "streams"] := ex_far_streams;
           ["in.gdb"; "roads"] := ex_roads;
           ["in.gdb"; "proposed"] := ex_proposed ]}
        [] ∅ ex_session [].

(** The tool with a key that the watersheds do not have. *)
Definition ex_tool_without_key : tool :=
  Tool (Config ["scratch.gdb"] "BEST")
       (Parameters ["in.gdb"; "streams"] ["in.gdb"; "watersheds"] "BASIN" "100 Meters"
                   ["in.gdb"; "roads"] ["in.gdb"; "proposed"] ["out"]).


End Examples.

(** * Proofs *)

(** ** MapSession.py *)

Section MapSessionFacts.
Import MapSession.
Local Open Scope Z_scope.

Lemma pretty_N_go_length (k : nat) : forall (x : N) (s : string),
  (10 ^ N.of_nat k <= x < 10 ^ N.of_nat (S k))%N ->
  String.length (pretty_N_go x s) = (S k + String.length s)%nat.
Proof.
  induction k as [|k IH]; intros x s [Hlo Hhi].
  - change (10 ^ N.of_nat 0)%N with 1%N in Hlo.
    change (10 ^ N.of_nat 1)%N with 10%N in Hhi.
    rewrite pretty_N_go_step by lia.
    rewrite (N.div_small x 10) by lia.
    rewrite pretty_N_go_0. reflexivity.
  - rewrite pretty_N_go_step.
    2:{ assert (0 < 10 ^ N.of_nat (S k))%N by (apply N.neq_0_lt_0, N.pow_nonzero; lia). lia. }
    rewrite IH.
    + simpl. lia.
    + rewrite !Nat2N.inj_succ, !N.pow_succ_r' in *.
      split.
      * apply N.div_le_lower_bound; lia.
      * apply N.Div0.div_lt_upper_bound; lia.
Qed.

Lemma py_len_str_digits (z : Z) (n : nat) :
  has_digits z n -> py_len (py_str z) = n.
Proof.
  intros (Hn & [Hz Hhi] & Hlo).
  unfold py_len, py_str, pretty, pretty_Z.
  destruct z as [|p|p]; [| |lia].
  - destruct Hlo as [->|Hlo]; [reflexivity|].
    assert (0 < 10 ^ (Z.of_nat n - 1)) by (apply Z.pow_pos_nonneg; lia). lia.
  - unfold pretty, pretty_positive, pretty, pretty_N.
    rewrite decide_False by discriminate.
    destruct n as [|k]; [lia|].
    rewrite (pretty_N_go_length k); [simpl; lia|].
    assert (Hpow : forall j : nat, Z.of_N (10 ^ N.of_nat j) = 10 ^ Z.of_nat j).
    { intros j. rewrite N2Z.inj_pow, nat_N_Z. reflexivity. }
    split.
    + apply N2Z.inj_le. rewrite Hpow. simpl Z.of_N.
      destruct Hlo as [Hk|Hlo].
      * inversion Hk; subst. simpl. lia.
      * replace (Z.of_nat (S k) - 1) with (Z.of_nat k) in Hlo by lia. exact Hlo.
    + apply N2Z.inj_lt. rewrite Hpow. exact Hhi.
Qed.

Lemma scaleround_lookup (n : nat) : scaleround !! n = r_of_digits n.
Proof.
  do 10 (destruct n as [|n]; [reflexivity|]).
  unfold scaleround. simpl list_to_map.
  repeat (rewrite lookup_insert_ne by lia).
  rewrite lookup_empty. reflexivity.
Qed.

Lemma r_of_digits_pos n r : r_of_digits n = Some r -> 0 < r.
Proof.
  do 10 (destruct n as [|n]; [simpl; intros; simplify_eq; lia|]).
  discriminate.
Qed.

Lemma ceil_mul_ge (x : Q) (r : Z) :
  0 < r -> (x <= inject_Z (py_ceil (x / inject_Z r) * r))%Q.
Proof.
  intros Hr. unfold py_ceil.
  assert (Hr' : (0 < inject_Z r)%Q) by (change 0%Q with (inject_Z 0); rewrite <- Zlt_Qlt; exact Hr).
  rewrite inject_Z_mult.
  assert (Hx : (x == x / inject_Z r * inject_Z r)%Q).
  { field. intros E. rewrite E in Hr'. discriminate. }
  rewrite Hx at 1.
  apply Qmult_le_compat_r; [apply Qle_ceiling | apply Qlt_le_weak, Hr'].
Qed.

Lemma ceil_mul_least (x : Q) (r k : Z) :
  0 < r -> (x <= inject_Z (k * r))%Q -> py_ceil (x / inject_Z r) * r <= k * r.
Proof.
  intros Hr Hx. unfold py_ceil.
  assert (Hr' : (0 < inject_Z r)%Q) by (change 0%Q with (inject_Z 0); rewrite <- Zlt_Qlt; exact Hr).
  apply Z.mul_le_mono_nonneg_r; [lia|].
  rewrite <- (Qceiling_Z k).
  apply Qceiling_resp_le.
  apply Qle_shift_div_r; [exact Hr'|].
  rewrite <- inject_Z_mult. exact Hx.
Qed.

(** C9. For a positive [current_scale] whose integer part is written with
    [n] decimal digits, [get_map_scale] returns, when [n] is at most 9, the
    smallest multiple of [r n] that is not below [current_scale], so never
    less than the input; when [n] is 10 or more the lookup in [scaleround]
    fails ([None], the KeyError). *)
Theorem get_map_scale_spec (current_scale : Q) (n : nat) :
  (0 < current_scale)%Q ->
  has_digits (py_int current_scale) n ->
  ((n <= 9)%nat ->
     exists r m, r_of_digits n = Some r /\
       get_map_scale current_scale = Some m /\
       (r | m) /\
       (current_scale <= inject_Z m)%Q /\
       forall m', (r | m') -> (current_scale <= inject_Z m')%Q -> m <= m') /\
  ((10 <= n)%nat -> get_map_scale current_scale = None).
Proof.
  intros Hpos Hd.
  pose proof (py_len_str_digits _ _ Hd) as Hlen.
  unfold get_map_scale. rewrite Hlen, scaleround_lookup.
  split; intros Hn.
  - destruct (r_of_digits n) as [r|] eqn:Hr.
    2:{ destruct Hd as (H1 & _). do 10 (destruct n as [|n]; [simpl in Hr; try discriminate; lia|]). lia. }
    pose proof (r_of_digits_pos _ _ Hr) as Hrpos.
    exists r, (py_ceil (current_scale / inject_Z r) * r).
    repeat split; try reflexivity.
    + apply Z.divide_factor_r.
    + apply ceil_mul_ge; exact Hrpos.
    + intros m' [k ->] Hm'. apply ceil_mul_least; assumption.
  - do 10 (destruct n as [|n]; [lia|]). reflexivity.
Qed.

Lemma get_map_scale_spec_witness :
  (exists r m, r_of_digits 5 = Some r /\
       get_map_scale (12345 # 1) = Some m /\
       (r | m) /\
       (12345 # 1 <= inject_Z m)%Q /\
       forall m', (r | m') -> (12345 # 1 <= inject_Z m')%Q -> m <= m') /\
  get_map_scale (12345678901 # 1) = None.
Proof.
  split.
  - apply (get_map_scale_spec (12345 # 1) 5); [reflexivity | | lia].
    unfold has_digits.
    split; [lia | split; [split; vm_compute; congruence | right; vm_compute; congruence]].
  - apply (get_map_scale_spec (12345678901 # 1) 11); [reflexivity | | lia].
    unfold has_digits.
    split; [lia | split; [split; vm_compute; congruence | right; vm_compute; congruence]].
Defined.

End MapSessionFacts.

Import RoadDensity Spec.

(** * Properties *)

(** ** The monad of the tool *)

Section MonadFacts.
Context {G : Geometry}.

Lemma M_bind_Some {A B} (c : M A) (k : A -> M B) w b w' :
  (c ≫= k) w = (Some b, w') ->
  exists a w1, c w = (Some a, w1) /\ k a w1 = (Some b, w').
Proof.
  unfold mbind, M_bind, bind. destruct (c w) as [[a|] w1]; [eauto|discriminate].
Qed.

Lemma M_bind_eq {A B} (c : M A) (k : A -> M B) w a w1 :
  c w = (Some a, w1) -> (c ≫= k) w = k a w1.
Proof. unfold mbind, M_bind, bind. intros ->. reflexivity. Qed.

Lemma lift_Some {A} (o : option A) w a w' :
  lift o w = (Some a, w') -> o = Some a /\ w' = w.
Proof. destruct o; simpl; intros H; inversion H; auto. Qed.

Lemma mret_Some {A} (x : A) w a w' :
  (mret x : M A) w = (Some a, w') -> a = x /\ w' = w.
Proof. unfold mret, M_ret, ret. intros H; inversion H; auto. Qed.

(** *** The trace of a computation *)

Lemma emits_bind {A B} (c : M A) (k : A -> M B) l1 l2 :
  emits c l1 -> (forall a, emits (k a) l2) -> emits (c ≫= k) (l1 ++ l2).
Proof.
  intros Hc Hk w. destruct (Hc w) as (la & Hta & Hpa & Hsa).
  unfold mbind, M_bind, bind. destruct (c w) as [[a|] w1]; simpl in *.
  - destruct (Hk a w1) as (lb & Htb & Hpb & Hsb).
    exists (la ++ lb). rewrite Htb, Hta, app_assoc. split; [reflexivity|].
    unfold stages in *. rewrite List.filter_app, Hsa by eauto.
    split.
    + apply prefix_app, Hpb.
    + intros Hs. rewrite Hsb by exact Hs. reflexivity.
  - exists la. split; [exact Hta|]. split.
    + etrans; [exact Hpa|]. apply prefix_app_r. reflexivity.
    + intros [? ?]; discriminate.
Qed.

Lemma emits_silent {A} (c : M A) :
  (forall w, trace (c w).2 = trace w) -> emits c [].
Proof.
  intros H w. exists []. rewrite H, app_nil_r. repeat split; reflexivity.
Qed.

Lemma emits_bind_silent_l {A B} (c : M A) (k : A -> M B) l :
  emits c [] -> (forall a, emits (k a) l) -> emits (c ≫= k) l.
Proof. intros. change l with ([] ++ l). apply emits_bind; assumption. Qed.

Lemma emits_bind_silent_r {A B} (c : M A) (k : A -> M B) l :
  emits c l -> (forall a, emits (k a) []) -> emits (c ≫= k) l.
Proof. intros. rewrite <- (app_nil_r l). apply emits_bind; assumption. Qed.

Lemma emits_enter m : emits (enter m) (if is_stage m then [m] else []).
Proof.
  intros w. exists [m]. simpl. split; [reflexivity|].
  unfold stages. simpl. destruct (is_stage m); repeat split; reflexivity.
Qed.

Lemma emits_mret {A} (x : A) : emits (mret x : M A) [].
Proof. apply emits_silent. reflexivity. Qed.

Lemma emits_raise {A} : emits (raise : M A) [].
Proof. apply emits_silent. reflexivity. Qed.

Lemma emits_lift {A} (o : option A) : emits (lift o) [].
Proof. destruct o; [apply (emits_mret a) | apply emits_raise]. Qed.

Lemma emits_read_table p : emits (read_table p) [].
Proof. apply emits_silent. reflexivity. Qed.

Lemma emits_write_table p t : emits (write_table p t) [].
Proof. apply emits_silent. reflexivity. Qed.

Lemma emits_get_session : emits get_session [].
Proof. apply emits_silent. reflexivity. Qed.

Lemma emits_put_session s : emits (put_session s) [].
Proof. apply emits_silent. reflexivity. Qed.

Lemma emits_write_file p d : emits (write_file p d) [].
Proof. apply emits_silent. reflexivity. Qed.

Lemma emits_if {A} (b : bool) (c1 c2 : M A) l :
  emits c1 l -> emits c2 l -> emits (if b then c1 else c2) l.
Proof. destruct b; auto. Qed.

End MonadFacts.

Create HintDb emits discriminated.
#[export] Hint Resolve emits_mret emits_raise emits_lift emits_read_table
  emits_write_table emits_get_session emits_put_session emits_write_file
  : emits.

(** [silent] proves that a computation built from the platform's calls
    adds no stage. *)
Ltac silent :=
  repeat first
    [ progress intros
    | solve [eauto with emits]
    | apply emits_bind_silent_l
    | apply emits_if
    | match goal with |- emits (match ?x with _ => _ end) _ => destruct x end ].

Section Trace.
Context {G : Geometry}.

Lemma emits_enter_other m : is_stage m = false -> emits (enter m) [].
Proof. intros H. pose proof (emits_enter m) as E. rewrite H in E. exact E. Qed.

Lemma emits_enter_stage {A} m (c : M A) :
  is_stage m = true -> emits c [] -> emits (enter m;; c) [m].
Proof.
  intros H Hc. change [m] with ([m] ++ []).
  apply emits_bind; [|intros _; exact Hc].
  pose proof (emits_enter m) as E. rewrite H in E. exact E.
Qed.

Lemma emits_CopyFeatures a b : emits (CopyFeatures_management a b) [].
Proof. unfold CopyFeatures_management. silent. Qed.

Lemma emits_AddField p fd : emits (AddField_management p fd) [].
Proof. unfold AddField_management. silent. Qed.

Lemma emits_UpdateCursor p n v : emits (UpdateCursor_set p n v) [].
Proof. unfold UpdateCursor_set. silent. Qed.

Lemma emits_InsertCursor p n v : emits (InsertCursor_rows p n v) [].
Proof. unfold InsertCursor_rows. silent. Qed.

Lemma emits_CreateTable p n : emits (CreateTable_management p n) [].
Proof. unfold CreateTable_management. silent. Qed.

Lemma emits_Select t p : emits (SelectLayerByLocation_management t p) [].
Proof. unfold SelectLayerByLocation_management. silent. Qed.

Lemma emits_MakeFeatureLayer p : emits (MakeFeatureLayer_management p) [].
Proof. unfold MakeFeatureLayer_management. silent. Qed.

Lemma emits_Buffer t p d : emits (Buffer_analysis t p d) [].
Proof. unfold Buffer_analysis. silent. Qed.

Lemma emits_Merge a b c : emits (Merge_management a b c) [].
Proof. unfold Merge_management. silent. Qed.

Lemma emits_Intersect a b c d : emits (Intersect_analysis a b c d) [].
Proof. unfold Intersect_analysis. silent. Qed.

Lemma emits_JoinField a b c d : emits (JoinField_management a b c d) [].
Proof. unfold JoinField_management. silent. Qed.

Lemma emits_Exists p : emits (arcpy_Exists p) [].
Proof. apply emits_silent. reflexivity. Qed.

Lemma emits_CreateFileGDB p n : emits (CreateFileGDB_management p n) [].
Proof. apply emits_silent. reflexivity. Qed.

Lemma emits_replaceDataSource a b c d : emits (replaceDataSource a b c d) [].
Proof. unfold replaceDataSource. silent. Qed.

Lemma emits_getExtent a b : emits (getExtent a b) [].
Proof. unfold getExtent. silent. Qed.

Lemma emits_set_extent a b : emits (set_extent a b) [].
Proof. unfold set_extent. silent. Qed.

Lemma emits_get_scale a : emits (get_scale a) [].
Proof. unfold get_scale. silent. Qed.

Lemma emits_set_scale a b : emits (set_scale a b) [].
Proof. unfold set_scale. silent. Qed.

Lemma emits_set_text a b : emits (set_text a b) [].
Proof. unfold set_text. silent. Qed.

Lemma emits_ExportToPDF a b : emits (ExportToPDF a b) [].
Proof. unfold ExportToPDF. silent. Qed.

Lemma emits_saveACopy a : emits (saveACopy a) [].
Proof. unfold saveACopy. silent. Qed.

Lemma emits_for_each {A} (l : list A) (f : A -> M unit) :
  (forall x, emits (f x) []) -> emits (for_each l f) [].
Proof.
  intros Hf. induction l as [|x l IH]; simpl.
  - apply emits_mret.
  - apply emits_bind_silent_l; [apply Hf | intros _; exact IH].
Qed.

End Trace.

#[export] Hint Resolve emits_CopyFeatures emits_AddField emits_UpdateCursor
  emits_InsertCursor emits_CreateTable emits_Select emits_MakeFeatureLayer
  emits_Buffer emits_Merge emits_Intersect emits_JoinField emits_Exists
  emits_CreateFileGDB emits_replaceDataSource emits_getExtent emits_set_extent
  emits_get_scale emits_set_scale emits_set_text emits_ExportToPDF
  emits_saveACopy : emits.

Section TraceOfMethods.
Context {G : Geometry}.
Variable self : tool.

Lemma emits_add_constant_field p n v : emits (add_constant_field p n v) [].
Proof.
  unfold add_constant_field.
  apply emits_bind_silent_l; [apply emits_enter_other; reflexivity|].
  silent.
Qed.

Lemma emits_table_to_dataframe p names : emits (table_to_dataframe p names) [].
Proof.
  unfold table_to_dataframe.
  apply emits_bind_silent_l; [apply emits_enter_other; reflexivity|].
  silent.
Qed.

Lemma emits_create_result_table ws n kd : emits (create_result_table ws n kd) [].
Proof.
  unfold create_result_table.
  apply emits_bind_silent_l; [apply emits_enter_other; reflexivity|intros _].
  apply emits_bind_silent_l; [eauto with emits|intros _].
  apply emits_bind_silent_l; [|silent].
  apply emits_for_each. silent.
Qed.

Lemma emits_get_field_definition p n : emits (get_field_definition p n) [].
Proof.
  unfold get_field_definition.
  apply emits_bind_silent_l; [apply emits_enter_other; reflexivity|].
  silent.
Qed.

Lemma emits_dataframe_to_table df p fields : emits (dataframe_to_table df p fields) [].
Proof.
  unfold dataframe_to_table.
  apply emits_bind_silent_l; [apply emits_enter_other; reflexivity|].
  silent.
Qed.

Lemma emits_simple_report df : emits (simple_report self df) [].
Proof.
  unfold simple_report.
  apply emits_bind_silent_l; [apply emits_enter_other; reflexivity|].
  silent.
Qed.

Hint Resolve emits_add_constant_field emits_table_to_dataframe
  emits_create_result_table emits_get_field_definition
  emits_dataframe_to_table emits_simple_report : emits.

Lemma emits_run_spatial_analysis :
  emits (run_spatial_analysis self) [m_run_spatial_analysis].
Proof.
  unfold run_spatial_analysis.
  apply emits_enter_stage; [reflexivity|]. silent.
Qed.

Lemma emits_run_summary_analysis p :
  emits (run_summary_analysis self p) [m_run_summary_analysis].
Proof.
  unfold run_summary_analysis.
  apply emits_enter_stage; [reflexivity|]. silent.
Qed.

Lemma emits_export_results_table df p :
  emits (export_results_table self df p) [m_export_results_table].
Proof.
  unfold export_results_table.
  apply emits_enter_stage; [reflexivity|]. silent.
Qed.

Lemma emits_generate_pdf_mxd p df :
  emits (generate_pdf_mxd self p df) [m_generate_pdf_mxd].
Proof.
  unfold generate_pdf_mxd.
  apply emits_enter_stage; [reflexivity|].
  destruct (os_path_split p), (os_path_split (in_proposed_roads (tool_parameters self))).
  silent.
Qed.

Lemma emits_run : emits (run self) pipeline.
Proof.
  unfold run.
  apply emits_bind_silent_l; [apply emits_enter_other; reflexivity|intros _].
  apply emits_bind_silent_l; [eauto with emits|intros ex].
  apply emits_bind_silent_l; [destruct (negb ex); eauto with emits|intros _].
  change pipeline with ([m_run_spatial_analysis] ++ [m_run_summary_analysis] ++
    [m_export_results_table] ++ [m_generate_pdf_mxd]).
  apply emits_bind; [apply emits_run_spatial_analysis|intros sr].
  apply emits_bind; [apply emits_run_summary_analysis|intros df].
  apply emits_bind; [apply emits_export_results_table|intros rt].
  apply emits_bind_silent_l; [eauto with emits|intros _].
  apply emits_bind_silent_l; [eauto with emits|intros _].
  apply emits_generate_pdf_mxd.
Qed.

End TraceOfMethods.

(** ** The dataframe library *)

Section Frames.

Lemma eqb_string_true (a b : string) : String.eqb a b = true <-> a = b.
Proof. apply String.eqb_eq. Qed.

Lemma existsb_eqb_elem (c : string) (l : list string) :
  existsb (String.eqb c) l = true <-> c ∈ l.
Proof.
  rewrite existsb_exists, list_elem_of_In. split.
  - intros (x & Hx & E). apply String.eqb_eq in E. subst. exact Hx.
  - intros H. exists c. split; [exact H | apply String.eqb_refl].
Qed.

Lemma existsb_eqb_not_elem (c : string) (l : list string) :
  existsb (String.eqb c) l = false <-> c ∉ l.
Proof.
  rewrite <- existsb_eqb_elem. destruct (existsb _ l); split; congruence.
Qed.

Lemma elem_of_insert_key (x k : string) (l : list string) :
  x ∈ insert_key k l <-> x = k \/ x ∈ l.
Proof.
  induction l as [|h t IH]; simpl.
  - rewrite list_elem_of_singleton. set_solver.
  - destruct (String.compare k h) eqn:E.
    + apply String.compare_eq_iff in E. subst. set_solver.
    + set_solver.
    + rewrite elem_of_cons, IH. set_solver.
Qed.

Lemma elem_of_sorted_unique (x : string) (l : list string) :
  x ∈ sorted_unique l <-> x ∈ l.
Proof.
  unfold sorted_unique. induction l as [|h t IH]; simpl.
  - reflexivity.
  - rewrite elem_of_insert_key, IH. set_solver.
Qed.

(** A map built from the names of a list, each with the value a function
    gives it. *)
Lemma lookup_list_to_map_fun {A} (f : string -> A) (l : list string) (k : string) :
  (list_to_map ((fun c => (c, f c)) <$> l) : gmap string A) !! k
  = if bool_decide (k ∈ l) then Some (f k) else None.
Proof.
  induction l as [|h t IH].
  - rewrite fmap_nil, list_to_map_nil, lookup_empty. reflexivity.
  - rewrite fmap_cons, list_to_map_cons. simpl fst; simpl snd.
    destruct (decide (h = k)) as [->|Hne].
    + rewrite lookup_insert_eq, bool_decide_eq_true_2 by set_solver. reflexivity.
    + rewrite lookup_insert_ne, IH by exact Hne.
      destruct (decide (k ∈ t)).
      * rewrite !bool_decide_eq_true_2 by set_solver. reflexivity.
      * rewrite !bool_decide_eq_false_2 by set_solver. reflexivity.
Qed.

Lemma Qsum_agg (l : list Q) : default 0%Q (agg_sum l) = Qsum l.
Proof. destruct l; reflexivity. Qed.

(** *** Columns of a frame whose rows are given by a function *)

Lemma mapM_fun {A B} (h : A -> option B) (g : A -> B) (l : list A) (s : list B) :
  mapM h l = Some s -> (forall x, x ∈ l -> h x = Some (g x)) -> s = g <$> l.
Proof.
  rewrite mapM_Some. induction 1 as [|x y l s Hxy _ IH]; intros Hg.
  - reflexivity.
  - rewrite fmap_cons. f_equal.
    + rewrite (Hg x) in Hxy by set_solver. congruence.
    + apply IH. intros x' Hx'. apply Hg. set_solver.
Qed.

Lemma mapM_fun_Some {A B} (h : A -> option B) (g : A -> B) (l : list A) :
  (forall x, x ∈ l -> h x = Some (g x)) -> mapM h l = Some (g <$> l).
Proof.
  intros Hg. apply mapM_Some. induction l as [|x l IH]; simpl.
  - constructor.
  - constructor; [apply Hg; set_solver | apply IH; intros; apply Hg; set_solver].
Qed.

Lemma getcol_rows {B} idx cs (base : list B) (f : B -> frame_row Q)
    (g : B -> Q) c s :
  getcol (Frame idx cs (f <$> base)) c = Some s ->
  (forall b, b ∈ base -> (f b).2 !! c = Some (g b)) ->
  s = g <$> base.
Proof.
  unfold getcol. simpl. destruct (existsb _ cs); [|discriminate].
  intros Hs Hg.
  assert (E : mapM (fun b => (f b).2 !! c) base = Some s).
  { apply mapM_Some. apply mapM_Some in Hs.
    apply Forall2_fmap_l in Hs. exact Hs. }
  apply (mapM_fun _ g) in E; assumption.
Qed.

Lemma getcol_column idx cs rows c s :
  getcol (Frame idx cs rows) c = Some s -> c ∈ cs.
Proof.
  unfold getcol. simpl. destruct (existsb _ cs) eqn:E; [|discriminate].
  intros _. apply existsb_eqb_elem, E.
Qed.

Lemma setcol_rows {B} idx cs (base : list B) (f : B -> frame_row Q)
    (g : B -> Q) c df :
  setcol (Frame idx cs (f <$> base)) c (g <$> base) = Some df ->
  c <> idx /\
  exists cs', df = Frame idx cs' ((fun b => ((f b).1, <[c := g b]> (f b).2)) <$> base).
Proof.
  unfold setcol. simpl. destruct (String.eqb c idx) eqn:E; [discriminate|].
  intros H. inversion H; subst; clear H.
  split; [intros ->; rewrite String.eqb_refl in E; discriminate|].
  eexists. f_equal.
  rewrite zip_with_fmap_l, zip_with_fmap_r, zip_with_diag. reflexivity.
Qed.

Lemma setcol_columns (df df' : frame Q) c s :
  setcol df c s = Some df' ->
  c <> fr_index df /\ fr_index df' = fr_index df /\
  forall x, x ∈ fr_columns df' <-> x ∈ fr_columns df \/ x = c.
Proof.
  unfold setcol. destruct (String.eqb c (fr_index df)) eqn:E; [discriminate|].
  intros H. inversion H; subst; clear H. simpl.
  split; [intros Hc; rewrite Hc, String.eqb_refl in E; discriminate|].
  split; [reflexivity|]. intros x.
  destruct (existsb _ (fr_columns df)) eqn:Ec.
  - apply existsb_eqb_elem in Ec. split; [auto|]. intros [?| ->]; assumption.
  - rewrite elem_of_app, list_elem_of_singleton. reflexivity.
Qed.

Lemma getcol_elem (df : frame Q) c s : getcol df c = Some s -> c ∈ fr_columns df.
Proof. destruct df. apply getcol_column. Qed.

Lemma s_add_rows {B} (base : list B) (g h : B -> Q) :
  s_add (g <$> base) (h <$> base) = (fun b => g b + h b)%Q <$> base.
Proof.
  unfold s_add. rewrite zip_with_fmap_l, zip_with_fmap_r, zip_with_diag. reflexivity.
Qed.

Lemma s_sub_rows {B} (base : list B) (g h : B -> Q) :
  s_sub (g <$> base) (h <$> base) = (fun b => g b - h b)%Q <$> base.
Proof.
  unfold s_sub. rewrite zip_with_fmap_l, zip_with_fmap_r, zip_with_diag. reflexivity.
Qed.

Lemma s_div_rows {B} (base : list B) (g h : B -> Q) :
  s_div (g <$> base) (h <$> base) = (fun b => g b / h b)%Q <$> base.
Proof.
  unfold s_div. rewrite zip_with_fmap_l, zip_with_fmap_r, zip_with_diag. reflexivity.
Qed.

Lemma s_div_scalar_rows {B} (base : list B) (g : B -> Q) (x : Q) :
  s_div_scalar (g <$> base) x = (fun b => g b / x)%Q <$> base.
Proof. unfold s_div_scalar. rewrite <- list_fmap_compose. reflexivity. Qed.

Lemma s_abs_rows {B} (base : list B) (g : B -> Q) :
  s_abs (g <$> base) = (fun b => Qabs (g b)) <$> base.
Proof. unfold s_abs. rewrite <- list_fmap_compose. reflexivity. Qed.

(** *** The column assignments *)

Ltac get_column g :=
  match goal with
  | H : getcol _ _ ≫= _ = Some _ |- _ =>
      let s := fresh "s" in
      let Hs := fresh "Hs" in
      apply bind_Some in H as (s & Hs & H);
      apply (getcol_rows _ _ _ _ g) in Hs;
      [ subst s
      | let b := fresh "b" in
        let Hb := fresh "Hb" in
        intros b Hb; simpl;
        repeat (rewrite lookup_insert_ne by (intros ?; discriminate));
        rewrite ?lookup_insert_eq; try reflexivity ]
  end.

Ltac set_column :=
  match goal with
  | H : setcol _ _ _ ≫= _ = Some _ |- _ =>
      let d := fresh "d" in
      let Hd := fresh "Hd" in
      let cs := fresh "cs" in
      let Hne := fresh "Hne" in
      apply bind_Some in H as (d & Hd & H);
      rewrite ?s_div_scalar_rows, ?s_add_rows, ?s_div_rows in Hd;
      rewrite ?s_div_scalar_rows in Hd;
      apply setcol_rows in Hd as (Hne & cs & ->)
  end.

Lemma calculate_columns_rows (newdf df : frame Q) (PRE PROP AREA : string -> Q) :
  calculate_columns newdf = Some df ->
  (forall r, r ∈ fr_rows newdf ->
     r.2 !! "Pre-Development" = Some (PRE r.1) /\
     r.2 !! "Proposed" = Some (PROP r.1) /\
     r.2 !! "SHAPE@AREA" = Some (AREA r.1)) ->
  fr_index df = fr_index newdf /\
  fr_rows df =
    (fun r : frame_row Q =>
       (r.1, computed_cells (PRE r.1) (PROP r.1) (AREA r.1) r.2)) <$> fr_rows newdf.
Proof.
  destruct newdf as [idx cs rows]. simpl. intros H Hrows.
  unfold calculate_columns in H.
  rewrite <- (list_fmap_id rows) in H.
  get_column (fun r : frame_row Q => PRE r.1); [|apply Hrows, Hb].
  get_column (fun r : frame_row Q => PROP r.1); [|apply Hrows, Hb].
  set_column.
  get_column (fun r : frame_row Q => PROP r.1); [|apply Hrows, Hb].
  set_column.
  get_column (fun r : frame_row Q => PRE r.1); [|apply Hrows, Hb].
  set_column.
  get_column (fun r : frame_row Q => (PRE r.1 / 1000)%Q).
  get_column (fun r : frame_row Q => (PROP r.1 / 1000)%Q).
  set_column.
  get_column (fun r : frame_row Q => AREA r.1); [|apply Hrows, Hb].
  set_column.
  get_column (fun r : frame_row Q => (PRE r.1 / 1000 + PROP r.1 / 1000)%Q).
  get_column (fun r : frame_row Q => (AREA r.1 / 1000000)%Q).
  set_column.
  get_column (fun r : frame_row Q => (PRE r.1 / 1000)%Q).
  get_column (fun r : frame_row Q => (AREA r.1 / 1000000)%Q).
  set_column.
  inversion H; subst; clear H. simpl. split; [reflexivity|].
  reflexivity.
Qed.

Ltac column_step :=
  match goal with
  | H : getcol ?d ?c ≫= _ = Some _ |- _ =>
      let s := fresh "s" in
      let Hs := fresh "Hget" in
      apply bind_Some in H as (s & Hs & H); apply getcol_elem in Hs
  | H : setcol ?d ?c _ ≫= _ = Some _ |- _ =>
      let d' := fresh "d" in
      let Hd := fresh "Hset" in
      let Hne := fresh "Hne" in
      let Hi := fresh "Hi" in
      let Hc := fresh "Hc" in
      apply bind_Some in H as (d' & Hd & H);
      apply setcol_columns in Hd as (Hne & Hi & Hc)
  end.

Lemma calculate_columns_needs (newdf df : frame Q) :
  calculate_columns newdf = Some df ->
  "Pre-Development" ∈ fr_columns newdf /\
  "Proposed" ∈ fr_columns newdf /\
  "SHAPE@AREA" ∈ fr_columns newdf /\
  fr_index newdf ∉ ["proposed_road_length"; "existing_road_length";
                    "total_road_length"; "watershed_area";
                    "future_road_density"; "original_road_density"].
Proof.
  unfold calculate_columns. intros H. repeat column_step.
  rewrite Hi4, Hi3, Hi2, Hi1, Hi0, Hi in Hne5.
  rewrite Hi3, Hi2, Hi1, Hi0, Hi in Hne4.
  rewrite Hi2, Hi1, Hi0, Hi in Hne3.
  rewrite Hi1, Hi0, Hi in Hne2.
  rewrite Hi0, Hi in Hne1.
  rewrite Hi in Hne0.
  split; [assumption|]. split; [assumption|]. split.
  - rewrite Hc2, Hc1, Hc0, Hc in Hget5.
    destruct Hget5 as [[[[E|E]|E]|E]|E]; try discriminate E. exact E.
  - rewrite !elem_of_cons, elem_of_nil. intros E.
    repeat destruct E as [E|E]; try (symmetry in E; contradiction); exact E.
Qed.

End Frames.

Section Merge.

Lemma suffixed_id other suffix c : c ∉ other -> suffixed other suffix c = c.
Proof.
  intros H. unfold suffixed. apply existsb_eqb_not_elem in H. rewrite H. reflexivity.
Qed.

Lemma row_of_fun {A} idx cs (F : string -> gmap string A) (keys : list string) k :
  row_of (Frame idx cs ((fun k => (k, F k)) <$> keys)) k
  = if bool_decide (k ∈ keys) then Some (F k) else None.
Proof. unfold row_of. simpl. apply lookup_list_to_map_fun. Qed.

Lemma row_of_fillna_fun x idx cs (F : string -> gmap string (option Q))
    (keys : list string) k :
  row_of (fillna x (Frame idx cs ((fun k => (k, F k)) <$> keys))) k
  = if bool_decide (k ∈ keys) then Some (default x <$> F k) else None.
Proof.
  unfold row_of, fillna. simpl. rewrite <- list_fmap_compose.
  apply (lookup_list_to_map_fun (fun k => default x <$> F k)).
Qed.

(** The merge of a frame with the one column [a] and a frame without
    a column [a]: no suffix is needed. *)
Lemma merge_outer_single (a : string) (L R : frame Q) :
  fr_columns L = [a] -> a ∉ fr_columns R ->
  merge_outer L R =
    Frame (fr_index L) (a :: fr_columns R)
      ((fun k => (k, <[a := row_of L k ≫= (fun cells => cells !! a)]>
                       (list_to_map ((fun c => (c, row_of R k ≫= (fun cells => cells !! c)))
                                       <$> fr_columns R))))
         <$> sorted_unique ((fst <$> fr_rows L) ++ (fst <$> fr_rows R))).
Proof.
  intros HL Ha. unfold merge_outer, merged_cells. rewrite HL.
  assert (Hid : forall c, c ∈ fr_columns R -> suffixed [a] "_y" c = c).
  { intros c Hc. apply suffixed_id. intros E%list_elem_of_singleton. subst. auto. }
  f_equal.
  - simpl. rewrite (suffixed_id _ _ a Ha). f_equal.
    rewrite <- (list_fmap_id (fr_columns R)) at 2.
    apply list_fmap_ext. intros i c Hc. apply Hid. eapply list_elem_of_lookup_2, Hc.
  - apply list_fmap_ext. intros i k _. f_equal.
    simpl. rewrite (suffixed_id _ _ a Ha). f_equal. f_equal.
    apply list_fmap_ext. intros j c Hc. f_equal.
    apply Hid. eapply list_elem_of_lookup_2, Hc.
Qed.

Lemma merge_outer_columns_nil (L R : frame Q) :
  fr_columns L = [] -> fr_columns (merge_outer L R) = fr_columns R.
Proof.
  intros HL. unfold merge_outer. simpl. rewrite HL. simpl.
  rewrite <- (list_fmap_id (fr_columns R)) at 2.
  apply list_fmap_ext. intros i c _. reflexivity.
Qed.

Lemma merge_outer_area_column (L R : frame Q) :
  fr_columns L = ["SHAPE@AREA"] ->
  "SHAPE@AREA" ∈ fr_columns (merge_outer L R) ->
  "SHAPE@AREA" ∉ fr_columns R.
Proof.
  intros HL Hin Hne. unfold merge_outer in Hin. simpl in Hin. rewrite HL in Hin.
  simpl in Hin. apply elem_of_cons in Hin as [E|Hin].
  - unfold suffixed in E. apply existsb_eqb_elem in Hne. rewrite Hne in E.
    discriminate E.
  - apply list_elem_of_fmap in Hin as (c & E & _).
    unfold suffixed in E. simpl in E.
    destruct (String.eqb c "SHAPE@AREA") eqn:Ec; simpl in E.
    + apply String.eqb_eq in Ec. subst c. discriminate E.
    + subst c. discriminate Ec.
Qed.

Lemma group_values_nil recs k t :
  k ∉ sorted_unique ((fun r : string * string * Q => r.1.1) <$> recs) ->
  group_values recs k t = [].
Proof.
  rewrite elem_of_sorted_unique. unfold group_values.
  induction recs as [|r recs IH]; intros Hk; [reflexivity|].
  simpl. destruct (String.eqb r.1.1 k) eqn:E.
  - apply String.eqb_eq in E. exfalso. apply Hk. rewrite fmap_cons. subst. set_solver.
  - simpl. apply IH. intros H. apply Hk. rewrite fmap_cons. set_solver.
Qed.

Lemma key_values_nil (recs : list (frame_row Q)) k c :
  k ∉ sorted_unique (fst <$> recs) -> key_values recs k c = [].
Proof.
  rewrite elem_of_sorted_unique. unfold key_values.
  induction recs as [|r recs IH]; intros Hk; [reflexivity|].
  simpl. destruct (String.eqb r.1 k) eqn:E.
  - apply String.eqb_eq in E. exfalso. apply Hk. rewrite fmap_cons. subst. set_solver.
  - apply IH. intros H. apply Hk. rewrite fmap_cons. set_solver.
Qed.

Lemma reset_index_Some {A} (df df' : frame A) :
  reset_index df = Some df' -> df' = df /\ fr_index df ∉ fr_columns df.
Proof.
  unfold reset_index. destruct (existsb _ _) eqn:E; [discriminate|].
  intros H. inversion H; subst. split; [reflexivity|]. apply existsb_eqb_not_elem, E.
Qed.

Lemma area_columns key :
  List.filter (fun c => negb (String.eqb c key)) [key; "SHAPE@AREA"]
  = if String.eqb "SHAPE@AREA" key then [] else ["SHAPE@AREA"].
Proof.
  cbn [List.filter]. rewrite String.eqb_refl. cbn [negb].
  destruct (String.eqb "SHAPE@AREA" key); reflexivity.
Qed.

(** The rows of the frame of [run_summary_analysis], from the records of
    the two cursors. *)
Lemma summary_rows key v1 v2 pv R wa L df :
  pivot_table (RawFrame [key; "ROAD_TYPE"; "SHAPE@LENGTH"] v1)
              key "ROAD_TYPE" "SHAPE@LENGTH" = Some pv ->
  reset_index (fillna 0 pv) = Some R ->
  groupby_sum (RawFrame [key; "SHAPE@AREA"] v2) key = Some wa ->
  reset_index wa = Some L ->
  calculate_columns (fillna 0 (merge_outer L R)) = Some df ->
  exists recs recsL,
    (mapM (pivot_record (RawFrame [key; "ROAD_TYPE"; "SHAPE@LENGTH"] v1)
                       key "ROAD_TYPE" "SHAPE@LENGTH") v1 = Some recs) /\
    (mapM (group_record (RawFrame [key; "SHAPE@AREA"] v2) key ["SHAPE@AREA"]) v2
      = Some recsL) /\
    key <> "SHAPE@AREA" /\
    recs <> [] /\
    (key ∉ ["proposed_road_length"; "existing_road_length"; "total_road_length";
            "watershed_area"; "future_road_density"; "original_road_density"]) /\
    fr_index df = key /\
    forall k cells, (k, cells) ∈ fr_rows df ->
      exists cells0,
        cells = computed_cells (Qsum (group_values recs k "Pre-Development"))
                               (Qsum (group_values recs k "Proposed"))
                               (Qsum (key_values recsL k "SHAPE@AREA")) cells0.
Proof.
  intros Hpv HR Hwa HL Hdf.
  unfold pivot_table in Hpv. apply bind_Some in Hpv as (recs & Hrecs & Hpv).
  simpl in Hrecs. inversion Hpv; subst pv; clear Hpv.
  apply reset_index_Some in HR as (-> & HkR). simpl in HkR.
  unfold groupby_sum in Hwa. cbn [raw_columns raw_values] in Hwa.
  rewrite area_columns in Hwa.
  destruct (String.eqb "SHAPE@AREA" key) eqn:Ekey.
  { (* the key column cannot be named like the area column *)
    apply String.eqb_eq in Ekey. subst key. exfalso. apply HkR.
    apply bind_Some in Hwa as (recsL & HrecsL & Hwa).
    inversion Hwa; subst wa; clear Hwa.
    apply reset_index_Some in HL as (-> & _).
    pose proof (calculate_columns_needs _ _ Hdf) as (_ & _ & Harea & _).
    change (fr_columns (fillna 0 ?d)) with (fr_columns d) in Harea.
    rewrite merge_outer_columns_nil in Harea by reflexivity. exact Harea. }
  cbv iota in Hwa.
  apply bind_Some in Hwa as (recsL & HrecsL & Hwa).
  inversion Hwa; subst wa; clear Hwa.
  apply reset_index_Some in HL as (-> & _).
  pose proof (calculate_columns_needs _ _ Hdf) as (Hpre & Hprop & Harea & Hidx).
  change (fr_columns (fillna 0 ?d)) with (fr_columns d) in Hpre, Hprop, Harea.
  cbn [fr_index fillna merge_outer] in Hidx.
  set (colsR := sorted_unique ((fun r : string * string * Q => r.1.2) <$> recs)) in *.
  set (keysR := sorted_unique ((fun r : string * string * Q => r.1.1) <$> recs)) in *.
  assert (Hkey : key <> "SHAPE@AREA")
    by (intros ->; rewrite String.eqb_refl in Ekey; discriminate).
  match type of Hdf with
  | calculate_columns (fillna 0 (merge_outer ?l ?r)) = _ => set (L := l) in *; set (R := r) in *
  end.
  assert (HaR : "SHAPE@AREA" ∉ fr_columns R)
    by (apply (merge_outer_area_column L R); [reflexivity | exact Harea]).
  rewrite (merge_outer_single "SHAPE@AREA" L R) in Hdf, Hpre, Hprop by (reflexivity || exact HaR).
  simpl fr_columns in Hpre, Hprop, HaR.
  apply elem_of_cons in Hpre as [Hpre|Hpre]; [discriminate Hpre|].
  apply elem_of_cons in Hprop as [Hprop|Hprop]; [discriminate Hprop|].
  exists recs, recsL. split; [exact Hrecs|]. split; [exact HrecsL|].
  split; [exact Hkey|]. split.
  { intros ->. subst colsR. simpl in Hpre. inversion Hpre. }
  split; [exact Hidx|].
  (* the cells of the merged frame *)
  assert (HcellR : forall k c, c ∈ colsR ->
            default 0%Q (row_of R k ≫= (fun cells => cells !! c))
            = Qsum (group_values recs k c)).
  { intros k c Hc. subst R.
    rewrite row_of_fillna_fun.
    destruct (decide (k ∈ keysR)) as [Hk|Hk].
    - rewrite bool_decide_eq_true_2 by exact Hk. simpl.
      rewrite lookup_fmap, lookup_list_to_map_fun, bool_decide_eq_true_2 by exact Hc.
      simpl. apply Qsum_agg.
    - rewrite bool_decide_eq_false_2 by exact Hk. simpl.
      rewrite group_values_nil by exact Hk. reflexivity. }
  assert (HcellL : forall k,
            default 0%Q (row_of L k ≫= (fun cells => cells !! "SHAPE@AREA"))
            = Qsum (key_values recsL k "SHAPE@AREA")).
  { intros k. subst L.
    rewrite (row_of_fun key _
               (fun k => <["SHAPE@AREA" := Qsum (key_values recsL k "SHAPE@AREA")]> ∅)).
    destruct (decide (k ∈ sorted_unique (fst <$> recsL))) as [Hk|Hk].
    - rewrite bool_decide_eq_true_2 by exact Hk. simpl.
      rewrite lookup_insert_eq. reflexivity.
    - rewrite bool_decide_eq_false_2 by exact Hk. simpl.
      rewrite key_values_nil by exact Hk. reflexivity. }
  apply (calculate_columns_rows _ _
           (fun k => Qsum (group_values recs k "Pre-Development"))
           (fun k => Qsum (group_values recs k "Proposed"))
           (fun k => Qsum (key_values recsL k "SHAPE@AREA"))) in Hdf.
  - destruct Hdf as (Hi & Hrows). split; [exact Hi|].
    intros k cells Hin. rewrite Hrows in Hin.
    apply list_elem_of_fmap in Hin as ([k' c0] & E & _). simpl in E.
    inversion E; subst. eexists. reflexivity.
  - intros r Hr. unfold fillna in Hr. simpl fr_rows in Hr.
    rewrite <- list_fmap_compose in Hr.
    apply list_elem_of_fmap in Hr as (k & -> & _). simpl.
    rewrite !lookup_fmap.
    rewrite lookup_insert_eq.
    rewrite !lookup_insert_ne by (intros ?; discriminate).
    rewrite !lookup_list_to_map_fun.
    rewrite !bool_decide_eq_true_2 by assumption. simpl.
    rewrite !HcellR by assumption. rewrite HcellL. auto.
Qed.

End Merge.

(** ** The cursors and the records of the frames *)

Section Cursors.
Context {G : Geometry}.

Lemma SearchCursor_Some (t : table) names values :
  SearchCursor t names = Some values ->
  Forall2 (fun r vs => mapM (cursor_cell r) names = Some vs) (tbl_rows t) values.
Proof.
  unfold SearchCursor. destruct (forallb _ names); [|discriminate].
  apply mapM_Some.
Qed.

Lemma cursor_cell_field (r : row) name :
  is_token name = false -> cursor_cell r name = Some (field_value name r).
Proof.
  unfold is_token, cursor_cell. intros H. apply orb_false_iff in H as [H1 H2].
  rewrite H1, H2. reflexivity.
Qed.

Lemma raw_cell_here c cs v0 (x : value) xs :
  raw_cell (RawFrame (c :: cs) v0) c (x :: xs) = Some x.
Proof.
  unfold raw_cell. cbn [raw_columns list_find].
  rewrite decide_True by reflexivity. reflexivity.
Qed.

Lemma raw_cell_next c c' cs v0 (x : value) xs :
  c' <> c ->
  raw_cell (RawFrame (c' :: cs) v0) c (x :: xs) = raw_cell (RawFrame cs v0) c xs.
Proof.
  intros Hne. unfold raw_cell. cbn [raw_columns list_find].
  rewrite decide_False by exact Hne.
  destruct (list_find _ cs) as [[i y]|]; reflexivity.
Qed.

(** The record the pivot reads from the tuple of a feature. *)
Lemma pivot_record_row (r : row) key v1 vs k t v :
  is_token key = false ->
  mapM (cursor_cell r) [key; "ROAD_TYPE"; "SHAPE@LENGTH"] = Some vs ->
  pivot_record (RawFrame [key; "ROAD_TYPE"; "SHAPE@LENGTH"] v1)
               key "ROAD_TYPE" "SHAPE@LENGTH" vs = Some (k, t, v) ->
  field_value key r = VText k /\
  field_value "ROAD_TYPE" r = VText t /\
  exists g, shape r = Some g /\ v = geom_length g.
Proof.
  intros Hkey Hvs Hrec.
  assert (Hne : key <> "SHAPE@LENGTH").
  { intros ->. discriminate Hkey. }
  apply mapM_Some in Hvs.
  inversion Hvs as [|? c1 ? vs1 H1 Hvs1]; subst; clear Hvs.
  inversion Hvs1 as [|? c2 ? vs2 H2 Hvs2]; subst; clear Hvs1.
  inversion Hvs2 as [|? c3 ? vs3 H3 Hvs3]; subst; clear Hvs2.
  inversion Hvs3; subst; clear Hvs3.
  rewrite cursor_cell_field in H1 by exact Hkey.
  rewrite cursor_cell_field in H2 by reflexivity.
  unfold cursor_cell in H3. simpl in H3.
  inversion H1; subst c1; clear H1. inversion H2; subst c2; clear H2.
  unfold pivot_record in Hrec.
  rewrite raw_cell_here in Hrec.
  rewrite (raw_cell_next "SHAPE@LENGTH"), (raw_cell_next "SHAPE@LENGTH"), raw_cell_here
    in Hrec by (exact Hne || discriminate).
  apply bind_Some in Hrec as (k' & Hk & Hrec).
  apply bind_Some in Hrec as (t' & Ht & Hrec).
  apply bind_Some in Hrec as (v' & Hv & Hrec).
  inversion Hrec; subst k' t' v'; clear Hrec.
  simpl in Hk.
  destruct (field_value key r) as [k'| |] eqn:Ek; try discriminate Hk.
  inversion Hk; subst k'; clear Hk.
  destruct (shape r) as [g|]; simpl in H3; inversion H3; subst c3.
  simpl in Hv. inversion Hv; subst v.
  split; [reflexivity|]. split; [|eauto].
  destruct (decide (key = "ROAD_TYPE")) as [->|Hrt].
  - rewrite raw_cell_here in Ht. simpl in Ht. inversion Ht. subst. exact Ek.
  - rewrite raw_cell_next, raw_cell_here in Ht by exact Hrt. simpl in Ht.
    destruct (field_value "ROAD_TYPE" r); inversion Ht. reflexivity.
Qed.

(** The record [groupby] reads from the tuple of a watershed. *)
Lemma group_record_row (r : row) key v2 vs k cells :
  is_token key = false ->
  mapM (cursor_cell r) [key; "SHAPE@AREA"] = Some vs ->
  group_record (RawFrame [key; "SHAPE@AREA"] v2) key ["SHAPE@AREA"] vs
    = Some (k, cells) ->
  field_value key r = VText k /\
  exists g, shape r = Some g /\ cells !! "SHAPE@AREA" = Some (geom_area g).
Proof.
  intros Hkey Hvs Hrec.
  assert (Hne : key <> "SHAPE@AREA").
  { intros ->. discriminate Hkey. }
  apply mapM_Some in Hvs.
  inversion Hvs as [|? c1 ? vs1 H1 Hvs1]; subst; clear Hvs.
  inversion Hvs1 as [|? c2 ? vs2 H2 Hvs2]; subst; clear Hvs1.
  inversion Hvs2; subst; clear Hvs2.
  rewrite cursor_cell_field in H1 by exact Hkey.
  unfold cursor_cell in H2. simpl in H2.
  inversion H1; subst c1; clear H1.
  unfold group_record in Hrec.
  rewrite raw_cell_here in Hrec.
  apply bind_Some in Hrec as (k' & Hk & Hrec).
  apply bind_Some in Hrec as (ws & Hws & Hrec).
  inversion Hrec; subst k' cells; clear Hrec.
  simpl in Hk.
  destruct (field_value key r) as [k'| |] eqn:Ek; try discriminate Hk.
  inversion Hk; subst k'; clear Hk.
  split; [reflexivity|].
  apply mapM_Some in Hws.
  inversion Hws as [|? w ? ws1 Hw Hws1]; subst; clear Hws.
  inversion Hws1; subst; clear Hws1.
  rewrite raw_cell_next, raw_cell_here in Hw by exact Hne.
  destruct (shape r) as [g|]; simpl in H2; inversion H2; subst c2.
  simpl in Hw. inversion Hw; subst w.
  exists g. split; [reflexivity|]. simpl. apply lookup_insert_eq.
Qed.

Lemma group_values_rows (rows : list row) key v1 values recs k t :
  is_token key = false ->
  Forall2 (fun r vs => mapM (cursor_cell r) [key; "ROAD_TYPE"; "SHAPE@LENGTH"] = Some vs)
          rows values ->
  mapM (pivot_record (RawFrame [key; "ROAD_TYPE"; "SHAPE@LENGTH"] v1)
                     key "ROAD_TYPE" "SHAPE@LENGTH") values = Some recs ->
  group_values recs k t
  = geom_length <$>
      shapes (List.filter
                (fun r => value_eqb (field_value key r) (VText k) &&
                          value_eqb (field_value "ROAD_TYPE" r) (VText t)) rows).
Proof.
  intros Hkey Hrows Hrecs. apply mapM_Some in Hrecs.
  revert recs Hrecs.
  induction Hrows as [|r vs rows values Hr _ IH]; intros recs Hrecs.
  - inversion Hrecs; subst. reflexivity.
  - inversion Hrecs as [|? [[k' t'] v] ? recs' Hrec Hrecs']; subst; clear Hrecs.
    destruct (pivot_record_row r key v1 vs k' t' v Hkey Hr Hrec)
      as (Ek & Et & g & Hg & ->).
    specialize (IH _ Hrecs').
    unfold group_values in *. cbn [List.filter]. rewrite Ek, Et. simpl.
    destruct (String.eqb k' k && String.eqb t' t).
    + rewrite fmap_cons. unfold shapes. cbn [omap list_omap]. rewrite Hg.
      rewrite fmap_cons. f_equal. exact IH.
    + exact IH.
Qed.

Lemma key_values_rows (rows : list row) key v2 values recs k :
  is_token key = false ->
  Forall2 (fun r vs => mapM (cursor_cell r) [key; "SHAPE@AREA"] = Some vs) rows values ->
  mapM (group_record (RawFrame [key; "SHAPE@AREA"] v2) key ["SHAPE@AREA"]) values
    = Some recs ->
  key_values recs k "SHAPE@AREA"
  = geom_area <$>
      shapes (List.filter (fun r => value_eqb (field_value key r) (VText k)) rows).
Proof.
  intros Hkey Hrows Hrecs. apply mapM_Some in Hrecs.
  revert recs Hrecs.
  induction Hrows as [|r vs rows values Hr _ IH]; intros recs Hrecs.
  - inversion Hrecs; subst. reflexivity.
  - inversion Hrecs as [|? [k' cells] ? recs' Hrec Hrecs']; subst; clear Hrecs.
    destruct (group_record_row r key v2 vs k' cells Hkey Hr Hrec)
      as (Ek & g & Hg & Hc).
    specialize (IH _ Hrecs').
    unfold key_values in *. cbn [List.filter omap list_omap]. rewrite Ek. simpl.
    destruct (String.eqb k' k).
    + rewrite Hc. unfold shapes. cbn [omap list_omap]. rewrite Hg.
      rewrite fmap_cons. f_equal. exact IH.
    + exact IH.
Qed.

(** A key column named like the length token has no text to give. *)
Lemma pivot_length_key (rows : list row) v1 values recs :
  Forall2 (fun r vs => mapM (cursor_cell r)
                         ["SHAPE@LENGTH"; "ROAD_TYPE"; "SHAPE@LENGTH"] = Some vs)
          rows values ->
  mapM (pivot_record (RawFrame ["SHAPE@LENGTH"; "ROAD_TYPE"; "SHAPE@LENGTH"] v1)
                     "SHAPE@LENGTH" "ROAD_TYPE" "SHAPE@LENGTH") values = Some recs ->
  recs = [].
Proof.
  intros Hrows Hrecs. apply mapM_Some in Hrecs.
  destruct Hrows as [|r vs rows values Hr _].
  - inversion Hrecs. reflexivity.
  - exfalso. inversion Hrecs as [|? rec ? recs' Hrec _]; subst.
    apply mapM_Some in Hr.
    inversion Hr as [|? c1 ? vs1 H1 _]; subst.
    unfold pivot_record in Hrec. rewrite raw_cell_here in Hrec.
    unfold cursor_cell in H1. simpl in H1.
    destruct (shape r); simpl in H1; inversion H1; subst c1. discriminate Hrec.
Qed.

End Cursors.

(** ** The summary analysis *)

(** One step of a computation that returned. *)
Ltac mstep :=
  match goal with
  | H : (_ ≫= _) _ = (Some _, _) |- _ =>
      let a := fresh "a" in
      let w := fresh "w" in
      let Ha := fresh "Hstep" in
      apply M_bind_Some in H as (a & w & Ha & H)
  end.

Ltac mstep_as a w Ha :=
  match goal with
  | H : (_ ≫= _) _ = (Some _, _) |- _ => apply M_bind_Some in H as (a & w & Ha & H)
  end.

Section Summary.
Context {G : Geometry}.
Variable self : tool.

Lemma same_data_refl w : same_data w w.
Proof. repeat split. Qed.

Lemma same_data_trans w1 w2 w3 : same_data w1 w2 -> same_data w2 w3 -> same_data w1 w3.
Proof.
  intros (?&?&?&?) (?&?&?&?). repeat split; etrans; eassumption.
Qed.

Lemma enter_Some m w a w' : enter m w = (Some a, w') -> same_data w w'.
Proof. intros H. inversion H; subst. repeat split. Qed.

Lemma table_to_dataframe_Some p n l w df w' :
  table_to_dataframe p (Some (n :: l)) w = (Some df, w') ->
  same_data w w' /\
  exists t values, tables w !! p = Some t /\
    SearchCursor t (n :: l) = Some values /\ df = RawFrame (n :: l) values.
Proof.
  unfold table_to_dataframe. intros H.
  mstep. apply enter_Some in Hstep as Hs.
  mstep. unfold read_table in Hstep0. inversion Hstep0; subst; clear Hstep0.
  mstep. apply lift_Some in Hstep0 as (Hv & ->).
  apply mret_Some in H as (-> & ->).
  split; [exact Hs|].
  destruct Hs as (Ht & _). rewrite Ht in H1.
  exists a0, a1. auto.
Qed.

Lemma run_summary_analysis_rows sr w df w' T W :
  run_summary_analysis self sr w = (Some df, w') ->
  tables w !! sr = Some T ->
  tables w !! in_watershed (tool_parameters self) = Some W ->
  let key := in_watershed_id (tool_parameters self) in
  same_data w w' /\
  is_token key = false /\
  (key ∉ ["proposed_road_length"; "existing_road_length"; "total_road_length";
          "watershed_area"; "future_road_density"; "original_road_density"]) /\
  fr_index df = key /\
  forall k cells, (k, cells) ∈ fr_rows df ->
    exists cells0,
      cells = computed_cells (road_length T key "Pre-Development" k)
                             (road_length T key "Proposed" k)
                             (watershed_area W key k) cells0.
Proof.
  intros H HT HW key. unfold run_summary_analysis in H. fold key in H.
  clearbody key.
  mstep. apply enter_Some in Hstep as Hs0.
  mstep. apply table_to_dataframe_Some in Hstep0 as (Hs1 & T' & v1 & HT' & Hv1 & ->).
  mstep. apply lift_Some in Hstep0 as (Hpv & ->).
  apply fmap_Some in Hpv as (pv & Hpv & ->).
  mstep. apply lift_Some in Hstep0 as (HR & ->).
  mstep. apply table_to_dataframe_Some in Hstep0 as (Hs2 & W' & v2 & HW' & Hv2 & ->).
  mstep. apply lift_Some in Hstep0 as (Hwa & ->).
  mstep. apply lift_Some in Hstep0 as (HL & ->).
  apply lift_Some in H as (Hdf & ->).
  match goal with |- same_data w ?wf /\ _ =>
    assert (Hs : same_data w wf) by (eauto using same_data_trans) end.
  destruct Hs0 as (Ht0 & _). destruct Hs1 as (Ht1 & _).
  rewrite Ht0, HT in HT'. inversion HT'; subst T'; clear HT'.
  rewrite Ht1, Ht0, HW in HW'. inversion HW'; subst W'; clear HW'.
  destruct (summary_rows _ _ _ _ _ _ _ _ Hpv HR Hwa HL Hdf)
    as (recs & recsL & Hrecs & HrecsL & Hkey & Hne & Hidx & Hi & Hrows).
  apply SearchCursor_Some in Hv1, Hv2.
  assert (Htok : is_token key = false).
  { unfold is_token. apply orb_false_iff. split.
    - destruct (String.eqb key "SHAPE@LENGTH") eqn:E; [|reflexivity].
      apply String.eqb_eq in E. exfalso. apply Hne.
      revert Hv1 Hrecs. rewrite E. apply pivot_length_key.
    - destruct (String.eqb key "SHAPE@AREA") eqn:E; [|reflexivity].
      apply String.eqb_eq in E. contradiction. }
  split; [exact Hs|]. split; [exact Htok|]. split; [exact Hidx|]. split; [exact Hi|].
  intros k cells Hin. destruct (Hrows k cells Hin) as (cells0 & ->).
  exists cells0. unfold road_length, watershed_area.
  rewrite <- !(group_values_rows _ key v1 v1 recs) by assumption.
  rewrite <- (key_values_rows _ key v2 v2 recsL) by assumption.
  reflexivity.
Qed.

(** A summary that returned has read its two tables. *)
Lemma run_summary_analysis_reads sr w df w' :
  run_summary_analysis self sr w = (Some df, w') ->
  exists T W,
    tables w !! sr = Some T /\
    tables w !! in_watershed (tool_parameters self) = Some W.
Proof.
  intros H. unfold run_summary_analysis in H.
  mstep_as a0 w0 H0. apply enter_Some in H0 as (Ht0 & _).
  mstep_as a1 w1 H1. apply table_to_dataframe_Some in H1 as ((Ht1 & _) & T & v1 & HT & _).
  mstep_as a2 w2 H2. mstep_as a3 w3 H3.
  mstep_as a4 w4 H4. apply table_to_dataframe_Some in H4 as (_ & W & v2 & HW & _).
  apply lift_Some in H2 as (_ & ->). apply lift_Some in H3 as (_ & ->).
  exists T, W. rewrite <- Ht0. split; [exact HT|]. rewrite <- Ht1. exact HW.
Qed.

Lemma run_summary_analysis_key sr w df w' :
  run_summary_analysis self sr w = (Some df, w') ->
  (in_watershed_id (tool_parameters self) ∉ result_field_names) /\
  fr_index df = in_watershed_id (tool_parameters self).
Proof.
  intros H. destruct (run_summary_analysis_reads _ _ _ _ H) as (T & W & HT & HW).
  destruct (run_summary_analysis_rows _ _ _ _ _ _ H HT HW) as (_ & _ & Hk & Hi & _).
  split; [|exact Hi]. intros Hin. apply Hk.
  unfold result_field_names in Hin. set_solver.
Qed.

End Summary.

(** ** The densities *)

Section Densities.
Context {G : Geometry}.
Variable self : tool.

Lemma computed_cells_lookup pre prop area cells0 :
  let cells := computed_cells pre prop area cells0 in
  cells !! "watershed_area" = Some (area / 1000000)%Q /\
  cells !! "existing_road_length" = Some (pre / 1000)%Q /\
  cells !! "proposed_road_length" = Some (prop / 1000)%Q /\
  cells !! "total_road_length" = Some (pre / 1000 + prop / 1000)%Q /\
  cells !! "original_road_density" = Some (pre / 1000 / (area / 1000000))%Q /\
  cells !! "future_road_density"
    = Some ((pre / 1000 + prop / 1000) / (area / 1000000))%Q.
Proof.
  unfold computed_cells. simpl.
  repeat split;
    repeat (rewrite lookup_insert_ne by (intros ?; discriminate));
    apply lookup_insert_eq.
Qed.

(** C1. Every row of the frame of [run_summary_analysis] with a positive
    [watershed_area] has, as [original_road_density], the pre-development
    road length of its watershed in the spatial result, in kilometers,
    divided by the area of the watershed, in square kilometers, and as
    [future_road_density] the sum of the pre-development and proposed
    lengths, in kilometers, divided by that area. *)
Theorem summary_densities sr w df w' T W k cells area :
  run_summary_analysis self sr w = (Some df, w') ->
  tables w !! sr = Some T ->
  tables w !! in_watershed (tool_parameters self) = Some W ->
  (k, cells) ∈ fr_rows df ->
  cells !! "watershed_area" = Some area ->
  (0 < area)%Q ->
  let key := in_watershed_id (tool_parameters self) in
  area = (watershed_area W key k / 1000000)%Q /\
  cells !! "original_road_density"
    = Some (road_length T key "Pre-Development" k / 1000 / area)%Q /\
  cells !! "future_road_density"
    = Some ((road_length T key "Pre-Development" k / 1000 +
             road_length T key "Proposed" k / 1000) / area)%Q.
Proof.
  intros Hrun HT HW Hin Harea _ key.
  destruct (run_summary_analysis_rows self _ _ _ _ _ _ Hrun HT HW)
    as (_ & _ & _ & _ & Hrows).
  destruct (Hrows k cells Hin) as (cells0 & ->).
  destruct (computed_cells_lookup
              (road_length T key "Pre-Development" k)
              (road_length T key "Proposed" k)
              (watershed_area W key k) cells0)
    as (Ha & _ & _ & _ & Ho & Hf).
  fold key in Harea. rewrite Ha in Harea. inversion Harea; subst area.
  auto.
Qed.

(** C7. In every row with a positive [watershed_area] and non-negative
    road lengths, [future_road_density] is at least
    [original_road_density]. *)
Theorem future_density_not_smaller sr w df w' T W k cells area e p o f :
  run_summary_analysis self sr w = (Some df, w') ->
  tables w !! sr = Some T ->
  tables w !! in_watershed (tool_parameters self) = Some W ->
  (k, cells) ∈ fr_rows df ->
  cells !! "watershed_area" = Some area ->
  cells !! "existing_road_length" = Some e ->
  cells !! "proposed_road_length" = Some p ->
  cells !! "original_road_density" = Some o ->
  cells !! "future_road_density" = Some f ->
  (0 < area)%Q -> (0 <= e)%Q -> (0 <= p)%Q ->
  (o <= f)%Q.
Proof.
  intros Hrun HT HW Hin Harea He Hp Ho Hf Hpos _ Hp0.
  destruct (run_summary_analysis_rows self _ _ _ _ _ _ Hrun HT HW)
    as (_ & _ & _ & _ & Hrows).
  destruct (Hrows k cells Hin) as (cells0 & ->).
  match type of Harea with
  | computed_cells ?pre ?prop ?a _ !! _ = _ =>
      destruct (computed_cells_lookup pre prop a cells0)
        as (Ha' & He' & Hp' & _ & Ho' & Hf')
  end.
  rewrite Ha' in Harea. rewrite He' in He. rewrite Hp' in Hp.
  rewrite Ho' in Ho. rewrite Hf' in Hf.
  inversion Harea; inversion He; inversion Hp; inversion Ho; inversion Hf; subst.
  clear Harea He Hp Ho Hf.
  unfold Qdiv at 1 4.
  apply Qmult_le_compat_r.
  - rewrite <- (Qplus_0_r (_ / 1000)) at 1.
    apply Qplus_le_r. exact Hp0.
  - apply Qlt_le_weak, Qinv_lt_0_compat. exact Hpos.
Qed.

End Densities.

(** ** The example: watersheds A and B *)

Lemma result_eta `{G : Geometry} {A} (p : option A * world) d :
  p.1 = Some d -> p = (Some d, p.2).
Proof. destruct p as [o w]. simpl. intros ->. reflexivity. Qed.

Lemma default_is_Some {A} (o : option A) d :
  is_Some o -> o = Some (default d o).
Proof. intros [x ->]. reflexivity. Qed.

Lemma head_elem_of {A} (l : list A) d :
  is_Some (head l) -> default d (head l) ∈ l.
Proof. destruct l; intros [x Hx]; [discriminate | left]. Qed.

Ltac by_evaluation := apply (bool_decide_unpack _); vm_compute; exact I.

Ltac ex_summary_facts :=
  lazymatch goal with
  | |- run_summary_analysis _ _ _ = _ =>
      apply (result_eta Cells.ex_summary), default_is_Some; by_evaluation
  | |- _ ∈ fr_rows _ =>
      rewrite <- surjective_pairing; apply head_elem_of; by_evaluation
  | |- _ !! _ = Some Cells.ex_watersheds => vm_compute; reflexivity
  | |- _ !! _ = Some _ => apply default_is_Some; by_evaluation
  end.

Section Example.
Import Cells.

Lemma summary_densities_witness :
  ex_cell "watershed_area" = (watershed_area ex_watersheds "WS_ID" ex_row.1 / 1000000)%Q /\
  ex_row.2 !! "original_road_density"
    = Some (road_length ex_intersected "WS_ID" "Pre-Development" ex_row.1 / 1000 /
            ex_cell "watershed_area")%Q /\
  ex_row.2 !! "future_road_density"
    = Some ((road_length ex_intersected "WS_ID" "Pre-Development" ex_row.1 / 1000 +
             road_length ex_intersected "WS_ID" "Proposed" ex_row.1 / 1000) /
            ex_cell "watershed_area")%Q.
Proof.
  apply (summary_densities ex_tool ex_spatial_result ex_spatial.2 ex_frame
           ex_summary.2 ex_intersected ex_watersheds ex_row.1 ex_row.2
           (ex_cell "watershed_area")).
  - ex_summary_facts.
  - ex_summary_facts.
  - ex_summary_facts.
  - ex_summary_facts.
  - ex_summary_facts.
  - vm_compute. reflexivity.
Defined.

Lemma future_density_not_smaller_witness :
  (ex_cell "original_road_density" <= ex_cell "future_road_density")%Q.
Proof.
  apply (future_density_not_smaller ex_tool ex_spatial_result ex_spatial.2 ex_frame
           ex_summary.2 ex_intersected ex_watersheds ex_row.1 ex_row.2
           (ex_cell "watershed_area") (ex_cell "existing_road_length")
           (ex_cell "proposed_road_length")).
  - ex_summary_facts.
  - ex_summary_facts.
  - ex_summary_facts.
  - ex_summary_facts.
  - ex_summary_facts.
  - ex_summary_facts.
  - ex_summary_facts.
  - ex_summary_facts.
  - ex_summary_facts.
  - vm_compute. reflexivity.
  - vm_compute. discriminate.
  - vm_compute. discriminate.
Defined.

End Example.

(** ** The report *)

Section Sorting.

Lemma desc_total : Total desc.
Proof.
  intros p1 p2. unfold desc.
  destruct (Qlt_le_dec p1.1 p2.1) as [H|H].
  - right. apply Qle_bool_iff, Qlt_le_weak, H.
  - left. apply Qle_bool_iff, H.
Qed.

Lemma Sorted_fmap_inv {A B} (f : A -> B) (R : relation B) (R' : relation A)
    (l : list A) :
  (forall x y, R (f x) (f y) -> R' x y) ->
  Sorted R (f <$> l) -> Sorted R' l.
Proof.
  intros HR. induction l as [|x l IH]; intros H; [constructor|].
  rewrite fmap_cons in H. inversion H as [|? ? Hs Hh]; subst.
  constructor; [apply IH, Hs|].
  destruct l; [constructor|]. rewrite fmap_cons in Hh.
  inversion Hh; subst. constructor. apply HR. assumption.
Qed.

Lemma Sorted_take {A} (R : relation A) (l : list A) n :
  Sorted R l -> Sorted R (take n l).
Proof.
  revert n. induction l as [|x l IH]; intros n H; [destruct n; constructor|].
  destruct n as [|n]; [constructor|]. simpl.
  inversion H as [|? ? Hs Hh]; subst. constructor; [apply IH, Hs|].
  destruct l; [destruct n; constructor|]. destruct n; [constructor|]. simpl.
  inversion Hh; subst. constructor. assumption.
Qed.

Lemma fmap_Permutation_inv {A B} (f : A -> B) (k : list B) (l : list A) :
  k ≡ₚ f <$> l -> exists l', k = f <$> l' /\ l' ≡ₚ l.
Proof.
  intros H. destruct (Permutation_map_inv f l H) as (l' & E & P).
  exists l'. split; [exact E | symmetry; exact P].
Qed.

Lemma zip_fmap_diag {A B C} (g : A -> B) (h : A -> C) (l : list A) :
  zip (g <$> l) (h <$> l) = (fun x => (g x, h x)) <$> l.
Proof. rewrite zip_with_fmap_l, zip_with_fmap_r, zip_with_diag. reflexivity. Qed.

Lemma Forall2_fun_eq {A B} (f : A -> B) (l : list A) (k : list B) :
  Forall2 (fun x y => y = f x) l k -> k = f <$> l.
Proof. induction 1; [reflexivity|]. rewrite fmap_cons. congruence. Qed.

Lemma getcol_cells (df : frame Q) c s :
  getcol df c = Some s ->
  s = (fun r : frame_row Q => cell r.2 c) <$> fr_rows df /\
  forall r, r ∈ fr_rows df -> r.2 !! c = Some (cell r.2 c).
Proof.
  unfold getcol. destruct (existsb _ _); [|discriminate]. intros H.
  pose proof H as H2. apply mapM_Some in H2.
  assert (Hall : forall r, r ∈ fr_rows df -> r.2 !! c = Some (cell r.2 c)).
  { intros r Hr. apply list_elem_of_lookup in Hr as (i & Hi).
    destruct (Forall2_lookup_l _ _ _ _ _ H2 Hi) as (v & _ & Hv).
    unfold cell. rewrite Hv. reflexivity. }
  split; [|exact Hall].
  apply (mapM_fun _ (fun r : frame_row Q => cell r.2 c) _ _ H Hall).
Qed.

End Sorting.

Section Report.
Context {G : Geometry}.
Variable self : tool.

Let key := in_watershed_id (tool_parameters self).

(** The row of the frame after the change column is set. *)
Let with_change (r : frame_row Q) : frame_row Q :=
  (r.1, <["change_in_density" := change_in_density r.2]> r.2).

(** The tuple selected from a row and its line are those of the report. *)
Lemma report_line_row idx cs (r : frame_row Q) vs l :
  r.2 !! "original_road_density" = Some (cell r.2 "original_road_density") ->
  r.2 !! "future_road_density" = Some (cell r.2 "future_road_density") ->
  mapM (select_cell (Frame idx cs []) (with_change r))
       [key; "original_road_density"; "future_road_density"; "change_in_density"]
    = Some vs ->
  report_line vs = Some l ->
  l = report_row r.
Proof.
  intros Ho Hf Hvs Hl. apply mapM_Some in Hvs.
  inversion Hvs as [|? c0 ? vs0 H0 Hvs0]; subst; clear Hvs.
  inversion Hvs0 as [|? c1 ? vs1 H1 Hvs1]; subst; clear Hvs0.
  inversion Hvs1 as [|? c2 ? vs2 H2 Hvs2]; subst; clear Hvs1.
  inversion Hvs2 as [|? c3 ? vs3 H3 Hvs3]; subst; clear Hvs2.
  inversion Hvs3; subst; clear Hvs3.
  simpl in Hl.
  destruct c0 as [k| |]; try discriminate Hl.
  destruct c1 as [|a|]; try discriminate Hl.
  destruct c2 as [|b|]; try discriminate Hl.
  destruct c3 as [|c|]; try discriminate Hl.
  inversion Hl; subst l; clear Hl.
  unfold select_cell in H0, H1, H2, H3. cbn [fr_index fr_columns] in *.
  destruct (String.eqb key idx).
  2:{ destruct (existsb _ cs); [|discriminate H0].
      destruct (_ !! key); discriminate H0. }
  inversion H0; subst k; clear H0.
  destruct (String.eqb "original_road_density" idx); [discriminate H1|].
  destruct (String.eqb "future_road_density" idx); [discriminate H2|].
  destruct (String.eqb "change_in_density" idx); [discriminate H3|].
  destruct (existsb _ cs); [|discriminate H1].
  destruct (existsb _ cs); [|discriminate H2].
  destruct (existsb _ cs); [|discriminate H3].
  unfold with_change in H1, H2, H3. cbn [fst snd] in H1, H2, H3.
  rewrite lookup_insert_ne, Ho in H1 by discriminate.
  rewrite lookup_insert_ne, Hf in H2 by discriminate.
  rewrite lookup_insert_eq in H3.
  inversion H1; inversion H2; inversion H3; subst.
  reflexivity.
Qed.

Lemma select_cell_rows (df : frame Q) r c :
  select_cell df r c = select_cell (Frame (fr_index df) (fr_columns df) []) r c.
Proof. reflexivity. Qed.

(** The text of the report, from the rows of the frame. *)
Lemma simple_report_rows df w text w' :
  simple_report self df w = (Some text, w') ->
  exists sorted,
    sorted ≡ₚ fr_rows df /\
    Sorted by_decreasing_change sorted /\
    text = match sorted with
           | [] => "Unable to find assessment data"
           | _ => join_lines (report_header key :: (report_row <$> take 20 sorted))
           end.
Proof.
  unfold simple_report. fold key. intros H.
  mstep. clear Hstep.
  mstep. apply lift_Some in Hstep as (Hblock & ->).
  apply bind_Some in Hblock as (orig & Horig & Hblock).
  apply bind_Some in Hblock as (fut & Hfut & Hblock).
  apply getcol_cells in Horig as (-> & Ho).
  apply getcol_cells in Hfut as (-> & Hf).
  destruct df as [idx cs rows]. cbn [fr_rows] in *.
  rewrite s_sub_rows, s_abs_rows in Hblock.
  rewrite <- (list_fmap_id rows) in Hblock at 1.
  apply setcol_rows in Hblock as (_ & cs' & ->).
  mstep. apply lift_Some in Hstep as (Hsort & ->).
  unfold sort_descending in Hsort.
  apply bind_Some in Hsort as (s & Hs & Hsort).
  apply (getcol_rows _ _ _ _ (fun r : frame_row Q => change_in_density r.2)) in Hs.
  2:{ intros b _. simpl. apply lookup_insert_eq. }
  subst s. inversion Hsort; subst; clear Hsort.
  cbn [fr_index fr_columns fr_rows] in H.
  rewrite (zip_fmap_diag (fun r : frame_row Q => change_in_density r.2) with_change) in H.
  match type of H with
  | context [merge_sort desc (?g <$> rows)] =>
      pose proof (merge_sort_Permutation desc (g <$> rows)) as Hperm;
      pose proof (Sorted_merge_sort desc (Total0 := desc_total) (g <$> rows)) as Hsorted;
      apply fmap_Permutation_inv in Hperm as (sorted & Esort & Hperm);
      rewrite Esort in H, Hsorted
  end.
  rewrite <- list_fmap_compose in H.
  exists sorted. split; [exact Hperm|]. split.
  { eapply Sorted_fmap_inv; [|exact Hsorted]. intros r1 r2. unfold desc. simpl.
    unfold by_decreasing_change. apply Qle_bool_iff. }
  mstep. apply lift_Some in Hstep as (Hsel & ->).
  apply fmap_Some in Hsel as (vals & Hsel & ->).
  unfold select_values in Hsel. destruct (forallb _ _); [|discriminate Hsel].
  cbn [fr_rows] in Hsel. apply mapM_Some in Hsel.
  apply Forall2_fmap_l in Hsel.
  pose proof (Forall2_length _ _ _ Hsel) as Hlen.
  case_bool_decide as Hpos.
  - mstep. apply lift_Some in Hstep as (Hlines & ->).
    match type of Hlines with _ = Some ?ls => rename ls into lines end.
    apply mret_Some in H as (-> & ->).
    destruct sorted as [|r0 sorted'] eqn:Es.
    { destruct vals; simpl in *; [lia|discriminate Hlen]. }
    rewrite <- Es in *. f_equal. f_equal.
    apply mapM_Some in Hlines.
    apply (Forall2_take _ _ _ 20) in Hsel.
    apply Forall2_fun_eq.
    assert (Hall : Forall2 (fun (r : frame_row Q) l => l = report_row r)
                           (take 20 sorted) lines); [|exact Hall].
    revert Hsel Hlines.
    assert (Hin : forall r, r ∈ take 20 sorted -> r ∈ rows).
    { intros r Hr. rewrite <- Hperm. eapply subseteq_take, Hr. }
    revert Hin. generalize (take 20 sorted) (take 20 vals) lines.
    intros l1. induction l1 as [|r l1 IH]; intros l2 l3 Hin H12 H23.
    + inversion H12; subst. inversion H23; subst. constructor.
    + inversion H12 as [|? vs ? l2' Hvs H12']; subst.
      inversion H23 as [|? l ? l3' Hl H23']; subst.
      constructor.
      * eapply report_line_row; [apply Ho | apply Hf | | exact Hl].
        -- apply Hin. left.
        -- apply Hin. left.
        -- erewrite mapM_ext; [exact Hvs|]. intros c. reflexivity.
      * eapply IH; [|exact H12'|exact H23']. intros r' Hr'. apply Hin. right. exact Hr'.
  - apply mret_Some in H as (-> & ->).
    destruct sorted as [|r0 sorted']; [reflexivity|].
    exfalso. apply Hpos. rewrite length_take. simpl in Hlen.
    destruct vals; [discriminate Hlen|]. simpl. lia.
Qed.

End Report.

Section ReportClaims.
Context {G : Geometry}.
Variable self : tool.

Lemma getcol_nil idx cs c : c ∈ cs -> getcol (Frame idx cs []) c = Some [].
Proof.
  intros H. apply existsb_eqb_elem in H. unfold getcol. simpl. rewrite H. reflexivity.
Qed.

Lemma setcol_nil idx cs c s :
  c <> idx ->
  exists cs', (forall x, x ∈ cs -> x ∈ cs') /\ c ∈ cs' /\
    setcol (Frame idx cs []) c s = Some (Frame idx cs' []).
Proof.
  intros Hne. unfold setcol. simpl.
  destruct (String.eqb c idx) eqn:E; [apply String.eqb_eq in E; contradiction|].
  eexists. split; [|split; [|reflexivity]].
  - intros x Hx. destruct (existsb _ cs); [exact Hx|]. apply elem_of_app. auto.
  - destruct (existsb _ cs) eqn:Ec; [apply existsb_eqb_elem, Ec|].
    apply elem_of_app. right. apply list_elem_of_singleton. reflexivity.
Qed.

Lemma sort_descending_nil idx cs c :
  c ∈ cs -> sort_descending (Frame idx cs []) c = Some (Frame idx cs []).
Proof.
  intros H. unfold sort_descending. rewrite getcol_nil by exact H. reflexivity.
Qed.

Lemma select_values_nil idx cs names :
  (forall n, n ∈ names -> n = idx \/ n ∈ cs) ->
  select_values (Frame idx cs []) names = Some [].
Proof.
  intros H. unfold select_values. simpl.
  replace (forallb _ names) with true; [reflexivity|].
  symmetry. apply forallb_forall. intros n Hn%list_elem_of_In.
  apply orb_true_iff. destruct (H n Hn) as [->|Hc].
  - left. apply String.eqb_refl.
  - right. apply existsb_eqb_elem, Hc.
Qed.

(** The report of a frame without rows. *)
Lemma simple_report_empty idx cs w :
  "original_road_density" ∈ cs ->
  "future_road_density" ∈ cs ->
  idx = in_watershed_id (tool_parameters self) ->
  idx <> "change_in_density" ->
  exists w', simple_report self (Frame idx cs []) w
             = (Some "Unable to find assessment data", w').
Proof.
  intros Ho Hf Hidx Hne.
  destruct (setcol_nil idx cs "change_in_density" (s_abs (s_sub [] [])))
    as (cs' & Hsub & Hc & Hset); [congruence|].
  eexists. unfold simple_report. rewrite <- Hidx.
  unfold mbind at 1 2 3 4 5, M_bind, bind, enter.
  rewrite !getcol_nil by assumption. cbn [mbind option_bind].
  rewrite Hset. cbn [lift ret].
  rewrite sort_descending_nil by exact Hc. cbn [lift ret].
  rewrite select_values_nil.
  2:{ intros n Hn. repeat (apply elem_of_cons in Hn as [->|Hn]); auto.
      inversion Hn. }
  reflexivity.
Qed.

(** C3. The change that [simple_report] prints for a row of the result is
    the absolute value of its [original_road_density] minus its
    [future_road_density]: each line after the header is the key of a row of
    the frame, its two densities and that absolute value. *)
Theorem report_change_is_absolute_difference df w text w' :
  simple_report self df w = (Some text, w') ->
  exists shown : list (frame_row Q),
    (forall r, r ∈ shown -> r ∈ fr_rows df) /\
    text =
      match shown with
      | [] => "Unable to find assessment data"
      | _ =>
          join_lines
            (report_header (in_watershed_id (tool_parameters self)) ::
             ((fun r : frame_row Q =>
                 truncate 27 r.1 +:+ " " +:+
                 format_6f (cell r.2 "original_road_density") +:+ " " +:+
                 format_6f (cell r.2 "future_road_density") +:+ " " +:+
                 format_6f (Qabs (cell r.2 "original_road_density" -
                                  cell r.2 "future_road_density")))
                <$> shown))
      end.
Proof.
  intros H. destruct (simple_report_rows self _ _ _ _ H) as (sorted & Hperm & _ & ->).
  exists (take 20 sorted). split.
  - intros r Hr. rewrite <- Hperm. eapply subseteq_take, Hr.
  - destruct sorted; reflexivity.
Qed.

(** C8. [simple_report] shows at most twenty rows after the header, by
    decreasing [change_in_density]: they are the first twenty of the rows
    of the frame in that order.  For a frame without rows it returns the
    text "Unable to find assessment data", and it does return it when the
    frame has the two density columns and the key column of the tool. *)
Theorem report_top_twenty df w :
  (forall text w',
     simple_report self df w = (Some text, w') ->
     exists sorted shown,
       sorted ≡ₚ fr_rows df /\
       Sorted by_decreasing_change sorted /\
       shown = take 20 sorted /\
       (length shown <= 20)%nat /\
       Sorted by_decreasing_change shown /\
       text = match fr_rows df with
              | [] => "Unable to find assessment data"
              | _ => join_lines
                       (report_header (in_watershed_id (tool_parameters self)) ::
                        (report_row <$> shown))
              end) /\
  (fr_rows df = [] ->
   "original_road_density" ∈ fr_columns df ->
   "future_road_density" ∈ fr_columns df ->
   fr_index df = in_watershed_id (tool_parameters self) ->
   fr_index df <> "change_in_density" ->
   exists w', simple_report self df w = (Some "Unable to find assessment data", w')).
Proof.
  split.
  - intros text w' H.
    destruct (simple_report_rows self _ _ _ _ H) as (sorted & Hperm & Hsorted & ->).
    exists sorted, (take 20 sorted). repeat split; try assumption.
    + rewrite length_take. lia.
    + apply Sorted_take, Hsorted.
    + destruct sorted as [|r sorted].
      * apply Permutation_nil in Hperm. rewrite Hperm. reflexivity.
      * destruct (fr_rows df); [|reflexivity].
        symmetry in Hperm. apply Permutation_nil in Hperm. discriminate Hperm.
  - intros Hrows Ho Hf Hidx Hne. destruct df as [idx cs rows]. simpl in *. subst rows.
    apply simple_report_empty; assumption.
Qed.

End ReportClaims.

(** ** The spatial analysis *)

Section Paths.

Lemma os_path_join_inj ws a b : os_path_join ws a = os_path_join ws b -> a = b.
Proof.
  unfold os_path_join. intros H. apply app_inv_head in H. congruence.
Qed.

Lemma os_path_join_ne ws a b : a <> b -> os_path_join ws a <> os_path_join ws b.
Proof. intros H E. apply H. eapply os_path_join_inj, E. Qed.

Lemma os_path_join_longer ws a : os_path_join ws a <> ws.
Proof.
  unfold os_path_join. intros E. apply (f_equal length) in E.
  rewrite length_app in E. simpl in E. lia.
Qed.

End Paths.

Section Steps.
Context {G : Geometry}.

Lemma read_table_eq p w t : tables w !! p = Some t -> read_table p w = (Some t, w).
Proof. unfold read_table. intros ->. reflexivity. Qed.

Lemma has_field_add_field fd t : has_field (field_name fd) (add_field fd t) = true.
Proof.
  unfold add_field. destruct (has_field (field_name fd) t) eqn:E; [exact E|].
  unfold has_field, field_names. simpl. rewrite fmap_app, existsb_app. simpl.
  rewrite String.eqb_refl, orb_true_r. reflexivity.
Qed.

Lemma enter_eq m w :
  enter m w = (Some tt, World (tables w) (geodatabases w) (files w) (session w)
                              (trace w ++ [m])).
Proof. reflexivity. Qed.

Lemma Buffer_eq t out d w :
  Buffer_analysis t out d w = (Some tt, put_table out (buffer_table d t) w).
Proof. reflexivity. Qed.

Lemma CopyFeatures_eq a b w t :
  tables w !! a = Some t ->
  CopyFeatures_management a b w = (Some tt, put_table b t w).
Proof.
  intros H. unfold CopyFeatures_management.
  rewrite (M_bind_eq _ _ _ _ _ (read_table_eq _ _ _ H)). reflexivity.
Qed.

Lemma Select_eq layer p w s :
  tables w !! p = Some s ->
  SelectLayerByLocation_management layer p w = (Some (select_by_location layer s), w).
Proof.
  intros H. unfold SelectLayerByLocation_management.
  rewrite (M_bind_eq _ _ _ _ _ (read_table_eq _ _ _ H)). reflexivity.
Qed.

Lemma Merge_eq a b out w t1 t2 :
  tables w !! a = Some t1 -> tables w !! b = Some t2 ->
  Merge_management a b out w = (Some tt, put_table out (merge_tables t1 t2) w).
Proof.
  intros H1 H2. unfold Merge_management.
  rewrite (M_bind_eq _ _ _ _ _ (read_table_eq _ _ _ H1)).
  rewrite (M_bind_eq _ _ _ _ _ (read_table_eq _ _ _ H2)). reflexivity.
Qed.

Lemma Intersect_eq a b out tol w t1 t2 :
  tables w !! a = Some t1 -> tables w !! b = Some t2 ->
  Intersect_analysis a b out tol w
  = (Some tt, put_table out (intersect_tables tol t1 t2) w).
Proof.
  intros H1 H2. unfold Intersect_analysis.
  rewrite (M_bind_eq _ _ _ _ _ (read_table_eq _ _ _ H1)).
  rewrite (M_bind_eq _ _ _ _ _ (read_table_eq _ _ _ H2)). reflexivity.
Qed.

(** The world after [add_constant_field]: the table is tagged, the trace
    has the call. *)
Lemma add_constant_field_eq p name v w t :
  tables w !! p = Some t ->
  exists w',
    add_constant_field p name v w = (Some tt, w') /\
    tables w' = <[p := tagged name v t]> (tables w) /\
    geodatabases w' = geodatabases w /\ files w' = files w /\
    session w' = session w.
Proof.
  intros H. unfold add_constant_field.
  unfold mbind at 1, M_bind, bind at 1. cbn [enter].
  set (w1 := World _ _ _ _ _).
  assert (H1 : tables w1 !! p = Some t) by exact H.
  unfold AddField_management.
  unfold mbind at 1, M_bind, bind at 1.
  rewrite (M_bind_eq _ _ _ _ _ (read_table_eq _ _ _ H1)).
  cbn [write_table].
  unfold UpdateCursor_set.
  set (w2 := put_table _ _ w1).
  assert (H2 : tables w2 !! p = Some (add_field (constant_field name v) t)).
  { subst w2. simpl. apply lookup_insert_eq. }
  rewrite (M_bind_eq _ _ _ _ _ (read_table_eq _ _ _ H2)).
  unfold constant_field at 1. change name with (field_name (constant_field name v)) at 1.
  rewrite has_field_add_field. cbn [write_table].
  eexists. split; [reflexivity|]. subst w2 w1. simpl.
  rewrite insert_insert_eq. auto.
Qed.

End Steps.

Section SpatialAnalysis.
Context {G : Geometry}.
Variable self : tool.

Let ws := workspace (tool_config self).
Let p := tool_parameters self.

Lemma not_scratch q n :
  q ∉ scratch_outputs self ->
  n ∈ ["stream_buffer"; "original_roads"; "proposed_roads"; "roads_combined";
       "intersected_streams_roads"; "intersected_roads_watershed"] ->
  os_path_join ws n <> q.
Proof.
  intros Hq Hn E. apply Hq. unfold scratch_outputs. fold ws. rewrite <- E.
  apply list_elem_of_fmap_2, Hn.
Qed.

Ltac in_names :=
  repeat first [apply list_elem_of_here | apply list_elem_of_further].

Ltac paths_ne :=
  first
    [ apply os_path_join_ne; discriminate
    | match goal with
      | H : ?q ∉ scratch_outputs self |- _ <> ?q =>
          apply (not_scratch _ _ H); in_names
      end ].

Ltac lookup_tables :=
  repeat match goal with
         | H : tables ?w = _ |- context [tables ?w] => rewrite H
         end;
  cbn [tables put_table];
  repeat (rewrite lookup_insert_ne by paths_ne);
  first [apply lookup_insert_eq | eassumption].

(** The tables after the spatial analysis, for given inputs outside the
    scratch workspace. *)
Lemma run_spatial_analysis_tables w S W R P :
  tables w !! in_streams p = Some S ->
  tables w !! in_watershed p = Some W ->
  tables w !! in_roads p = Some R ->
  tables w !! in_proposed_roads p = Some P ->
  in_watershed p ∉ scratch_outputs self ->
  in_roads p ∉ scratch_outputs self ->
  in_proposed_roads p ∉ scratch_outputs self ->
  exists w',
    run_spatial_analysis self w
      = (Some (os_path_join ws "intersected_roads_watershed"), w') /\
    tables w' =
      <[os_path_join ws "intersected_roads_watershed" :=
          spatial_result S W R P (in_distance p)]>
      (<[os_path_join ws "intersected_streams_roads" :=
          intersect_tables "0.1"
            (merge_tables (tagged "ROAD_TYPE" "Pre-Development" R)
                          (tagged "ROAD_TYPE" "Proposed" P))
            (stream_buffer S W (in_distance p))]>
      (<[os_path_join ws "roads_combined" :=
          merge_tables (tagged "ROAD_TYPE" "Pre-Development" R)
                       (tagged "ROAD_TYPE" "Proposed" P)]>
      (<[os_path_join ws "proposed_roads" := tagged "ROAD_TYPE" "Proposed" P]>
      (<[os_path_join ws "original_roads" := tagged "ROAD_TYPE" "Pre-Development" R]>
      (<[os_path_join ws "stream_buffer" := stream_buffer S W (in_distance p)]>
         (tables w)))))) /\
    geodatabases w' = geodatabases w /\ files w' = files w /\
    session w' = session w.
Proof.
  intros HS HW HR HP HnW HnR HnP.
  unfold run_spatial_analysis. fold ws p.
  rewrite (M_bind_eq _ _ _ _ _ (enter_eq _ _)).
  set (w0 := World _ _ _ _ _).
  assert (Ht0 : tables w0 = tables w) by reflexivity.
  assert (Hg0 : geodatabases w0 = geodatabases w /\ files w0 = files w /\
                session w0 = session w) by auto.
  clearbody w0.
  (* the buffer of the selected streams *)
  unfold MakeFeatureLayer_management.
  erewrite M_bind_eq by (apply read_table_eq; lookup_tables).
  erewrite M_bind_eq by (apply Select_eq; lookup_tables).
  rewrite (M_bind_eq _ _ _ _ _ (Buffer_eq _ _ _ _)).
  set (w1 := put_table _ _ w0).
  assert (Ht1 : tables w1 = <[os_path_join ws "stream_buffer" :=
                                stream_buffer S W (in_distance p)]> (tables w))
    by (subst w1; simpl; rewrite Ht0; reflexivity).
  assert (Hg1 : geodatabases w1 = geodatabases w /\ files w1 = files w /\
                session w1 = session w) by exact Hg0.
  clearbody w1. clear Ht0 Hg0 w0.
  (* the two road networks, tagged *)
  erewrite M_bind_eq by (apply CopyFeatures_eq; lookup_tables).
  set (w2 := put_table _ _ w1).
  assert (Ht2 : tables w2 = <[os_path_join ws "original_roads" := R]> (tables w1))
    by reflexivity.
  assert (Hg2 : geodatabases w2 = geodatabases w /\ files w2 = files w /\
                session w2 = session w) by exact Hg1.
  clearbody w2.
  destruct (add_constant_field_eq (os_path_join ws "original_roads") "ROAD_TYPE"
              "Pre-Development" w2 R) as (w3 & E3 & Ht3 & Hg3a & Hg3b & Hg3c);
    [lookup_tables|].
  rewrite (M_bind_eq _ _ _ _ _ E3). clear E3.
  rewrite Ht2, insert_insert_eq in Ht3.
  erewrite M_bind_eq by (apply CopyFeatures_eq; lookup_tables).
  set (w4 := put_table _ _ w3).
  assert (Ht4 : tables w4 = <[os_path_join ws "proposed_roads" := P]> (tables w3))
    by reflexivity.
  assert (Hg4 : geodatabases w4 = geodatabases w3 /\ files w4 = files w3 /\
                session w4 = session w3) by auto.
  clearbody w4.
  destruct (add_constant_field_eq (os_path_join ws "proposed_roads") "ROAD_TYPE"
              "Proposed" w4 P) as (w5 & E5 & Ht5 & Hg5a & Hg5b & Hg5c);
    [lookup_tables|].
  rewrite (M_bind_eq _ _ _ _ _ E5). clear E5.
  rewrite Ht4, insert_insert_eq in Ht5.
  (* the merge and the two overlays *)
  erewrite M_bind_eq by (apply Merge_eq; lookup_tables).
  set (w6 := put_table _ _ w5).
  assert (Ht6 : tables w6 = <[os_path_join ws "roads_combined" :=
                   merge_tables (tagged "ROAD_TYPE" "Pre-Development" R)
                                (tagged "ROAD_TYPE" "Proposed" P)]> (tables w5))
    by reflexivity.
  assert (Hg6 : geodatabases w6 = geodatabases w5 /\ files w6 = files w5 /\
                session w6 = session w5) by auto.
  clearbody w6.
  erewrite M_bind_eq by (apply Intersect_eq; lookup_tables).
  set (w7 := put_table _ _ w6).
  assert (Ht7 : tables w7 = <[os_path_join ws "intersected_streams_roads" :=
                   intersect_tables "0.1"
                     (merge_tables (tagged "ROAD_TYPE" "Pre-Development" R)
                                   (tagged "ROAD_TYPE" "Proposed" P))
                     (stream_buffer S W (in_distance p))]> (tables w6))
    by reflexivity.
  assert (Hg7 : geodatabases w7 = geodatabases w6 /\ files w7 = files w6 /\
                session w7 = session w6) by auto.
  clearbody w7.
  erewrite M_bind_eq by (apply Intersect_eq; lookup_tables).
  eexists. split; [reflexivity|]. cbn [tables put_table geodatabases files session].
  rewrite Ht7, Ht6, Ht5, Ht3, Ht1.
  destruct Hg7 as (-> & -> & ->). destruct Hg6 as (-> & -> & ->).
  rewrite Hg5a, Hg5b, Hg5c. destruct Hg4 as (-> & -> & ->).
  rewrite Hg3a, Hg3b, Hg3c. destruct Hg2 as (-> & -> & ->).
  split; [reflexivity|]. auto.
Qed.

(** What the later stages read after the spatial analysis. *)
Lemma run_spatial_analysis_result w S W R P :
  tables w !! in_streams p = Some S ->
  tables w !! in_watershed p = Some W ->
  tables w !! in_roads p = Some R ->
  tables w !! in_proposed_roads p = Some P ->
  in_watershed p ∉ scratch_outputs self ->
  in_roads p ∉ scratch_outputs self ->
  in_proposed_roads p ∉ scratch_outputs self ->
  exists w',
    run_spatial_analysis self w
      = (Some (os_path_join ws "intersected_roads_watershed"), w') /\
    tables w' !! os_path_join ws "intersected_roads_watershed"
      = Some (spatial_result S W R P (in_distance p)) /\
    tables w' !! os_path_join ws "stream_buffer"
      = Some (stream_buffer S W (in_distance p)) /\
    tables w' !! os_path_join ws "original_roads"
      = Some (tagged "ROAD_TYPE" "Pre-Development" R) /\
    tables w' !! os_path_join ws "proposed_roads"
      = Some (tagged "ROAD_TYPE" "Proposed" P) /\
    (forall q, q ∉ scratch_outputs self -> tables w' !! q = tables w !! q) /\
    geodatabases w' = geodatabases w /\ files w' = files w /\
    session w' = session w.
Proof.
  intros HS HW HR HP HnW HnR HnP.
  destruct (run_spatial_analysis_tables w S W R P HS HW HR HP HnW HnR HnP)
    as (w' & Hrun & Ht & Hg).
  exists w'. split; [exact Hrun|].
  split; [lookup_tables|]. split; [lookup_tables|]. split; [lookup_tables|].
  split; [lookup_tables|]. split; [|exact Hg].
  intros q Hq. rewrite Ht.
  repeat (rewrite lookup_insert_ne by (apply (not_scratch _ _ Hq); in_names)).
  reflexivity.
Qed.

End SpatialAnalysis.

(** ** The overlays *)

Section Overlay.
Context {G : Geometry}.

Lemma elem_of_select_by_location (layer sel : table) (s : row) :
  s ∈ tbl_rows (select_by_location layer sel) <->
  s ∈ tbl_rows layer /\
  exists g h, shape s = Some g /\ h ∈ shapes (tbl_rows sel) /\
              geom_intersects g h = true.
Proof.
  unfold select_by_location. cbn [tbl_rows].
  rewrite list_elem_of_In, filter_In, <- list_elem_of_In.
  unfold intersects_any. split.
  - intros (Hs & Hi). split; [exact Hs|].
    destruct (shape s) as [g|]; [|discriminate Hi].
    apply existsb_exists in Hi as (h & Hh & Hi).
    exists g, h. rewrite list_elem_of_In. auto.
  - intros (Hs & g & h & -> & Hh & Hi). split; [exact Hs|].
    apply existsb_exists. exists h. rewrite <- list_elem_of_In. auto.
Qed.

Lemma elem_of_flat_map {A B} (f : A -> list B) (l : list A) (y : B) :
  y ∈ flat_map f l <-> exists x, x ∈ l /\ y ∈ f x.
Proof.
  rewrite list_elem_of_In, in_flat_map. split.
  - intros (x & Hx & Hy). exists x. rewrite !list_elem_of_In. auto.
  - intros (x & Hx & Hy). exists x. rewrite <- !list_elem_of_In. auto.
Qed.

Lemma elem_of_intersect_pair tol f1 f2 (a b f : row) :
  f ∈ intersect_pair tol f1 f2 a b <->
  exists g h i, shape a = Some g /\ shape b = Some h /\
    geom_intersect tol g h = Some i /\
    f = Row (project f1 a ++ project f2 b) (Some i).
Proof.
  unfold intersect_pair. split.
  - destruct (shape a) as [g|]; [|intros H; inversion H].
    destruct (shape b) as [h|]; [|intros H; inversion H].
    destruct (geom_intersect tol g h) as [i|] eqn:Ei; [|intros H; inversion H].
    intros H%list_elem_of_singleton. exists g, h, i. auto.
  - intros (g & h & i & -> & -> & -> & ->). apply list_elem_of_singleton. reflexivity.
Qed.

(** A feature of an overlay is the common part of a feature of each input. *)
Lemma elem_of_intersect_tables tol (t1 t2 : table) (f : row) :
  f ∈ tbl_rows (intersect_tables tol t1 t2) <->
  exists a b g h i, a ∈ tbl_rows t1 /\ b ∈ tbl_rows t2 /\
    shape a = Some g /\ shape b = Some h /\ geom_intersect tol g h = Some i /\
    f = Row (project (tbl_fields t1) a ++ project (tbl_fields t2) b) (Some i).
Proof.
  unfold intersect_tables, intersect_rows. cbn [tbl_rows].
  rewrite elem_of_flat_map. split.
  - intros (a & Ha & Hf). apply elem_of_flat_map in Hf as (b & Hb & Hf).
    apply elem_of_intersect_pair in Hf as (g & h & i & ? & ? & ? & ?).
    exists a, b, g, h, i. repeat split; assumption.
  - intros (a & b & g & h & i & Ha & Hb & ? & ? & ? & ?).
    exists a. split; [exact Ha|]. apply elem_of_flat_map. exists b.
    split; [exact Hb|]. apply elem_of_intersect_pair.
    exists g, h, i. repeat split; assumption.
Qed.

Lemma flat_map_skip {A B} (f : A -> list B) (l1 l2 : list A) (x : A) :
  f x = [] -> flat_map f (l1 ++ x :: l2) = flat_map f (l1 ++ l2).
Proof. intros H. rewrite !flat_map_app. simpl. rewrite H. reflexivity. Qed.

Lemma flat_map_nil {A B} (f : A -> list B) (l : list A) :
  (forall x, x ∈ l -> f x = []) -> flat_map f l = [].
Proof.
  induction l as [|x l IH]; intros H; [reflexivity|]. simpl.
  rewrite (H x) by set_solver. apply IH. intros. apply H. set_solver.
Qed.

(** The rows of a tagged table and of a merge, from the rows of the inputs. *)
Lemma tagged_rows name v (t : table) :
  tbl_rows (tagged name v t)
  = (fun r => Row (set_attr name (VText v) (attrs r)) (shape r)) <$> tbl_rows t.
Proof. unfold tagged, update_all, add_field. destruct (has_field _ t); reflexivity. Qed.

Lemma tagged_fields_rows name v fields rows1 rows2 :
  tbl_fields (tagged name v (Table fields rows1))
  = tbl_fields (tagged name v (Table fields rows2)).
Proof.
  unfold tagged, update_all, add_field, has_field, field_names. cbn [tbl_fields].
  destruct (existsb _ _); reflexivity.
Qed.

Lemma elem_of_tagged name v (t : table) (r' : row) :
  r' ∈ tbl_rows (tagged name v t) <->
  exists r, r ∈ tbl_rows t /\
    r' = Row (set_attr name (VText v) (attrs r)) (shape r).
Proof.
  rewrite tagged_rows, list_elem_of_fmap. split; intros (r & ? & ?); eauto.
Qed.

Lemma merge_tables_rows (t1 t2 : table) :
  tbl_rows (merge_tables t1 t2)
  = ((fun r => Row (project (tbl_fields (merge_tables t1 t2)) r) (shape r))
       <$> tbl_rows t1) ++
    ((fun r => Row (project (tbl_fields (merge_tables t1 t2)) r) (shape r))
       <$> tbl_rows t2).
Proof. unfold merge_tables. cbn [tbl_rows tbl_fields]. apply fmap_app. Qed.

End Overlay.

(** ** The attributes through the overlays *)

Section Attributes.
Context {G : Geometry}.

Lemma get_attr_set_attr name v l : get_attr name (set_attr name v l) = Some v.
Proof.
  induction l as [|[n w] l IH]; simpl.
  - rewrite String.eqb_refl. reflexivity.
  - destruct (String.eqb n name) eqn:E; simpl; rewrite E; [reflexivity | exact IH].
Qed.

Lemma get_attr_app name l1 l2 :
  get_attr name (l1 ++ l2)
  = match get_attr name l1 with Some v => Some v | None => get_attr name l2 end.
Proof.
  induction l1 as [|[n w] l1 IH]; simpl; [reflexivity|].
  destruct (String.eqb n name); [reflexivity | exact IH].
Qed.

Lemma get_attr_project name fields (r : row) :
  existsb (String.eqb name) (field_name <$> fields) = true ->
  get_attr name (project fields r) = Some (field_value name r).
Proof.
  unfold project. induction fields as [|f fields IH]; simpl; [discriminate|].
  rewrite (String.eqb_sym name). destruct (String.eqb (field_name f) name) eqn:E.
  - intros _. apply String.eqb_eq in E. subst. reflexivity.
  - simpl. exact IH.
Qed.

Lemma field_value_tagged name v (t : table) (r : row) :
  r ∈ tbl_rows (tagged name v t) -> field_value name r = VText v.
Proof.
  intros (r0 & _ & ->)%elem_of_tagged. unfold field_value. simpl.
  rewrite get_attr_set_attr. reflexivity.
Qed.

Lemma has_field_tagged name v (t : table) : has_field name (tagged name v t) = true.
Proof.
  unfold tagged, update_all. unfold has_field, field_names. cbn [tbl_fields].
  apply (has_field_add_field (constant_field name v) t).
Qed.

Lemma has_field_merge name (t1 t2 : table) :
  has_field name t1 = true -> has_field name (merge_tables t1 t2) = true.
Proof.
  unfold has_field, field_names, merge_tables, merge_fields. cbn [tbl_fields].
  intros H. rewrite fmap_app, existsb_app, H. reflexivity.
Qed.

(** A feature of an overlay keeps the fields of its first input. *)
Lemma field_value_intersect tol (t1 t2 : table) name (f : row) :
  has_field name t1 = true ->
  f ∈ tbl_rows (intersect_tables tol t1 t2) ->
  exists a, a ∈ tbl_rows t1 /\ field_value name f = field_value name a.
Proof.
  intros Hn (a & b & g & h & i & Ha & _ & _ & _ & _ & ->)%elem_of_intersect_tables.
  exists a. split; [exact Ha|]. unfold field_value at 1. cbn [attrs].
  rewrite get_attr_app, get_attr_project by exact Hn. reflexivity.
Qed.

Lemma has_field_intersect tol name (t1 t2 : table) :
  has_field name t1 = true -> has_field name (intersect_tables tol t1 t2) = true.
Proof.
  unfold has_field, field_names, intersect_tables. cbn [tbl_fields].
  intros H. rewrite fmap_app, existsb_app, H. reflexivity.
Qed.

Lemma intersect_rows_app tol fields l1 l2 (t2 : table) :
  intersect_rows tol (Table fields (l1 ++ l2)) t2
  = intersect_rows tol (Table fields l1) t2 ++ intersect_rows tol (Table fields l2) t2.
Proof. unfold intersect_rows. cbn [tbl_rows tbl_fields]. apply flat_map_app. Qed.

End Attributes.

Section SpatialResult.
Context {G : Geometry}.
Variables (S W R P : table) (d : string).

Let existing := network_pieces S W R P d (tbl_rows (tagged "ROAD_TYPE" "Pre-Development" R)).
Let proposed := network_pieces S W R P d (tbl_rows (tagged "ROAD_TYPE" "Proposed" P)).

(** The spatial result is made of the pieces of the existing roads, then
    the pieces of the proposed roads. *)
Lemma spatial_result_parts :
  tbl_rows (spatial_result S W R P d) = existing ++ proposed.
Proof.
  subst existing proposed. unfold spatial_result, network_pieces.
  unfold intersect_tables at 1 3 5. cbn [tbl_rows].
  unfold intersect_tables. cbn [tbl_fields].
  rewrite <- intersect_rows_app. f_equal.
  f_equal. rewrite <- intersect_rows_app. f_equal.
  unfold merge_tables. cbn [tbl_fields]. rewrite fmap_app. reflexivity.
Qed.

Lemma network_pieces_type v (network : list row) (f : row) :
  (forall r, r ∈ network -> field_value "ROAD_TYPE" r = VText v) ->
  f ∈ network_pieces S W R P d network ->
  field_value "ROAD_TYPE" f = VText v.
Proof.
  intros Hall Hf. unfold network_pieces in Hf.
  assert (Hm : has_field "ROAD_TYPE"
                 (merge_tables (tagged "ROAD_TYPE" "Pre-Development" R)
                               (tagged "ROAD_TYPE" "Proposed" P)) = true)
    by apply has_field_merge, has_field_tagged.
  apply (field_value_intersect _ _ _ "ROAD_TYPE") in Hf as (a & Ha & ->).
  2:{ apply has_field_intersect. exact Hm. }
  apply (field_value_intersect _ _ _ "ROAD_TYPE") in Ha as (b & Hb & ->).
  2:{ exact Hm. }
  cbn [tbl_rows] in Hb. apply list_elem_of_fmap in Hb as (r & -> & Hr).
  unfold field_value at 1. cbn [attrs].
  rewrite get_attr_project by exact Hm. simpl. apply Hall, Hr.
Qed.

Lemma existing_type f : f ∈ existing -> field_value "ROAD_TYPE" f = VText "Pre-Development".
Proof. apply network_pieces_type. intros r. apply field_value_tagged. Qed.

Lemma proposed_type f : f ∈ proposed -> field_value "ROAD_TYPE" f = VText "Proposed".
Proof. apply network_pieces_type. intros r. apply field_value_tagged. Qed.

Lemma filter_type_all (key_field k t : string) (rows : list row) :
  (forall r, r ∈ rows -> field_value "ROAD_TYPE" r = VText t) ->
  List.filter (fun r => value_eqb (field_value key_field r) (VText k) &&
                        value_eqb (field_value "ROAD_TYPE" r) (VText t)) rows
  = List.filter (fun r => value_eqb (field_value key_field r) (VText k)) rows.
Proof.
  intros H. apply filter_ext_in. intros r Hr%list_elem_of_In.
  rewrite (H r Hr). simpl. rewrite String.eqb_refl, andb_true_r. reflexivity.
Qed.

Lemma filter_type_none (key_field k t t' : string) (rows : list row) :
  t' <> t ->
  (forall r, r ∈ rows -> field_value "ROAD_TYPE" r = VText t') ->
  List.filter (fun r => value_eqb (field_value key_field r) (VText k) &&
                        value_eqb (field_value "ROAD_TYPE" r) (VText t)) rows
  = [].
Proof.
  intros Hne H. induction rows as [|r rows IH]; [reflexivity|]. simpl.
  rewrite (H r) by set_solver. simpl.
  destruct (String.eqb t' t) eqn:E; [apply String.eqb_eq in E; contradiction|].
  rewrite andb_false_r. apply IH. intros. apply H. set_solver.
Qed.

(** The length the pivot counts under one road type is the length of the
    pieces of that network alone. *)
Lemma road_length_existing key_field k :
  road_length (spatial_result S W R P d) key_field "Pre-Development" k
  = length_in_watershed key_field k existing.
Proof.
  unfold road_length, length_in_watershed. rewrite spatial_result_parts.
  rewrite List.filter_app.
  rewrite (filter_type_all _ _ _ existing) by apply existing_type.
  rewrite (filter_type_none _ _ _ "Proposed" proposed)
    by (discriminate || apply proposed_type).
  rewrite app_nil_r. reflexivity.
Qed.

Lemma road_length_proposed key_field k :
  road_length (spatial_result S W R P d) key_field "Proposed" k
  = length_in_watershed key_field k proposed.
Proof.
  unfold road_length, length_in_watershed. rewrite spatial_result_parts.
  rewrite List.filter_app.
  rewrite (filter_type_all _ _ _ proposed) by apply proposed_type.
  rewrite (filter_type_none _ _ _ "Pre-Development" existing)
    by (discriminate || apply existing_type).
  reflexivity.
Qed.

End SpatialResult.

(** ** Roads and the buffer *)

Section Buffer.
Context {G : Geometry}.
Variables (S W : table) (d : string).

(** Every feature of the spatial result is the part of a road inside the
    buffer and inside a watershed. *)
Lemma spatial_result_origin (R P : table) (f : row) :
  f ∈ tbl_rows (spatial_result S W R P d) ->
  exists r b x g gb gi gx gf,
    (r ∈ tbl_rows R \/ r ∈ tbl_rows P) /\
    b ∈ tbl_rows (stream_buffer S W d) /\ x ∈ tbl_rows W /\
    shape r = Some g /\ shape b = Some gb /\
    geom_intersect "0.1" g gb = Some gi /\
    shape x = Some gx /\ geom_intersect "0.1" gi gx = Some gf /\
    shape f = Some gf.
Proof.
  unfold spatial_result.
  intros (a & x & gi & gx & gf & Ha & Hx & Hsa & Hsx & Hi2 & ->)%elem_of_intersect_tables.
  apply elem_of_intersect_tables in Ha
    as (c & b & g & gb & gi' & Hc & Hb & Hsc & Hsb & Hi1 & ->).
  cbn [shape] in Hsa. inversion Hsa; subst gi'; clear Hsa.
  rewrite merge_tables_rows in Hc.
  assert (Hr : exists r, (r ∈ tbl_rows R \/ r ∈ tbl_rows P) /\ shape c = shape r).
  { apply elem_of_app in Hc as [Hc|Hc];
      apply list_elem_of_fmap in Hc as (r' & -> & Hr');
      apply elem_of_tagged in Hr' as (r & Hr & ->); exists r; auto. }
  destruct Hr as (r & Hr & Esh). rewrite Esh in Hsc.
  exists r, b, x, g, gb, gi, gx, gf. repeat split; assumption || reflexivity.
Qed.

Lemma intersect_pair_outside f1 f2 (r r' b : row) :
  outside_buffer (stream_buffer S W d) r ->
  shape r' = shape r ->
  b ∈ tbl_rows (stream_buffer S W d) ->
  intersect_pair "0.1" f1 f2 r' b = [].
Proof.
  intros Hout Hsh Hb. unfold intersect_pair. rewrite Hsh.
  destruct (shape r) as [g|] eqn:Eg; [|reflexivity].
  destruct (shape b) as [gb|] eqn:Egb; [|reflexivity].
  rewrite (Hout g b gb) by assumption || reflexivity. reflexivity.
Qed.

(** An existing road outside the buffer adds nothing to the spatial
    result. *)
Lemma spatial_result_skip_road (P : table) fields l1 r0 l2 :
  outside_buffer (stream_buffer S W d) r0 ->
  spatial_result S W (Table fields (l1 ++ r0 :: l2)) P d
  = spatial_result S W (Table fields (l1 ++ l2)) P d.
Proof.
  intros Hout. unfold spatial_result. f_equal.
  unfold intersect_tables, merge_tables. cbn [tbl_fields tbl_rows].
  rewrite (tagged_fields_rows _ _ fields (l1 ++ r0 :: l2) (l1 ++ l2)).
  f_equal. unfold intersect_rows. cbn [tbl_fields tbl_rows].
  rewrite !tagged_rows. cbn [tbl_rows].
  rewrite !fmap_app, !fmap_cons, <- !app_assoc, <- app_comm_cons.
  apply flat_map_skip. apply flat_map_nil. intros b Hb.
  eapply intersect_pair_outside; [exact Hout | reflexivity | exact Hb].
Qed.

(** A proposed road outside the buffer adds nothing either. *)
Lemma spatial_result_skip_proposed (R : table) fields l1 r0 l2 :
  outside_buffer (stream_buffer S W d) r0 ->
  spatial_result S W R (Table fields (l1 ++ r0 :: l2)) d
  = spatial_result S W R (Table fields (l1 ++ l2)) d.
Proof.
  intros Hout. unfold spatial_result. f_equal.
  unfold intersect_tables, merge_tables. cbn [tbl_fields tbl_rows].
  rewrite (tagged_fields_rows _ _ fields (l1 ++ r0 :: l2) (l1 ++ l2)).
  f_equal. unfold intersect_rows. cbn [tbl_fields tbl_rows].
  rewrite !tagged_rows. cbn [tbl_rows].
  rewrite !fmap_app, !fmap_cons, !app_assoc.
  apply flat_map_skip. apply flat_map_nil. intros b Hb.
  eapply intersect_pair_outside; [exact Hout | reflexivity | exact Hb].
Qed.

End Buffer.

Section SpatialClaims.
Context {G : Geometry}.
Variable self : tool.

Let ws := workspace (tool_config self).
Let p := tool_parameters self.

(** C2. The spatial analysis selects exactly the streams that intersect a
    watershed, writes their buffer by [in_distance] as one dissolved
    feature, and returns the overlay of the combined roads with that buffer
    and then with the watersheds: every feature of the result is the part
    of a road inside the buffer and a watershed, and a road without a part
    in the buffer leaves the result as it is without that road. *)
Theorem only_roads_in_buffer_count w S W R P :
  tables w !! in_streams p = Some S ->
  tables w !! in_watershed p = Some W ->
  tables w !! in_roads p = Some R ->
  tables w !! in_proposed_roads p = Some P ->
  in_watershed p ∉ scratch_outputs self ->
  in_roads p ∉ scratch_outputs self ->
  in_proposed_roads p ∉ scratch_outputs self ->
  let buffer := stream_buffer S W (in_distance p) in
  let result := spatial_result S W R P (in_distance p) in
  (forall s, s ∈ tbl_rows (select_by_location S W) <->
     s ∈ tbl_rows S /\
     exists g h, shape s = Some g /\ h ∈ shapes (tbl_rows W) /\
                 geom_intersects g h = true) /\
  tbl_rows buffer
    = match shapes (tbl_rows (select_by_location S W)) with
      | [] => []
      | gs => [Row [] (Some (geom_buffer (in_distance p) gs))]
      end /\
  (exists w',
     run_spatial_analysis self w
       = (Some (os_path_join ws "intersected_roads_watershed"), w') /\
     tables w' !! os_path_join ws "stream_buffer" = Some buffer /\
     tables w' !! os_path_join ws "intersected_roads_watershed" = Some result) /\
  (forall f, f ∈ tbl_rows result ->
     exists r b x g gb gi gx gf,
       (r ∈ tbl_rows R \/ r ∈ tbl_rows P) /\
       b ∈ tbl_rows buffer /\ x ∈ tbl_rows W /\
       shape r = Some g /\ shape b = Some gb /\
       geom_intersect "0.1" g gb = Some gi /\
       shape x = Some gx /\ geom_intersect "0.1" gi gx = Some gf /\
       shape f = Some gf) /\
  (forall r0 l1 l2,
     outside_buffer buffer r0 ->
     (tbl_rows R = l1 ++ r0 :: l2 ->
      spatial_result S W (Table (tbl_fields R) (l1 ++ l2)) P (in_distance p) = result) /\
     (tbl_rows P = l1 ++ r0 :: l2 ->
      spatial_result S W R (Table (tbl_fields P) (l1 ++ l2)) (in_distance p) = result)).
Proof.
  intros HS HW HR HP HnW HnR HnP buffer result.
  split; [apply elem_of_select_by_location|].
  split; [reflexivity|].
  split.
  { destruct (run_spatial_analysis_result self w S W R P HS HW HR HP HnW HnR HnP)
      as (w' & Hrun & Hres & Hbuf & _).
    exists w'. auto. }
  split; [apply spatial_result_origin|].
  intros r0 l1 l2 Hout. split; intros Hrows.
  - subst result. destruct R as [fields rows]. cbn [tbl_rows tbl_fields] in *.
    subst rows. symmetry. apply spatial_result_skip_road, Hout.
  - subst result. destruct P as [fields rows]. cbn [tbl_rows tbl_fields] in *.
    subst rows. symmetry. apply spatial_result_skip_proposed, Hout.
Qed.

(** C5. [add_constant_field] gives its value to the field of every row,
    so after the spatial analysis every feature copied from the existing
    roads has ROAD_TYPE "Pre-Development" and every feature copied from the
    proposed roads has ROAD_TYPE "Proposed"; the spatial result is the
    pieces of the existing roads, all of the first type, followed by the
    pieces of the proposed roads, all of the second, and the summary
    gives each watershed, as its existing and proposed lengths, the lengths
    of the pieces of the one and of the other network. *)
Theorem networks_counted_apart w S W R P :
  tables w !! in_streams p = Some S ->
  tables w !! in_watershed p = Some W ->
  tables w !! in_roads p = Some R ->
  tables w !! in_proposed_roads p = Some P ->
  in_watershed p ∉ scratch_outputs self ->
  in_roads p ∉ scratch_outputs self ->
  in_proposed_roads p ∉ scratch_outputs self ->
  let existing := network_pieces S W R P (in_distance p)
                    (tbl_rows (tagged "ROAD_TYPE" "Pre-Development" R)) in
  let proposed := network_pieces S W R P (in_distance p)
                    (tbl_rows (tagged "ROAD_TYPE" "Proposed" P)) in
  (forall path name v w0 t,
     tables w0 !! path = Some t ->
     exists w1 t',
       add_constant_field path name v w0 = (Some tt, w1) /\
       tables w1 !! path = Some t' /\
       length (tbl_rows t') = length (tbl_rows t) /\
       forall r, r ∈ tbl_rows t' -> field_value name r = VText v) /\
  exists w1 original_roads proposed_roads result,
    run_spatial_analysis self w
      = (Some (os_path_join ws "intersected_roads_watershed"), w1) /\
    tables w1 !! os_path_join ws "original_roads" = Some original_roads /\
    length (tbl_rows original_roads) = length (tbl_rows R) /\
    (forall r, r ∈ tbl_rows original_roads ->
       field_value "ROAD_TYPE" r = VText "Pre-Development") /\
    tables w1 !! os_path_join ws "proposed_roads" = Some proposed_roads /\
    length (tbl_rows proposed_roads) = length (tbl_rows P) /\
    (forall r, r ∈ tbl_rows proposed_roads ->
       field_value "ROAD_TYPE" r = VText "Proposed") /\
    tables w1 !! os_path_join ws "intersected_roads_watershed" = Some result /\
    tbl_rows result = existing ++ proposed /\
    (forall f, f ∈ existing -> field_value "ROAD_TYPE" f = VText "Pre-Development") /\
    (forall f, f ∈ proposed -> field_value "ROAD_TYPE" f = VText "Proposed") /\
    forall df w2 k cells,
      run_summary_analysis self (os_path_join ws "intersected_roads_watershed") w1
        = (Some df, w2) ->
      (k, cells) ∈ fr_rows df ->
      cells !! "existing_road_length"
        = Some (length_in_watershed (in_watershed_id p) k existing / 1000)%Q /\
      cells !! "proposed_road_length"
        = Some (length_in_watershed (in_watershed_id p) k proposed / 1000)%Q.
Proof.
  intros HS HW HR HP HnW HnR HnP existing proposed. split.
  { intros path name v w0 t Ht.
    destruct (add_constant_field_eq path name v w0 t Ht) as (w1 & Hrun & Htab & _).
    exists w1, (tagged name v t). split; [exact Hrun|].
    split; [rewrite Htab; apply lookup_insert_eq|].
    split; [rewrite tagged_rows; apply length_fmap|].
    intros r. apply field_value_tagged. }
  destruct (run_spatial_analysis_result self w S W R P HS HW HR HP HnW HnR HnP)
    as (w1 & Hrun & Hres & _ & Horig & Hprop & Hkeep & _).
  exists w1, (tagged "ROAD_TYPE" "Pre-Development" R),
    (tagged "ROAD_TYPE" "Proposed" P), (spatial_result S W R P (in_distance p)).
  split; [exact Hrun|]. split; [exact Horig|].
  split; [rewrite tagged_rows; apply length_fmap|].
  split; [intros r; apply field_value_tagged|].
  split; [exact Hprop|].
  split; [rewrite tagged_rows; apply length_fmap|].
  split; [intros r; apply field_value_tagged|].
  split; [exact Hres|].
  split; [apply spatial_result_parts|].
  split; [apply existing_type|]. split; [apply proposed_type|].
  intros df w2 k cells Hsum Hin.
  assert (HW1 : tables w1 !! in_watershed p = Some W)
    by (rewrite Hkeep by exact HnW; exact HW).
  destruct (run_summary_analysis_rows self _ _ _ _ _ _ Hsum Hres HW1)
    as (_ & _ & _ & _ & Hrows).
  destruct (Hrows k cells Hin) as (cells0 & ->).
  rewrite road_length_existing, road_length_proposed.
  fold existing proposed.
  unfold computed_cells.
  split; repeat (rewrite lookup_insert_ne by (intros ?; discriminate));
    apply lookup_insert_eq.
Qed.

End SpatialClaims.

(** ** What the methods keep *)

(** A relation between the world before and after that every step of a
    computation respects. *)
Section Keeps.
Context {G : Geometry}.
Variable Rel : world -> world -> Prop.
Hypothesis Rel_refl : forall w, Rel w w.
Hypothesis Rel_trans : forall w1 w2 w3, Rel w1 w2 -> Rel w2 w3 -> Rel w1 w3.

Local Abbreviation keeps c := (respects Rel c).

Lemma keeps_bind {A B} (c : M A) (k : A -> M B) :
  keeps c -> (forall a, keeps (k a)) -> keeps (c ≫= k).
Proof.
  intros Hc Hk w. unfold mbind, M_bind, bind. specialize (Hc w).
  destruct (c w) as [[a|] w1]; simpl in *; [|exact Hc].
  eapply Rel_trans; [exact Hc | apply Hk].
Qed.

Lemma keeps_pure {A} (c : M A) : (forall w, (c w).2 = w) -> keeps c.
Proof. intros H w. rewrite H. apply Rel_refl. Qed.

Lemma keeps_mret {A} (x : A) : keeps (mret x : M A).
Proof. apply keeps_pure. reflexivity. Qed.

Lemma keeps_raise {A} : keeps (raise : M A).
Proof. apply keeps_pure. reflexivity. Qed.

Lemma keeps_lift {A} (o : option A) : keeps (lift o).
Proof. destruct o; [apply (keeps_mret a) | apply keeps_raise]. Qed.

Lemma keeps_read_table q : keeps (read_table q).
Proof. apply keeps_pure. reflexivity. Qed.

Lemma keeps_get_session : keeps get_session.
Proof. apply keeps_pure. reflexivity. Qed.

Lemma keeps_Exists q : keeps (arcpy_Exists q).
Proof. apply keeps_pure. reflexivity. Qed.

Lemma keeps_if {A} (b : bool) (c1 c2 : M A) :
  keeps c1 -> keeps c2 -> keeps (if b then c1 else c2).
Proof. destruct b; auto. Qed.

Lemma keeps_for_each {A} (l : list A) (f : A -> M unit) :
  (forall x, keeps (f x)) -> keeps (for_each l f).
Proof.
  intros Hf. induction l as [|x l IH]; simpl.
  - apply keeps_mret.
  - apply keeps_bind; [apply Hf | intros _; exact IH].
Qed.

Lemma keeps_step {A} (c : M A) w r w' : keeps c -> c w = (r, w') -> Rel w w'.
Proof. intros H E. specialize (H w). rewrite E in H. exact H. Qed.

(** The steps that change the world. *)
Hypothesis Rel_enter : forall m, keeps (enter m).
Hypothesis Rel_put_session : forall s, keeps (put_session s).

Ltac keeps_session :=
  repeat first
    [ progress intros
    | apply keeps_mret | apply keeps_raise | apply keeps_lift
    | apply keeps_read_table | apply keeps_get_session | apply Rel_put_session
    | apply Rel_enter
    | apply keeps_bind
    | apply keeps_if ].

Lemma keeps_replaceDataSource a b c d : keeps (replaceDataSource a b c d).
Proof. unfold replaceDataSource. keeps_session. Qed.

Lemma keeps_getExtent a b : keeps (getExtent a b).
Proof. unfold getExtent. keeps_session. Qed.

Lemma keeps_set_extent a b : keeps (set_extent a b).
Proof. unfold set_extent. keeps_session. Qed.

Lemma keeps_get_scale a : keeps (get_scale a).
Proof. unfold get_scale. keeps_session. Qed.

Lemma keeps_set_scale a b : keeps (set_scale a b).
Proof. unfold set_scale. keeps_session. Qed.

Lemma keeps_set_text a b : keeps (set_text a b).
Proof. unfold set_text. keeps_session. Qed.

Lemma keeps_simple_report self df : keeps (simple_report self df).
Proof.
  unfold simple_report.
  apply keeps_bind; [apply Rel_enter|intros _].
  apply keeps_bind; [apply keeps_lift|intros d1].
  apply keeps_bind; [apply keeps_lift|intros d2].
  apply keeps_bind; [apply keeps_lift|intros vs].
  apply keeps_if; [|apply keeps_mret].
  apply keeps_bind; [apply keeps_lift|intros]. apply keeps_mret.
Qed.

Lemma keeps_table_to_dataframe q names : keeps (table_to_dataframe q names).
Proof. unfold table_to_dataframe. keeps_session. Qed.

Lemma keeps_get_field_definition q n : keeps (get_field_definition q n).
Proof. unfold get_field_definition. keeps_session. Qed.

Lemma keeps_run_summary_analysis self sr : keeps (run_summary_analysis self sr).
Proof.
  unfold run_summary_analysis.
  apply keeps_bind; [apply Rel_enter|intros _].
  apply keeps_bind; [apply keeps_table_to_dataframe|intros].
  apply keeps_bind; [apply keeps_lift|intros].
  apply keeps_bind; [apply keeps_lift|intros].
  apply keeps_bind; [apply keeps_table_to_dataframe|intros].
  apply keeps_bind; [apply keeps_lift|intros].
  apply keeps_bind; [apply keeps_lift|intros].
  apply keeps_lift.
Qed.

(** The steps that write datasets, workspaces and files. *)
Hypothesis Rel_write_table : forall q t, keeps (write_table q t).
Hypothesis Rel_write_file : forall q d, keeps (write_file q d).
Hypothesis Rel_CreateFileGDB : forall q n, keeps (CreateFileGDB_management q n).

Ltac keeps_all :=
  repeat first
    [ progress intros
    | apply keeps_mret | apply keeps_raise | apply keeps_lift
    | apply keeps_read_table | apply keeps_get_session | apply Rel_put_session
    | apply Rel_enter | apply Rel_write_table | apply Rel_write_file
    | apply Rel_CreateFileGDB | apply keeps_Exists
    | apply keeps_replaceDataSource | apply keeps_getExtent
    | apply keeps_set_extent | apply keeps_get_scale | apply keeps_set_scale
    | apply keeps_set_text | apply keeps_simple_report
    | apply keeps_table_to_dataframe | apply keeps_get_field_definition
    | apply keeps_run_summary_analysis
    | apply keeps_for_each
    | apply keeps_bind
    | apply keeps_if
    | match goal with |- keeps (match ?x with _ => _ end) => destruct x end ].

Lemma keeps_add_constant_field a b c : keeps (add_constant_field a b c).
Proof.
  unfold add_constant_field, AddField_management, UpdateCursor_set. keeps_all.
Qed.

Lemma keeps_run_spatial_analysis self : keeps (run_spatial_analysis self).
Proof.
  unfold run_spatial_analysis.
  repeat (apply keeps_bind;
          [first [apply Rel_enter | apply keeps_add_constant_field | idtac]
          | intros]);
  try apply keeps_mret;
  unfold MakeFeatureLayer_management, SelectLayerByLocation_management,
    Buffer_analysis, CopyFeatures_management, Merge_management,
    Intersect_analysis; keeps_all.
Qed.

Lemma keeps_export_results_table self df gdb : keeps (export_results_table self df gdb).
Proof.
  unfold export_results_table, create_result_table, dataframe_to_table,
    CreateTable_management, AddField_management, InsertCursor_rows.
  keeps_all.
Qed.

Lemma keeps_generate_pdf_mxd self q df : keeps (generate_pdf_mxd self q df).
Proof.
  unfold generate_pdf_mxd, ExportToPDF, saveACopy.
  destruct (os_path_split q),
    (os_path_split (in_proposed_roads (tool_parameters self))).
  keeps_all.
Qed.

(** The stages of [run], after the output geodatabase is there. *)
Lemma keeps_run_stages self (k : path -> frame Q -> path -> M unit) :
  (forall sr df rt, keeps (k sr df rt)) ->
  keeps (sr ← run_spatial_analysis self;
         df ← run_summary_analysis self sr;
         rt ← export_results_table self df
                (os_path_join (out_folder (tool_parameters self)) "results.gdb");
         k sr df rt).
Proof.
  intros Hk.
  apply keeps_bind; [apply keeps_run_spatial_analysis|intros sr].
  apply keeps_bind; [apply keeps_run_summary_analysis|intros df].
  apply keeps_bind; [apply keeps_export_results_table|intros rt].
  apply Hk.
Qed.

Lemma keeps_CopyFeatures a b : keeps (CopyFeatures_management a b).
Proof. unfold CopyFeatures_management. keeps_all. Qed.

Lemma keeps_JoinField a b c d : keeps (JoinField_management a b c d).
Proof. unfold JoinField_management. keeps_all. Qed.

Lemma keeps_run self : keeps (run self).
Proof.
  unfold run.
  apply keeps_bind; [apply Rel_enter|intros _].
  apply keeps_bind; [apply keeps_Exists|intros ex].
  apply keeps_bind; [apply keeps_if; [apply Rel_CreateFileGDB|apply keeps_mret]|intros _].
  apply keeps_bind; [apply keeps_run_spatial_analysis|intros sr].
  apply keeps_bind; [apply keeps_run_summary_analysis|intros df].
  apply keeps_bind; [apply keeps_export_results_table|intros rt].
  unfold CopyFeatures_management, JoinField_management.
  apply keeps_bind; [keeps_all|intros _].
  apply keeps_bind; [keeps_all|intros _].
  apply keeps_generate_pdf_mxd.
Qed.

End Keeps.

(** ** The outputs of a run *)

Section Relations.
Context {G : Geometry}.

Lemma extends_refl w : extends w w.
Proof. repeat split; auto. Qed.

Lemma extends_trans w1 w2 w3 : extends w1 w2 -> extends w2 w3 -> extends w1 w3.
Proof. intros (?&?&?) (?&?&?). repeat split; auto. Qed.

Lemma extends_enter m : respects extends (enter m).
Proof. intros w. repeat split; simpl; auto. Qed.

Lemma extends_put_session s : respects extends (put_session s).
Proof. intros w. repeat split; simpl; auto. Qed.

Lemma extends_write_table q t : respects extends (write_table q t).
Proof.
  intros w. repeat split; simpl; auto. intros q' H.
  destruct (decide (q = q')) as [->|Hne].
  - rewrite lookup_insert_eq. eauto.
  - rewrite lookup_insert_ne by exact Hne. exact H.
Qed.

Lemma extends_write_file q d : respects extends (write_file q d).
Proof.
  intros w. repeat split; simpl; auto. intros q' H.
  destruct (decide (q = q')) as [->|Hne].
  - rewrite lookup_insert_eq. eauto.
  - rewrite lookup_insert_ne by exact Hne. exact H.
Qed.

Lemma extends_CreateFileGDB q n : respects extends (CreateFileGDB_management q n).
Proof. intros w. repeat split; simpl; auto. intros q' H. set_solver. Qed.

Lemma present_extends q w w' : present q w -> extends w w' -> present q w'.
Proof. intros [H|[H|H]] (H1 & H2 & H3); unfold present; auto. Qed.

Lemma static_refl w : static w w.
Proof. repeat split. Qed.

Lemma static_trans w1 w2 w3 : static w1 w2 -> static w2 w3 -> static w1 w3.
Proof. intros (?&?&?) (?&?&?). repeat split; etrans; eassumption. Qed.

Lemma static_enter m : respects static (enter m).
Proof. intros w. repeat split. Qed.

Lemma static_put_session s : respects static (put_session s).
Proof. intros w. repeat split. Qed.

End Relations.

Section StaticSteps.
Context {G : Geometry}.

Lemma static_replaceDataSource a b c d : respects static (replaceDataSource a b c d).
Proof.
  apply keeps_replaceDataSource;
    first [exact static_refl | exact static_trans | exact static_enter
          | exact static_put_session].
Qed.

Lemma static_getExtent a b : respects static (getExtent a b).
Proof.
  apply keeps_getExtent;
    first [exact static_refl | exact static_trans | exact static_enter
          | exact static_put_session].
Qed.

Lemma static_set_extent a b : respects static (set_extent a b).
Proof.
  apply keeps_set_extent;
    first [exact static_refl | exact static_trans | exact static_enter
          | exact static_put_session].
Qed.

Lemma static_get_scale a : respects static (get_scale a).
Proof.
  apply keeps_get_scale;
    first [exact static_refl | exact static_trans | exact static_enter
          | exact static_put_session].
Qed.

Lemma static_set_scale a b : respects static (set_scale a b).
Proof.
  apply keeps_set_scale;
    first [exact static_refl | exact static_trans | exact static_enter
          | exact static_put_session].
Qed.

Lemma static_set_text a b : respects static (set_text a b).
Proof.
  apply keeps_set_text;
    first [exact static_refl | exact static_trans | exact static_enter
          | exact static_put_session].
Qed.

Lemma static_simple_report self df : respects static (simple_report self df).
Proof.
  apply keeps_simple_report;
    first [exact static_refl | exact static_trans | exact static_enter
          | exact static_put_session].
Qed.

Lemma static_lift {A} (o : option A) : respects static (lift o).
Proof. apply keeps_lift. apply static_refl. Qed.

Lemma static_run_summary_analysis self sr :
  respects static (run_summary_analysis self sr).
Proof.
  apply keeps_run_summary_analysis;
    first [exact static_refl | exact static_trans | exact static_enter
          | exact static_put_session].
Qed.

End StaticSteps.

Create HintDb static discriminated.
#[export] Hint Resolve static_replaceDataSource static_getExtent static_set_extent
  static_get_scale static_set_scale static_set_text static_simple_report
  static_lift static_enter : static.

(** A step of a returned computation that keeps the datasets and files. *)
Ltac to_static H :=
  eapply (keeps_step static) in H; [|solve [eauto with static]].

Section Outputs.
Context {G : Geometry}.
Variable self : tool.

Lemma AddField_eq q fd w t :
  tables w !! q = Some t ->
  AddField_management q fd w = (Some tt, put_table q (add_field fd t) w).
Proof.
  intros H. unfold AddField_management.
  rewrite (M_bind_eq _ _ _ _ _ (read_table_eq _ _ _ H)). reflexivity.
Qed.

Lemma put_table_twice q t1 t2 w :
  put_table q t2 (put_table q t1 w) = put_table q t2 w.
Proof. unfold put_table. simpl. rewrite insert_insert_eq. reflexivity. Qed.

(** The loop that adds the fields of a list to a table. *)
Lemma add_fields_eq q (fds : list field_def) w t :
  for_each (Some <$> fds)
           (fun fld => fd ← lift fld; AddField_management q fd)
           (put_table q t w)
  = (Some tt, put_table q (foldl (fun t fd => add_field fd t) t fds) w).
Proof.
  revert t. induction fds as [|fd fds IH]; intros t.
  - reflexivity.
  - cbn [fmap list_fmap for_each foldr foldl].
    assert (E : (lift (Some fd) ≫= fun fd => AddField_management q fd) (put_table q t w)
                = (Some tt, put_table q (add_field fd t) w)).
    { rewrite (M_bind_eq _ _ _ _ _
                 (eq_refl : lift (Some fd) (put_table q t w) = (Some fd, _))).
      erewrite AddField_eq by (cbn [tables put_table]; apply lookup_insert_eq).
      rewrite put_table_twice. reflexivity. }
    rewrite (M_bind_eq _ _ _ _ _ E). apply IH.
Qed.

Lemma add_field_new fd fields rows :
  existsb (String.eqb (field_name fd)) (field_name <$> fields) = false ->
  add_field fd (Table fields rows) = Table (fields ++ [fd]) rows.
Proof. unfold add_field, has_field, field_names. simpl. intros ->. reflexivity. Qed.

Lemma result_field_defs_names : field_name <$> result_field_defs = result_field_names.
Proof. reflexivity. Qed.

Lemma result_field_defs_types :
  field_type <$> result_field_defs = replicate 6 "DOUBLE"%string.
Proof. reflexivity. Qed.

Lemma not_result_field name :
  name ∉ result_field_names ->
  String.eqb "watershed_area" name = false /\
  String.eqb "proposed_road_length" name = false /\
  String.eqb "existing_road_length" name = false /\
  String.eqb "total_road_length" name = false /\
  String.eqb "original_road_density" name = false /\
  String.eqb "future_road_density" name = false.
Proof.
  intros H. repeat split; apply String.eqb_neq; intros <-; apply H;
    unfold result_field_names; set_solver.
Qed.

(** The table of the results when it is created: the key field, then the
    six fields of the results. *)
Lemma create_result_table_Some gdb name kd w q w' :
  create_result_table gdb name kd w = (Some q, w') ->
  (forall k, kd = Some k -> field_name k ∉ result_field_names) ->
  exists k,
    kd = Some k /\ q = os_path_join gdb name /\
    tables w' = <[q := Table (k :: result_field_defs) []]> (tables w) /\
    geodatabases w' = geodatabases w /\ files w' = files w /\
    session w' = session w.
Proof.
  intros H Hk. destruct kd as [k|].
  2:{ exfalso. unfold create_result_table in H. revert H.
      unfold mbind, M_bind, bind. simpl. discriminate. }
  exists k. split; [reflexivity|].
  destruct (not_result_field _ (Hk k eq_refl)) as (E1 & E2 & E3 & E4 & E5 & E6).
  revert H. unfold create_result_table.
  rewrite (M_bind_eq _ _ _ _ _ (enter_eq _ _)).
  unfold CreateTable_management.
  rewrite (M_bind_eq _ _ _ _ _ (eq_refl : write_table _ _ _ = (Some tt, _))).
  change (result_fields (Some k)) with (Some <$> (k :: result_field_defs)).
  rewrite (M_bind_eq _ _ _ _ _ (add_fields_eq _ _ _ _)).
  intros H; inversion H; subst; clear H.
  split; [reflexivity|].
  cbn [foldl]. unfold result_field_defs. cbn [omap list_omap tail result_fields id].
  repeat (rewrite add_field_new by
    (cbn [fmap list_fmap field_name existsb];
     rewrite ?E1, ?E2, ?E3, ?E4, ?E5, ?E6; reflexivity); cbn [app]).
  cbn [tables put_table geodatabases files session]. auto.
Qed.

Lemma get_field_definition_Some q name w kd w' :
  get_field_definition q name w = (Some kd, w') ->
  tables w' = tables w /\ geodatabases w' = geodatabases w /\
  files w' = files w /\ session w' = session w /\
  forall k, kd = Some k -> field_name k = name.
Proof.
  unfold get_field_definition. intros H.
  mstep. inversion Hstep; subst; clear Hstep.
  mstep. unfold read_table in Hstep. inversion Hstep; subst; clear Hstep.
  apply mret_Some in H as (-> & ->). simpl.
  repeat split; try reflexivity.
  intros k Hk.
  destruct (List.filter _ _) as [|f fs] eqn:Ef; [discriminate Hk|].
  inversion Hk; subst k; clear Hk. simpl.
  assert (Hin : In f (f :: fs)) by (left; reflexivity).
  rewrite <- Ef in Hin.
  apply filter_In in Hin as (_ & E). apply String.eqb_eq, E.
Qed.

Lemma dataframe_to_table_Some df q fields w r w' :
  dataframe_to_table df q fields w = (Some r, w') ->
  exists t rows,
    tables w !! q = Some t /\
    tables w' = <[q := Table (tbl_fields t) rows]> (tables w) /\
    geodatabases w' = geodatabases w /\ files w' = files w /\
    session w' = session w.
Proof.
  unfold dataframe_to_table, InsertCursor_rows. intros H.
  mstep. inversion Hstep; subst; clear Hstep.
  mstep. apply lift_Some in Hstep as (_ & ->).
  mstep. unfold read_table in Hstep. inversion Hstep; subst; clear Hstep.
  destruct (forallb _ _); [|discriminate H].
  inversion H; subst; clear H. simpl in *.
  eexists _, _. split; [eassumption|]. auto.
Qed.

Lemma export_results_table_Some df gdb w rt w' :
  export_results_table self df gdb w = (Some rt, w') ->
  in_watershed_id (tool_parameters self) ∉ result_field_names ->
  rt = os_path_join gdb "Results" /\
  exists k rows,
    field_name k = in_watershed_id (tool_parameters self) /\
    tables w' = <[rt := Table (k :: result_field_defs) rows]> (tables w) /\
    geodatabases w' = geodatabases w /\ files w' = files w /\
    session w' = session w.
Proof.
  unfold export_results_table. intros H Hkey.
  mstep. inversion Hstep; subst; clear Hstep.
  mstep. apply get_field_definition_Some in Hstep as (Ht1 & Hg1 & Hf1 & Hs1 & Hk).
  mstep. apply create_result_table_Some in Hstep
    as (k & -> & -> & Ht2 & Hg2 & Hf2 & Hs2).
  2:{ intros k ->%Hk. exact Hkey. }
  mstep. apply dataframe_to_table_Some in Hstep
    as (t & rows & Ht & Ht3 & Hg3 & Hf3 & Hs3).
  apply mret_Some in H as (-> & ->).
  split; [reflexivity|].
  rewrite Ht2, lookup_insert_eq in Ht. inversion Ht; subst t; clear Ht.
  exists k, rows. split; [apply Hk; reflexivity|].
  rewrite Ht3, Ht2, insert_insert_eq, Ht1. simpl.
  rewrite Hg3, Hg2, Hg1, Hf3, Hf2, Hf1, Hs3, Hs2, Hs1. auto.
Qed.

Lemma CopyFeatures_Some a b w r w' :
  CopyFeatures_management a b w = (Some r, w') ->
  exists t, tables w' = <[b := t]> (tables w) /\
    geodatabases w' = geodatabases w /\ files w' = files w /\
    session w' = session w.
Proof.
  unfold CopyFeatures_management. intros H.
  mstep. unfold read_table in Hstep. inversion Hstep; subst; clear Hstep.
  inversion H; subst; clear H. eexists. simpl. auto.
Qed.

Lemma JoinField_Some a f b g w r w' :
  JoinField_management a f b g w = (Some r, w') ->
  exists t, tables w' = <[a := t]> (tables w) /\
    geodatabases w' = geodatabases w /\ files w' = files w /\
    session w' = session w.
Proof.
  unfold JoinField_management. intros H.
  mstep. unfold read_table in Hstep. inversion Hstep; subst; clear Hstep.
  mstep. unfold read_table in Hstep. inversion Hstep; subst; clear Hstep.
  destruct (_ && _); [|discriminate H].
  inversion H; subst; clear H. eexists. simpl. auto.
Qed.

(** The report stage writes the two files and nothing else. *)
Lemma generate_pdf_mxd_Some q df w r w' :
  generate_pdf_mxd self q df w = (Some r, w') ->
  tables w' = tables w /\ geodatabases w' = geodatabases w /\
  exists s1 s2,
    files w' =
      <[os_path_join (out_folder (tool_parameters self)) "result.mxd" := Mxd s2]>
      (<[os_path_join (out_folder (tool_parameters self)) "result.pdf" :=
           Pdf s1 (image_quality (tool_config self))]> (files w)).
Proof.
  unfold generate_pdf_mxd. intros H.
  destruct (os_path_split q) as [ws1 ds1].
  destruct (os_path_split (in_proposed_roads (tool_parameters self))) as [ws2 ds2].
  do 15 mstep.
  repeat match goal with
         | Hs : _ _ = (Some _, _) |- _ =>
             lazymatch type of Hs with
             | ExportToPDF _ _ _ = _ => fail
             | saveACopy _ _ = _ => fail
             | _ => to_static Hs
             end
         end.
  match goal with
  | Hp : ExportToPDF _ _ ?wa = (Some _, _) |- _ =>
      assert (Hst : static w wa)
        by (repeat (eapply static_trans; [eassumption|]); apply static_refl);
      unfold ExportToPDF in Hp;
      apply M_bind_Some in Hp as (s1 & wp & Ha & Hb);
      inversion Ha; subst; clear Ha; inversion Hb; subst; clear Hb
  end.
  unfold saveACopy in H.
  apply M_bind_Some in H as (s2 & wb & Ha & Hb).
  inversion Ha; subst; clear Ha. inversion Hb; subst; clear Hb.
  destruct Hst as (Ht & Hg & Hf). simpl. rewrite Hf.
  split; [exact Ht|]. split; [exact Hg|]. eauto.
Qed.

End Outputs.

Section RunClaims.
Context {G : Geometry}.
Variable self : tool.

Lemma extends_run_stages (k : path -> frame Q -> path -> M unit) :
  (forall sr df rt, respects extends (k sr df rt)) ->
  respects extends
    (sr ← run_spatial_analysis self;
     df ← run_summary_analysis self sr;
     rt ← export_results_table self df
            (os_path_join (out_folder (tool_parameters self)) "results.gdb");
     k sr df rt).
Proof.
  apply keeps_run_stages;
    first [exact extends_refl | exact extends_trans | exact extends_enter
          | exact extends_put_session | exact extends_write_table
          | exact extends_write_file | exact extends_CreateFileGDB].
Qed.

Lemma extends_run_tail gdb key (df : frame Q) rt :
  respects extends
    (CopyFeatures_management (in_watershed (tool_parameters self))
                             (os_path_join gdb "result_polygons");;
     JoinField_management (os_path_join gdb "result_polygons") key rt key;;
     generate_pdf_mxd self (os_path_join gdb "result_polygons") df).
Proof.
  apply keeps_bind; [exact extends_trans | | intros _].
  { apply keeps_CopyFeatures;
      first [exact extends_refl | exact extends_trans | exact extends_write_table]. }
  apply keeps_bind; [exact extends_trans | | intros _].
  { apply keeps_JoinField;
      first [exact extends_refl | exact extends_trans | exact extends_write_table]. }
  apply keeps_generate_pdf_mxd;
    first [exact extends_refl | exact extends_trans | exact extends_enter
          | exact extends_put_session | exact extends_write_file].
Qed.

(** C4. A run that completes leaves the output geodatabase results.gdb in
    the output folder, in it the table Results whose fields are the key
    field of the watersheds followed by the six DOUBLE fields of the
    results, and in the output folder the files result.pdf and
    result.mxd. *)
Theorem run_emits_table_and_report w w' :
  run self w = (Some tt, w') ->
  let out := out_folder (tool_parameters self) in
  let output_gdb := os_path_join out "results.gdb" in
  present output_gdb w' /\
  (exists k rows,
     tables w' !! os_path_join output_gdb "Results"
       = Some (Table (k :: result_field_defs) rows) /\
     field_name k = in_watershed_id (tool_parameters self)) /\
  field_name <$> result_field_defs
    = ["watershed_area"; "proposed_road_length"; "existing_road_length";
       "total_road_length"; "original_road_density"; "future_road_density"] /\
  field_type <$> result_field_defs = replicate 6 "DOUBLE"%string /\
  (exists s, files w' !! os_path_join out "result.pdf"
             = Some (Pdf s (image_quality (tool_config self)))) /\
  (exists s, files w' !! os_path_join out "result.mxd" = Some (Mxd s)).
Proof.
  intros H out output_gdb. unfold run in H. fold out output_gdb in H.
  mstep_as a0 w0 H0. inversion H0; subst; clear H0.
  mstep_as found w1 H1.
  mstep_as a2 w2 H2.
  (* the geodatabase is there before the stages *)
  assert (Hgdb : present output_gdb w2).
  { unfold arcpy_Exists in H1. inversion H1; subst; clear H1.
    destruct (bool_decide (output_gdb ∈ _)) eqn:E1; simpl in H2.
    - inversion H2; subst. left. apply bool_decide_eq_true in E1. exact E1.
    - destruct (bool_decide (is_Some (tables _ !! output_gdb))) eqn:E2; simpl in H2.
      + inversion H2; subst. right; left. apply bool_decide_eq_true in E2. exact E2.
      + destruct (bool_decide (is_Some (files _ !! output_gdb))) eqn:E3; simpl in H2.
        * inversion H2; subst. right; right. apply bool_decide_eq_true in E3. exact E3.
        * inversion H2; subst. left. simpl. apply list_elem_of_here. }
  split.
  { eapply present_extends; [exact Hgdb|].
    eapply (keeps_step extends); [|exact H].
    apply extends_run_stages. intros sr df rt. apply extends_run_tail. }
  clear Hgdb H1 H2.
  mstep_as sr w3 H3. mstep_as df w4 H4.
  apply run_summary_analysis_key in H4 as (Hkey & _).
  mstep_as rt w5 H5.
  apply export_results_table_Some in H5 as (-> & k & rows & Hk & Ht5 & _);
    [|exact Hkey].
  mstep_as a6 w6 H6. apply CopyFeatures_Some in H6 as (t6 & Ht6 & _).
  mstep_as a7 w7 H7. apply JoinField_Some in H7 as (t7 & Ht7 & _).
  apply generate_pdf_mxd_Some in H as (Ht & _ & s1 & s2 & Hf).
  split.
  { exists k, rows. split; [|exact Hk].
    rewrite Ht, Ht7, Ht6, Ht5.
    rewrite !lookup_insert_ne by (apply os_path_join_ne; discriminate).
    apply lookup_insert_eq. }
  split; [reflexivity|]. split; [reflexivity|].
  fold out in Hf. rewrite Hf. split.
  - exists s1. rewrite lookup_insert_ne by (apply os_path_join_ne; discriminate).
    apply lookup_insert_eq.
  - exists s2. apply lookup_insert_eq.
Qed.

(** C6. [run] goes through the four stages in one order: the spatial
    analysis, the summary analysis, the export of the table and the report.
    Whatever the state, the stages entered are the first ones of that list,
    each once, and all four when [run] returns. *)
Theorem run_stages_in_order w :
  exists l,
    trace (run self w).2 = trace w ++ l /\
    stages l `prefix_of`
      [m_run_spatial_analysis; m_run_summary_analysis; m_export_results_table;
       m_generate_pdf_mxd] /\
    (is_Some (run self w).1 ->
     stages l = [m_run_spatial_analysis; m_run_summary_analysis;
                 m_export_results_table; m_generate_pdf_mxd]).
Proof. exact (emits_run self w). Qed.

End RunClaims.

(** ** The example, through the whole run *)

Section ExampleRun.
Import Cells.

Lemma only_roads_in_buffer_count_witness :
  exists w',
    run_spatial_analysis ex_tool ex_world
      = (Some (os_path_join ["scratch.gdb"] "intersected_roads_watershed"), w') /\
    tables w' !! os_path_join ["scratch.gdb"] "stream_buffer"
      = Some (stream_buffer ex_streams ex_watersheds "100 Meters") /\
    tables w' !! os_path_join ["scratch.gdb"] "intersected_roads_watershed"
      = Some (spatial_result ex_streams ex_watersheds ex_roads ex_proposed "100 Meters").
Proof.
  refine (proj1 (proj2 (proj2
    (only_roads_in_buffer_count ex_tool ex_world ex_streams ex_watersheds
       ex_roads ex_proposed _ _ _ _ _ _ _)))).
  - vm_compute. reflexivity.
  - vm_compute. reflexivity.
  - vm_compute. reflexivity.
  - vm_compute. reflexivity.
  - by_evaluation.
  - by_evaluation.
  - by_evaluation.
Defined.

Lemma networks_counted_apart_witness :
  exists w1 original_roads,
    run_spatial_analysis ex_tool ex_world
      = (Some (os_path_join ["scratch.gdb"] "intersected_roads_watershed"), w1) /\
    tables w1 !! os_path_join ["scratch.gdb"] "original_roads" = Some original_roads /\
    length (tbl_rows original_roads) = length (tbl_rows ex_roads) /\
    (forall r, r ∈ tbl_rows original_roads ->
       field_value "ROAD_TYPE" r = VText "Pre-Development").
Proof.
  destruct (proj2 (networks_counted_apart ex_tool ex_world ex_streams ex_watersheds
                     ex_roads ex_proposed
                     ltac:(vm_compute; reflexivity) ltac:(vm_compute; reflexivity)
                     ltac:(vm_compute; reflexivity) ltac:(vm_compute; reflexivity)
                     ltac:(by_evaluation) ltac:(by_evaluation) ltac:(by_evaluation)))
    as (w1 & original_roads & _ & _ & Hrun & Ho & Hlen & Htype & _).
  exists w1, original_roads. auto.
Defined.

Lemma report_change_is_absolute_difference_witness :
  exists shown : list (frame_row Q),
    (forall r, r ∈ shown -> r ∈ fr_rows ex_frame) /\
    default ""%string ex_report.1 =
      match shown with
      | [] => "Unable to find assessment data"
      | _ =>
          join_lines
            (report_header "WS_ID" ::
             ((fun r : frame_row Q =>
                 truncate 27 r.1 +:+ " " +:+
                 format_6f (cell r.2 "original_road_density") +:+ " " +:+
                 format_6f (cell r.2 "future_road_density") +:+ " " +:+
                 format_6f (Qabs (cell r.2 "original_road_density" -
                                  cell r.2 "future_road_density")))
                <$> shown))
      end.
Proof.
  apply (report_change_is_absolute_difference ex_tool ex_frame ex_summary.2
           (default ""%string ex_report.1) ex_report.2).
  apply (result_eta ex_report), default_is_Some. by_evaluation.
Defined.

Lemma run_emits_table_and_report_witness :
  present ["out"; "results.gdb"] ex_run.2 /\
  (exists s, files ex_run.2 !! ["out"; "result.pdf"] = Some (Pdf s "BEST")) /\
  (exists s, files ex_run.2 !! ["out"; "result.mxd"] = Some (Mxd s)).
Proof.
  destruct (run_emits_table_and_report ex_tool ex_world ex_run.2)
    as (Hgdb & _ & _ & _ & Hpdf & Hmxd).
  - apply (result_eta ex_run). vm_compute. reflexivity.
  - auto.
Defined.

Lemma run_stages_in_order_witness :
  exists l,
    trace ex_run.2 = trace ex_world ++ l /\
    stages l = [m_run_spatial_analysis; m_run_summary_analysis;
                m_export_results_table; m_generate_pdf_mxd].
Proof.
  destruct (run_stages_in_order ex_tool ex_world) as (l & Hl & _ & Hall).
  exists l. split; [exact Hl|]. apply Hall. by_evaluation.
Defined.

Lemma report_top_twenty_witness :
  (exists sorted,
     sorted ≡ₚ fr_rows ex_frame /\ Sorted by_decreasing_change sorted /\
     default ""%string ex_report.1
       = join_lines (report_header "WS_ID" :: (report_row <$> take 20 sorted))) /\
  exists w',
    simple_report ex_tool
      (Frame "WS_ID" ["original_road_density"; "future_road_density"] [])
      ex_world
      = (Some "Unable to find assessment data"%string, w').
Proof.
  split.
  - destruct (proj1 (report_top_twenty ex_tool ex_frame ex_summary.2)
                (default ""%string ex_report.1) ex_report.2)
      as (sorted & shown & Hperm & Hsorted & -> & _ & _ & Htext).
    + apply (result_eta ex_report), default_is_Some. by_evaluation.
    + exists sorted. split; [exact Hperm|]. split; [exact Hsorted|].
      assert (Hne : is_Some (head (fr_rows ex_frame))) by by_evaluation.
      destruct (fr_rows ex_frame); [destruct Hne; discriminate | exact Htext].
  - apply (proj2 (report_top_twenty ex_tool
                    (Frame "WS_ID" ["original_road_density"; "future_road_density"] [])
                    ex_world)).
    + reflexivity.
    + by_evaluation.
    + by_evaluation.
    + reflexivity.
    + discriminate.
Defined.

End ExampleRun.

(** ** More on [get_map_scale] *)

Section MapScale.
Import MapSession.
Local Open Scope Z_scope.

Lemma has_digits_below (k : nat) (z : Z) :
  0 <= z < 10 ^ Z.of_nat k -> exists n, has_digits z n /\ (n <= Nat.max 1 k)%nat.
Proof.
  induction k as [|k IH]; intros [Hz Hk].
  - exists 1%nat. change (10 ^ Z.of_nat 0) with 1 in Hk.
    repeat split; lia.
  - destruct (Z_lt_le_dec z (10 ^ Z.of_nat k)) as [Hlt|Hge].
    + destruct IH as (n & Hn & Hle); [lia|]. exists n. split; [exact Hn | lia].
    + exists (S k). split; [|lia]. split; [lia|]. split; [lia|].
      right. replace (Z.of_nat (S k) - 1) with (Z.of_nat k) by lia. exact Hge.
Qed.

Lemma has_digits_exists (z : Z) : 0 <= z -> exists n, has_digits z n.
Proof.
  intros Hz. destruct (has_digits_below (Z.to_nat z) z) as (n & Hn & _).
  - split; [exact Hz|]. rewrite Z2Nat.id by exact Hz.
    apply Z.pow_gt_lin_r; lia.
  - exists n. exact Hn.
Qed.

Lemma has_digits_unique (z : Z) (n m : nat) :
  has_digits z n -> has_digits z m -> n = m.
Proof.
  intros Hn Hm.
  rewrite <- (py_len_str_digits z n Hn). apply py_len_str_digits, Hm.
Qed.

(** [get_map_scale] through the digit count of the integer part. *)
Lemma get_map_scale_digits (x : Q) (n : nat) :
  has_digits (py_int x) n ->
  get_map_scale x
  = match r_of_digits n with
    | Some r => Some (py_ceil (x / inject_Z r) * r)
    | None => None
    end.
Proof.
  intros Hd. unfold get_map_scale.
  rewrite (py_len_str_digits _ _ Hd), scaleround_lookup. reflexivity.
Qed.

Lemma py_int_nonneg (x : Q) : (0 <= x)%Q -> 0 <= py_int x.
Proof.
  intros Hx. unfold py_int. apply Z.quot_pos; [|lia].
  unfold Qle in Hx. simpl in Hx. lia.
Qed.

Lemma py_int_le (x : Q) : (0 <= x)%Q -> (inject_Z (py_int x) <= x)%Q.
Proof.
  intros Hx. unfold py_int. destruct x as [a b].
  unfold Qle in *. simpl in *.
  rewrite Z.quot_div_nonneg by lia.
  rewrite Z.mul_1_r in *. rewrite Z.mul_comm. apply Z.mul_div_le. lia.
Qed.

Lemma py_int_lt (x : Q) : (0 <= x)%Q -> (x < inject_Z (py_int x + 1))%Q.
Proof.
  intros Hx. unfold py_int. destruct x as [a b].
  unfold Qle, Qlt in *. simpl in *.
  rewrite Z.quot_div_nonneg by lia.
  rewrite Z.mul_1_r in *.
  pose proof (Z.mul_succ_div_gt a (Zpos b) ltac:(lia)). lia.
Qed.

Lemma py_int_inject (m : Z) : py_int (inject_Z m) = m.
Proof. unfold py_int. simpl. apply Z.quot_1_r. Qed.

Lemma ceil_mul_exact (k r : Z) :
  0 < r -> py_ceil (inject_Z (k * r) / inject_Z r) * r = k * r.
Proof.
  intros Hr. unfold py_ceil. f_equal.
  rewrite <- (Qceiling_Z k) at 2. apply Qceiling_comp.
  rewrite inject_Z_mult. field.
  intros E. apply (Qlt_irrefl 0). rewrite <- E at 2.
  change 0%Q with (inject_Z 0). rewrite <- Zlt_Qlt. exact Hr.
Qed.

Lemma r_of_digits_cases (n : nat) (r : Z) :
  r_of_digits n = Some r ->
  n = 1%nat /\ r = 1 \/ n = 2%nat /\ r = 5 \/ n = 3%nat /\ r = 25 \/
  n = 4%nat /\ r = 250 \/ n = 5%nat /\ r = 2500 \/ n = 6%nat /\ r = 5000 \/
  n = 7%nat /\ r = 100000 \/ n = 8%nat /\ r = 250000 \/
  n = 9%nat /\ r = 1000000.
Proof.
  do 10 (destruct n as [|n]; [simpl; intros; simplify_eq; tauto|]).
  discriminate.
Qed.

(** The step of [n] digits divides the first number of [n + 1] digits. *)
Lemma r_of_digits_divides (n : nat) (r : Z) :
  r_of_digits n = Some r -> (r | 10 ^ Z.of_nat n).
Proof.
  intros Hr. apply r_of_digits_cases in Hr.
  repeat (destruct Hr as [[-> ->]|Hr];
          [apply Z.mod_divide; [lia | vm_compute; reflexivity]|]).
  destruct Hr as [-> ->]. apply Z.mod_divide; [lia | vm_compute; reflexivity].
Qed.

Lemma Qle_inject_Z (a b : Z) : (inject_Z a <= inject_Z b)%Q -> a <= b.
Proof. intros H. rewrite Zle_Qle. exact H. Qed.

Lemma digits_lower (x : Q) (n : nat) :
  (0 < x)%Q -> has_digits (py_int x) n ->
  n = 1%nat \/ (inject_Z (10 ^ (Z.of_nat n - 1)) <= x)%Q.
Proof.
  intros Hx (_ & _ & [Hn|Hlo]); [left; exact Hn|right].
  eapply Qle_trans; [|apply py_int_le, Qlt_le_weak, Hx].
  rewrite <- Zle_Qle. exact Hlo.
Qed.

Lemma digits_upper (x : Q) (n : nat) :
  (0 < x)%Q -> has_digits (py_int x) n -> (x <= inject_Z (10 ^ Z.of_nat n))%Q.
Proof.
  intros Hx (_ & [_ Hhi] & _).
  eapply Qle_trans; [apply Qlt_le_weak, py_int_lt, Qlt_le_weak, Hx|].
  rewrite <- Zle_Qle. lia.
Qed.

(** The result for a positive scale with [n] digits: a multiple of the
    step, between the scale and the first number of [n + 1] digits. *)
Lemma get_map_scale_bounds (x : Q) (n : nat) (r : Z) :
  (0 < x)%Q -> has_digits (py_int x) n -> r_of_digits n = Some r ->
  let m := py_ceil (x / inject_Z r) * r in
  get_map_scale x = Some m /\ (r | m) /\ (x <= inject_Z m)%Q /\
  m <= 10 ^ Z.of_nat n /\ 0 < m.
Proof.
  intros Hx Hd Hr m.
  pose proof (r_of_digits_pos _ _ Hr) as Hrpos.
  assert (Hge : (x <= inject_Z m)%Q) by (apply ceil_mul_ge; exact Hrpos).
  split; [rewrite (get_map_scale_digits x n Hd), Hr; reflexivity|].
  split; [apply Z.divide_factor_r|].
  split; [exact Hge|].
  split.
  - destruct (r_of_digits_divides n r Hr) as [k Hk]. rewrite Hk.
    apply ceil_mul_least; [exact Hrpos|]. rewrite <- Hk.
    apply digits_upper; assumption.
  - apply Z.lt_le_trans with 1; [lia|].
    assert (0 < m); [|lia].
    rewrite Zlt_Qlt. eapply Qlt_le_trans; [exact Hx | exact Hge].
Qed.

Lemma get_map_scale_Some (x : Q) (m : Z) :
  (0 < x)%Q -> get_map_scale x = Some m ->
  exists n r, has_digits (py_int x) n /\ r_of_digits n = Some r /\
              m = py_ceil (x / inject_Z r) * r.
Proof.
  intros Hx Hm.
  destruct (has_digits_exists (py_int x)) as [n Hd];
    [apply py_int_nonneg, Qlt_le_weak, Hx|].
  rewrite (get_map_scale_digits x n Hd) in Hm.
  destruct (r_of_digits n) as [r|] eqn:Hr; [|discriminate].
  exists n, r. split; [exact Hd|]. split; [exact Hr|].
  inversion Hm. reflexivity.
Qed.

(** X1. A scale that [get_map_scale] returns for a positive scale is
    kept by [get_map_scale], as long as it is below [10 ^ 9]. *)
Theorem get_map_scale_fixed_point (x : Q) (m : Z) :
  (0 < x)%Q -> get_map_scale x = Some m -> m < 10 ^ 9 ->
  get_map_scale (inject_Z m) = Some m.
Proof.
  intros Hx Hm Hlt.
  destruct (get_map_scale_Some x m Hx Hm) as (n & r & Hd & Hr & Heq).
  destruct (get_map_scale_bounds x n r Hx Hd Hr) as (_ & [k Hk] & Hge & Hle & Hpos).
  rewrite <- Heq in Hk, Hge, Hle, Hpos. clear Heq Hm.
  pose proof (r_of_digits_pos _ _ Hr) as Hrpos.
  destruct (Z_lt_le_dec m (10 ^ Z.of_nat n)) as [Hin|Hout].
  - assert (Hdm : has_digits (py_int (inject_Z m)) n).
    { rewrite py_int_inject. pose proof Hd as (H1 & _ & _).
      split; [exact H1|]. split; [lia|].
      destruct (digits_lower x n Hx Hd) as [E|Hlo]; [left; exact E|right].
      apply Qle_inject_Z. eapply Qle_trans; [exact Hlo | exact Hge]. }
    rewrite (get_map_scale_digits _ n Hdm), Hr, Hk.
    rewrite ceil_mul_exact by exact Hrpos. reflexivity.
  - assert (m = 10 ^ Z.of_nat n) as -> by lia.
    apply r_of_digits_cases in Hr.
    repeat (destruct Hr as [[-> _]|Hr]; [vm_compute; reflexivity|]).
    destruct Hr as [-> _]. simpl in Hlt. lia.
Qed.

Lemma get_map_scale_fixed_point_witness :
  get_map_scale (12345 # 1) = Some 12500 /\
  get_map_scale (inject_Z 12500) = Some 12500.
Proof.
  split; [vm_compute; reflexivity|].
  apply (get_map_scale_fixed_point (12345 # 1) 12500);
    [reflexivity | vm_compute; reflexivity | reflexivity].
Defined.

(** X2. [get_map_scale] is monotone on positive scales: a larger scale
    never gets a smaller result. *)
Theorem get_map_scale_monotone (x y : Q) (a b : Z) :
  (0 < x)%Q -> (x <= y)%Q ->
  get_map_scale x = Some a -> get_map_scale y = Some b ->
  a <= b.
Proof.
  intros Hx Hxy Ha Hb.
  assert (Hy : (0 < y)%Q) by (eapply Qlt_le_trans; eassumption).
  destruct (get_map_scale_Some x a Hx Ha) as (n & r & Hd & Hr & Ea).
  destruct (get_map_scale_Some y b Hy Hb) as (n' & r' & Hd' & Hr' & Eb).
  destruct (get_map_scale_bounds x n r Hx Hd Hr) as (_ & _ & Hxa & Han & _).
  destruct (get_map_scale_bounds y n' r' Hy Hd' Hr') as (_ & _ & Hyb & _ & _).
  rewrite <- Ea in Hxa, Han. rewrite <- Eb in Hyb.
  pose proof Hd as (Hn1 & _). pose proof Hd' as (Hn1' & _).
  destruct (lt_eq_lt_dec n n') as [[Hlt|Heq]|Hgt].
  - (* fewer digits *)
    destruct (digits_lower y n' Hy Hd') as [E|Hlo]; [lia|].
    apply Z.le_trans with (10 ^ Z.of_nat n); [exact Han|].
    apply Z.le_trans with (10 ^ (Z.of_nat n' - 1)).
    + apply Z.pow_le_mono_r; lia.
    + apply Qle_inject_Z. eapply Qle_trans; [exact Hlo | exact Hyb].
  - (* as many digits: the same step *)
    subst n'. rewrite Hr in Hr'. inversion Hr'; subst r'.
    rewrite Ea, Eb. pose proof (r_of_digits_pos _ _ Hr) as Hrpos.
    apply Z.mul_le_mono_nonneg_r; [lia|].
    apply Qceiling_resp_le.
    apply Qmult_le_compat_r; [exact Hxy|].
    apply Qlt_le_weak, Qinv_lt_0_compat.
    change 0%Q with (inject_Z 0). rewrite <- Zlt_Qlt. exact Hrpos.
  - (* more digits: impossible *)
    exfalso.
    destruct (digits_lower x n Hx Hd) as [E|Hlo]; [lia|].
    pose proof (digits_upper y n' Hy Hd') as Hhi.
    assert (H1 : 10 ^ (Z.of_nat n - 1) <= 10 ^ Z.of_nat n').
    { apply Qle_inject_Z.
      eapply Qle_trans; [exact Hlo|]. eapply Qle_trans; [exact Hxy | exact Hhi]. }
    assert (H2 : 10 ^ Z.of_nat n' <= 10 ^ (Z.of_nat n - 1))
      by (apply Z.pow_le_mono_r; lia).
    assert (E : 10 ^ Z.of_nat n' = 10 ^ (Z.of_nat n - 1)) by lia.
    (* then [y] is the first number of [n' + 1] digits *)
    destruct Hd' as (_ & [_ Hhi'] & _).
    assert (Hy' : (inject_Z (10 ^ Z.of_nat n') <= y)%Q).
    { rewrite E. eapply Qle_trans; [exact Hlo | exact Hxy]. }
    assert (Hi : (y < inject_Z (py_int y + 1))%Q)
      by (apply py_int_lt, Qlt_le_weak, Hy).
    assert (10 ^ Z.of_nat n' < py_int y + 1).
    { rewrite Zlt_Qlt. eapply Qle_lt_trans; [exact Hy' | exact Hi]. }
    lia.
Qed.

Lemma get_map_scale_monotone_witness : 1000 <= 12500.
Proof.
  apply (get_map_scale_monotone (999 # 1) (12345 # 1) 1000 12500);
    [reflexivity | vm_compute; discriminate
    | vm_compute; reflexivity | vm_compute; reflexivity].
Defined.

Lemma py_len_str_negative (z : Z) (n : nat) :
  z < 0 -> has_digits (- z) n -> py_len (py_str z) = S n.
Proof.
  intros Hz Hd. destruct z as [|p|p]; try lia.
  apply py_len_str_digits in Hd. simpl in Hd.
  unfold py_len, py_str, pretty, pretty_Z in *. simpl. f_equal. exact Hd.
Qed.

(** X3. For a scale with a negative integer part the minus sign counts as
    a digit: when the integer part has [n] digits after the sign, the step
    is the one of [n + 1] digits, and [get_map_scale] returns the smallest
    multiple of that step that is not below the scale, and fails (the
    KeyError) when [n] is 9 or more. *)
Theorem get_map_scale_negative (x : Q) (n : nat) :
  py_int x < 0 -> has_digits (- py_int x) n ->
  ((n <= 8)%nat ->
     exists r m, r_of_digits (S n) = Some r /\
       get_map_scale x = Some m /\
       (r | m) /\
       (x <= inject_Z m)%Q /\
       forall m', (r | m') -> (x <= inject_Z m')%Q -> m <= m') /\
  ((9 <= n)%nat -> get_map_scale x = None).
Proof.
  intros Hneg Hd.
  pose proof (py_len_str_negative _ _ Hneg Hd) as Hlen.
  unfold get_map_scale. rewrite Hlen, scaleround_lookup.
  split; intros Hn.
  - destruct (r_of_digits (S n)) as [r|] eqn:Hr.
    2:{ do 9 (destruct n as [|n]; [discriminate|]). lia. }
    pose proof (r_of_digits_pos _ _ Hr) as Hrpos.
    exists r, (py_ceil (x / inject_Z r) * r).
    repeat split; try reflexivity.
    + apply Z.divide_factor_r.
    + apply ceil_mul_ge; exact Hrpos.
    + intros m' [k ->] Hm'. apply ceil_mul_least; assumption.
  - do 9 (destruct n as [|n]; [lia|]). reflexivity.
Qed.

Lemma get_map_scale_negative_witness :
  (exists r m, r_of_digits 2 = Some r /\
     get_map_scale (-7 # 1) = Some m /\
     (r | m) /\
     (-7 # 1 <= inject_Z m)%Q /\
     forall m', (r | m') -> (-7 # 1 <= inject_Z m')%Q -> m <= m') /\
  get_map_scale (-1234567890 # 1) = None.
Proof.
  split.
  - apply (get_map_scale_negative (-7 # 1) 1); [reflexivity | | lia].
    split; [lia|]. split; [split; vm_compute; congruence|].
    left; reflexivity.
  - apply (get_map_scale_negative (-1234567890 # 1) 10); [reflexivity | | lia].
    split; [lia|]. split; [split; vm_compute; congruence|].
    right; vm_compute; congruence.
Defined.

End MapScale.

(** ** The parameters by name *)

Section ParamsFacts.
Import Params.
Context {V : Type}.

(** X4. [get_param_by_name] returns the first parameter of the list that
    has the name, and [None] exactly when no parameter has it. *)
Theorem get_param_by_name_first (parameters : list (parameter V)) (n : string) :
  match get_param_by_name parameters n with
  | Some p =>
      exists l1 l2, parameters = l1 ++ p :: l2 /\ name p = n /\
                    forall q, q ∈ l1 -> name q <> n
  | None => forall q, q ∈ parameters -> name q <> n
  end.
Proof.
  unfold get_param_by_name.
  induction parameters as [|a l IH]; simpl.
  - intros q Hq. inversion Hq.
  - destruct (String.eqb (name a) n) eqn:E.
    + apply String.eqb_eq in E. exists [], l. repeat split; [exact E|].
      intros q Hq. inversion Hq.
    + apply String.eqb_neq in E.
      destruct (List.filter _ l) as [|p rest].
      * intros q Hq. apply elem_of_cons in Hq as [->|Hq]; [exact E | apply IH, Hq].
      * destruct IH as (l1 & l2 & -> & Hn & Hl1).
        exists (a :: l1), l2. repeat split; [exact Hn|].
        intros q Hq. apply elem_of_cons in Hq as [->|Hq]; [exact E | apply Hl1, Hq].
Qed.

End ParamsFacts.

(** ** The objects of the map session *)

Section ObjectsFacts.
Import MapObjects.

Lemma foldl_insert_union {A} (l : list (string * A)) (o : gmap string A) :
  NoDup l.*1 ->
  foldl (fun o kv => <[kv.1 := kv.2]> o) o l = list_to_map l ∪ o.
Proof.
  revert o. induction l as [|[k v] l IH]; intros o Hnd.
  - simpl. rewrite (left_id_L ∅ (∪)). reflexivity.
  - rewrite fmap_cons in Hnd. apply NoDup_cons in Hnd as [Hk Hnd].
    cbn [foldl]. rewrite IH by exact Hnd.
    rewrite list_to_map_cons. cbn [fst snd] in *.
    apply map_eq. intros i.
    rewrite !lookup_union.
    destruct (decide (i = k)) as [->|Hne].
    + rewrite !lookup_insert_eq.
      rewrite (not_elem_of_list_to_map_1 _ _ Hk).
      destruct (o !! k); reflexivity.
    + rewrite !lookup_insert_ne by congruence. reflexivity.
Qed.

(** X5. After [set_attrs] the object has every property of the dictionary
    and its other attributes as before, whatever the order in which the
    dictionary gives its items. *)
Theorem set_attrs_lookup (obj : object) (properties : gmap string attr) (k : string) :
  set_attrs obj properties !! k
  = match properties !! k with
    | Some v => Some v
    | None => obj !! k
    end.
Proof.
  unfold set_attrs, object.
  rewrite (foldl_insert_union (map_to_list properties) obj)
    by apply NoDup_fst_map_to_list.
  rewrite list_to_map_to_list, lookup_union.
  destruct (properties !! k) as [v|]; destruct (_ !! k); reflexivity.
Qed.

Lemma List_filter_sublist {A} (f : A -> bool) (l : list A) :
  List.filter f l `sublist_of` l.
Proof.
  induction l as [|x l IH]; simpl; [constructor|].
  destruct (f x); [apply sublist_skip | apply sublist_cons]; exact IH.
Qed.

Lemma update_elements_fold (element_props : gmap string (gmap string attr))
    (l : list (string * object)) (els0 : gmap string object) :
  NoDup l.*1 ->
  (forall key elm, (key, elm) ∈ l ->
     element_name elm = Some key /\ is_Some (element_props !! key)) ->
  exists els,
    foldl (fun acc (kv : string * object) =>
             els ← acc;
             name ← element_name kv.2;
             props ← element_props !! name;
             Some (<[kv.1 := set_attrs kv.2 props]> els))
          (Some els0) l = Some els /\
    forall key,
      els !! key
      = match (list_to_map l : gmap string object) !! key with
        | Some elm => Some (set_attrs elm (default ∅ (element_props !! key)))
        | None => els0 !! key
        end.
Proof.
  revert els0. induction l as [|[k e] l IH]; intros els0 Hnd Hl.
  - exists els0. split; reflexivity.
  - rewrite fmap_cons in Hnd. apply NoDup_cons in Hnd as [Hk Hnd].
    cbn [fst] in Hk.
    destruct (Hl k e) as (Hname & props & Hprops); [left|].
    cbn [foldl]. cbn [mbind option_bind fst snd].
    rewrite Hname. cbn [mbind option_bind]. rewrite Hprops. cbn [mbind option_bind].
    destruct (IH (<[k := set_attrs e props]> els0) Hnd) as (els & Hfold & Hels).
    { intros key elm Hin. apply Hl. right. exact Hin. }
    exists els. split; [exact Hfold|].
    intros key. rewrite Hels, list_to_map_cons. cbn [fst snd].
    destruct (decide (key = k)) as [->|Hne].
    + rewrite (not_elem_of_list_to_map_1 _ _ Hk).
      rewrite !lookup_insert_eq, Hprops. reflexivity.
    + rewrite !lookup_insert_ne by congruence. reflexivity.
Qed.

(** X6. On a session whose elements are kept under their names, as
    [__init__] stores them, [update_report_elements] does not fail: every
    element whose name is a key of [element_props] gets the properties
    given for it, and the other elements stay as they were. *)
Theorem update_report_elements_named (elements : gmap string object)
    (element_props : gmap string (gmap string attr)) :
  (forall key elm, elements !! key = Some elm -> element_name elm = Some key) ->
  exists els,
    update_report_elements elements element_props = Some els /\
    forall key,
      els !! key
      = (fun elm => match element_props !! key with
                    | Some props => set_attrs elm props
                    | None => elm
                    end) <$> elements !! key.
Proof.
  intros Hnamed. unfold update_report_elements.
  set (l := List.filter _ (map_to_list elements)).
  assert (Hin : forall key elm, (key, elm) ∈ l <->
            elements !! key = Some elm /\ is_Some (element_props !! key)).
  { intros key elm. subst l. rewrite list_elem_of_In, filter_In, <- list_elem_of_In.
    rewrite elem_of_map_to_list. cbn [fst].
    rewrite bool_decide_eq_true. reflexivity. }
  assert (Hnd : NoDup l.*1).
  { subst l. eapply sublist_NoDup; [apply (NoDup_fst_map_to_list elements)|].
    apply fmap_sublist, List_filter_sublist. }
  destruct (update_elements_fold element_props l elements Hnd) as (els & Hfold & Hels).
  { intros key elm H. apply Hin in H as [H1 H2]. split; [apply Hnamed, H1 | exact H2]. }
  exists els. split; [exact Hfold|].
  intros key. rewrite Hels.
  destruct (list_to_map l !! key) as [elm|] eqn:E.
  - apply elem_of_list_to_map in E; [|exact Hnd].
    apply Hin in E as [-> [props ->]]. reflexivity.
  - apply not_elem_of_list_to_map in E.
    destruct (elements !! key) as [elm|] eqn:Ee; [|reflexivity].
    destruct (element_props !! key) as [props|] eqn:Ep; [|reflexivity].
    exfalso. apply E. apply list_elem_of_fmap. exists (key, elm).
    split; [reflexivity|]. apply Hin. split; [exact Ee | rewrite Ep; eauto].
Qed.

Lemma update_report_elements_named_witness :
  exists els,
    update_report_elements
      {[ "tableTextArea" := {[ "name" := AText "tableTextArea"; "text" := AText "" ]} ]}
      {[ "tableTextArea" := {[ "text" := AText "report" ]} ]} = Some els /\
    els !! "tableTextArea"
    = Some (set_attrs {[ "name" := AText "tableTextArea"; "text" := AText "" ]}
                      {[ "text" := AText "report" ]}).
Proof.
  destruct (update_report_elements_named
              {[ "tableTextArea" := {[ "name" := AText "tableTextArea"; "text" := AText "" ]} ]}
              {[ "tableTextArea" := {[ "text" := AText "report" ]} ]})
    as (els & Hrun & Hels).
  - intros key elm H. apply lookup_singleton_Some in H as [<- <-].
    vm_compute. reflexivity.
  - exists els. split; [exact Hrun|]. rewrite Hels.
    vm_compute. reflexivity.
Defined.

(** X7. [update_report_elements] fails with the KeyError of
    [element_props[element.name]] as soon as an element stored under a key
    of [element_props] has a name that is not a key of [element_props]. *)
Theorem update_report_elements_KeyError (elements : gmap string object)
    (element_props : gmap string (gmap string attr)) (key : string) (elm : object) :
  elements !! key = Some elm ->
  is_Some (element_props !! key) ->
  (forall n, element_name elm = Some n -> element_props !! n = None) ->
  update_report_elements elements element_props = None.
Proof.
  intros Helm Hkey Hname. unfold update_report_elements.
  set (step := fun (acc : option (gmap string object)) (kv : string * object) => _).
  set (l := List.filter _ _).
  assert (Hin : (key, elm) ∈ l).
  { subst l. rewrite list_elem_of_In, filter_In, <- list_elem_of_In.
    rewrite elem_of_map_to_list. cbn [fst].
    rewrite bool_decide_eq_true. split; assumption. }
  apply list_elem_of_split in Hin as (l1 & l2 & ->).
  assert (Hnone : forall l', foldl step None l' = None).
  { induction l' as [|x l' IH]; [reflexivity | exact IH]. }
  rewrite foldl_app. cbn [foldl].
  replace (step (foldl step (Some elements) l1) (key, elm)) with (@None (gmap string object)).
  - apply Hnone.
  - subst step. cbn beta. destruct (foldl _ _ l1) as [els|]; [|reflexivity].
    cbn [mbind option_bind fst snd].
    destruct (element_name elm) as [n|] eqn:En; [|reflexivity].
    cbn [mbind option_bind]. rewrite (Hname n eq_refl). reflexivity.
Qed.

Lemma update_report_elements_KeyError_witness :
  update_report_elements
    {[ "tableTextArea" := {[ "name" := AText "renamed" ]} ]}
    {[ "tableTextArea" := {[ "text" := AText "report" ]} ]} = None.
Proof.
  apply (update_report_elements_KeyError _ _ "tableTextArea" {[ "name" := AText "renamed" ]}).
  - vm_compute. reflexivity.
  - apply (bool_decide_unpack _). vm_compute. exact I.
  - intros n Hn. vm_compute in Hn. inversion Hn. vm_compute. reflexivity.
Defined.

Lemma od_get_set {V} (k k' : string) (v : V) (d : ordered_dict V) :
  od_get k (od_set k' v d) = if String.eqb k' k then Some v else od_get k d.
Proof.
  induction d as [|[a b] d IH]; simpl.
  - reflexivity.
  - destruct (String.eqb a k') eqn:E1; simpl.
    + apply String.eqb_eq in E1. subst a.
      destruct (String.eqb k' k); reflexivity.
    + destruct (String.eqb a k) eqn:E2; [|exact IH].
      apply String.eqb_eq in E2. subst a.
      rewrite String.eqb_sym, E1. reflexivity.
Qed.

Lemma field_indexes_snoc (fields : list string) (f : string) :
  field_indexes (fields ++ [f]) = od_set f (length fields) (field_indexes fields).
Proof.
  unfold field_indexes.
  rewrite length_app, Nat.add_1_r, seq_S, Nat.add_0_l.
  rewrite zip_with_app by (rewrite length_seq; reflexivity).
  rewrite foldl_app. reflexivity.
Qed.

Lemma field_indexes_lookup (fields : list string) (k : string) (i : nat) :
  od_get k (field_indexes fields) = Some i <->
  fields !! i = Some k /\ forall j, (i < j)%nat -> fields !! j <> Some k.
Proof.
  revert i. induction fields as [|f fields IH] using rev_ind; intros i.
  - split; [discriminate | intros [H _]; discriminate].
  - rewrite field_indexes_snoc, od_get_set.
    destruct (String.eqb f k) eqn:E.
    + apply String.eqb_eq in E. subst f. split.
      * intros H. inversion H; subst i. split.
        -- apply list_lookup_middle. reflexivity.
        -- intros j Hj. rewrite lookup_ge_None_2; [discriminate|].
           rewrite length_app. simpl. lia.
      * intros [Hi Hlast]. f_equal.
        assert (i < length (fields ++ [k]))%nat by (eapply lookup_lt_Some, Hi).
        rewrite length_app in H. simpl in H.
        destruct (decide (i = length fields)) as [->|Hne]; [reflexivity|].
        exfalso. apply (Hlast (length fields)); [lia|].
        apply list_lookup_middle. reflexivity.
    + apply String.eqb_neq in E. rewrite IH. split.
      * intros [Hi Hlast]. split.
        -- rewrite lookup_app_l by (eapply lookup_lt_Some, Hi). exact Hi.
        -- intros j Hj Hjk.
           destruct (decide (j < length fields)%nat) as [Hlt|Hge].
           ++ rewrite lookup_app_l in Hjk by exact Hlt. exact (Hlast j Hj Hjk).
           ++ rewrite lookup_app_r in Hjk by lia.
              destruct (j - length fields)%nat; simpl in Hjk; [|discriminate].
              inversion Hjk. contradiction.
      * intros [Hi Hlast].
        assert (Hlt : (i < length fields)%nat).
        { assert (i < length (fields ++ [f]))%nat by (eapply lookup_lt_Some, Hi).
          rewrite length_app in H. simpl in H.
          destruct (decide (i = length fields)) as [->|Hne]; [|lia].
          rewrite list_lookup_middle in Hi by reflexivity.
          inversion Hi. contradiction. }
        rewrite lookup_app_l in Hi by exact Hlt. split; [exact Hi|].
        intros j Hj Hjk. apply (Hlast j Hj).
        rewrite lookup_app_l by (eapply lookup_lt_Some, Hjk). exact Hjk.
Qed.

(** X8. For every layer of [config['fields']], the dictionary that
    [__init__] keeps in [self.fields] maps a field name to the position of
    its last occurrence in the list of the layer: a name that is repeated
    has one entry, with the later index.  Without [config['fields']],
    [self.fields] is empty. *)
Theorem init_fields_last (config_fields : gmap string (list string))
    (layer : string) (fields : list string) :
  config_fields !! layer = Some fields ->
  (exists d, init_fields (Some config_fields) !! layer = Some d /\
     forall k i, od_get k d = Some i <->
       fields !! i = Some k /\ forall j, (i < j)%nat -> fields !! j <> Some k) /\
  init_fields None !! layer = None.
Proof.
  intros Hl. split; [|apply lookup_empty].
  exists (field_indexes fields). split.
  - unfold init_fields. rewrite lookup_fmap, Hl. reflexivity.
  - intros k i. apply field_indexes_lookup.
Qed.

Lemma init_fields_last_witness :
  exists d,
    init_fields (Some {[ "roads" := ["id"; "name"; "id"] ]}) !! "roads" = Some d /\
    od_get "id" d = Some 2%nat.
Proof.
  destruct (init_fields_last {[ "roads" := ["id"; "name"; "id"] ]} "roads"
              ["id"; "name"; "id"]) as [(d & Hd & Hget) _].
  - vm_compute. reflexivity.
  - exists d. split; [exact Hd|]. apply Hget. split; [reflexivity|].
    intros j Hj. do 3 (destruct j as [|j]; [lia|]). discriminate.
Defined.

End ObjectsFacts.

From Stdlib Require OrdersEx.
Import Notions.

(** ** The frame of the summary *)

Section SortedUnique.

Lemma string_lt_trans a b c : string_lt a b -> string_lt b c -> string_lt a c.
Proof.
  unfold string_lt. intros H1 H2.
  exact (@RelationClasses.StrictOrder_Transitive _ _
           OrdersEx.String_as_OT.lt_strorder a b c H1 H2).
Qed.

Lemma string_lt_irrefl a : ~ string_lt a a.
Proof.
  exact (@RelationClasses.StrictOrder_Irreflexive _ _
           OrdersEx.String_as_OT.lt_strorder a).
Qed.

Lemma insert_key_sorted (k : string) (l : list string) :
  StronglySorted string_lt l -> StronglySorted string_lt (insert_key k l).
Proof.
  induction l as [|h t IH]; intros Hs; simpl.
  - repeat constructor.
  - apply StronglySorted_inv in Hs as [Ht Hh].
    destruct (String.compare k h) eqn:E.
    + constructor; assumption.
    + constructor; [constructor; assumption|].
      constructor; [exact E|].
      eapply Forall_impl; [exact Hh|]. intros x Hx. eapply string_lt_trans; eassumption.
    + constructor; [apply IH, Ht|].
      apply Forall_forall. intros x Hx. apply elem_of_insert_key in Hx as [->|Hx].
      * unfold string_lt. rewrite String.compare_antisym, E. reflexivity.
      * rewrite Forall_forall in Hh. apply Hh, Hx.
Qed.

Lemma sorted_unique_sorted (l : list string) : StronglySorted string_lt (sorted_unique l).
Proof.
  induction l as [|x l IH]; simpl; [constructor | apply insert_key_sorted, IH].
Qed.

Lemma sorted_unique_NoDup (l : list string) : NoDup (sorted_unique l).
Proof.
  pose proof (sorted_unique_sorted l) as H.
  induction H as [|x t Ht IH Hx]; constructor; [|exact IH].
  intros Hin. rewrite Forall_forall in Hx. exact (string_lt_irrefl x (Hx x Hin)).
Qed.

End SortedUnique.

Section SummaryFrame.
Context {G : Geometry}.

Lemma fst_fmap_keyed {A} (f : string -> string * A) (l : list string) :
  (forall k, (f k).1 = k) -> fst <$> (f <$> l) = l.
Proof.
  intros Hf. rewrite <- list_fmap_compose.
  rewrite <- (list_fmap_id l) at 2. apply list_fmap_ext. intros _ k _. apply Hf.
Qed.

(** The frame of the summary from the records of the two cursors: its
    rows, one for each key, and the two road types among the records. *)
Lemma summary_frame key v1 v2 pv R wa L df :
  pivot_table (RawFrame [key; "ROAD_TYPE"; "SHAPE@LENGTH"] v1)
              key "ROAD_TYPE" "SHAPE@LENGTH" = Some pv ->
  reset_index (fillna 0 pv) = Some R ->
  groupby_sum (RawFrame [key; "SHAPE@AREA"] v2) key = Some wa ->
  reset_index wa = Some L ->
  calculate_columns (fillna 0 (merge_outer L R)) = Some df ->
  exists recs recsL cells0,
    (mapM (pivot_record (RawFrame [key; "ROAD_TYPE"; "SHAPE@LENGTH"] v1)
                       key "ROAD_TYPE" "SHAPE@LENGTH") v1 = Some recs) /\
    (mapM (group_record (RawFrame [key; "SHAPE@AREA"] v2) key ["SHAPE@AREA"]) v2
      = Some recsL) /\
    "Pre-Development" ∈ (fun r : string * string * Q => r.1.2) <$> recs /\
    "Proposed" ∈ (fun r : string * string * Q => r.1.2) <$> recs /\
    fr_rows df =
      (fun k => (k, computed_cells (Qsum (group_values recs k "Pre-Development"))
                                   (Qsum (group_values recs k "Proposed"))
                                   (Qsum (key_values recsL k "SHAPE@AREA"))
                                   (cells0 k)))
        <$> sorted_unique (sorted_unique (fst <$> recsL) ++
                           sorted_unique ((fun r : string * string * Q => r.1.1) <$> recs)).
Proof.
  intros Hpv HR Hwa HL Hdf.
  unfold pivot_table in Hpv. apply bind_Some in Hpv as (recs & Hrecs & Hpv).
  simpl in Hrecs. inversion Hpv; subst pv; clear Hpv.
  apply reset_index_Some in HR as (-> & HkR). simpl in HkR.
  unfold groupby_sum in Hwa. cbn [raw_columns raw_values] in Hwa.
  rewrite area_columns in Hwa.
  destruct (String.eqb "SHAPE@AREA" key) eqn:Ekey.
  { apply String.eqb_eq in Ekey. subst key. exfalso. apply HkR.
    apply bind_Some in Hwa as (recsL & HrecsL & Hwa).
    inversion Hwa; subst wa; clear Hwa.
    apply reset_index_Some in HL as (-> & _).
    pose proof (calculate_columns_needs _ _ Hdf) as (_ & _ & Harea & _).
    change (fr_columns (fillna 0 ?d)) with (fr_columns d) in Harea.
    rewrite merge_outer_columns_nil in Harea by reflexivity. exact Harea. }
  cbv iota in Hwa.
  apply bind_Some in Hwa as (recsL & HrecsL & Hwa).
  inversion Hwa; subst wa; clear Hwa.
  apply reset_index_Some in HL as (-> & _).
  pose proof (calculate_columns_needs _ _ Hdf) as (Hpre & Hprop & Harea & Hidx).
  change (fr_columns (fillna 0 ?d)) with (fr_columns d) in Hpre, Hprop, Harea.
  cbn [fr_index fillna merge_outer] in Hidx.
  set (colsR := sorted_unique ((fun r : string * string * Q => r.1.2) <$> recs)) in *.
  set (keysR := sorted_unique ((fun r : string * string * Q => r.1.1) <$> recs)) in *.
  match type of Hdf with
  | calculate_columns (fillna 0 (merge_outer ?l ?r)) = _ => set (L := l) in *; set (R := r) in *
  end.
  assert (HaR : "SHAPE@AREA" ∉ fr_columns R)
    by (apply (merge_outer_area_column L R); [reflexivity | exact Harea]).
  rewrite (merge_outer_single "SHAPE@AREA" L R) in Hdf, Hpre, Hprop by (reflexivity || exact HaR).
  simpl fr_columns in Hpre, Hprop, HaR.
  apply elem_of_cons in Hpre as [Hpre|Hpre]; [discriminate Hpre|].
  apply elem_of_cons in Hprop as [Hprop|Hprop]; [discriminate Hprop|].
  assert (HcellR : forall k c, c ∈ colsR ->
            default 0%Q (row_of R k ≫= (fun cells => cells !! c))
            = Qsum (group_values recs k c)).
  { intros k c Hc. subst R.
    rewrite row_of_fillna_fun.
    destruct (decide (k ∈ keysR)) as [Hk|Hk].
    - rewrite bool_decide_eq_true_2 by exact Hk. simpl.
      rewrite lookup_fmap, lookup_list_to_map_fun, bool_decide_eq_true_2 by exact Hc.
      simpl. apply Qsum_agg.
    - rewrite bool_decide_eq_false_2 by exact Hk. simpl.
      rewrite group_values_nil by exact Hk. reflexivity. }
  assert (HcellL : forall k,
            default 0%Q (row_of L k ≫= (fun cells => cells !! "SHAPE@AREA"))
            = Qsum (key_values recsL k "SHAPE@AREA")).
  { intros k. subst L.
    rewrite (row_of_fun key _
               (fun k => <["SHAPE@AREA" := Qsum (key_values recsL k "SHAPE@AREA")]> ∅)).
    destruct (decide (k ∈ sorted_unique (fst <$> recsL))) as [Hk|Hk].
    - rewrite bool_decide_eq_true_2 by exact Hk. simpl.
      rewrite lookup_insert_eq. reflexivity.
    - rewrite bool_decide_eq_false_2 by exact Hk. simpl.
      rewrite key_values_nil by exact Hk. reflexivity. }
  apply (calculate_columns_rows _ _
           (fun k => Qsum (group_values recs k "Pre-Development"))
           (fun k => Qsum (group_values recs k "Proposed"))
           (fun k => Qsum (key_values recsL k "SHAPE@AREA"))) in Hdf.
  - destruct Hdf as (_ & Hrows).
    eexists recs, recsL, _. split; [exact Hrecs|]. split; [exact HrecsL|].
    split; [apply elem_of_sorted_unique, Hpre|].
    split; [apply elem_of_sorted_unique, Hprop|].
    rewrite Hrows. unfold fillna. cbn [fr_rows].
    rewrite <- !list_fmap_compose.
    subst L R. cbn [fr_rows fillna].
    rewrite !fst_fmap_keyed by reflexivity.
    match goal with
    | |- context [(?f <$> (?g <$> keysR)).*1] =>
        replace ((f <$> (g <$> keysR)).*1) with keysR
          by (rewrite <- !list_fmap_compose; rewrite <- (list_fmap_id keysR) at 1;
              apply list_fmap_ext; reflexivity)
    end.
    apply list_fmap_ext. intros _ k _. cbn [compose fst snd]. reflexivity.
  - intros r Hr. unfold fillna in Hr. simpl fr_rows in Hr.
    rewrite <- list_fmap_compose in Hr.
    apply list_elem_of_fmap in Hr as (k & -> & _). simpl.
    rewrite !lookup_fmap.
    rewrite lookup_insert_eq.
    rewrite !lookup_insert_ne by (intros ?; discriminate).
    rewrite !lookup_list_to_map_fun.
    rewrite !bool_decide_eq_true_2 by assumption. simpl.
    rewrite !HcellR by assumption. rewrite HcellL. auto.
Qed.

Lemma pivot_records_rows (rows : list row) key v1 values recs :
  is_token key = false ->
  Forall2 (fun r vs => mapM (cursor_cell r) [key; "ROAD_TYPE"; "SHAPE@LENGTH"] = Some vs)
          rows values ->
  mapM (pivot_record (RawFrame [key; "ROAD_TYPE"; "SHAPE@LENGTH"] v1)
                     key "ROAD_TYPE" "SHAPE@LENGTH") values = Some recs ->
  Forall2 (fun (r : row) (rec : string * string * Q) =>
             field_value key r = VText rec.1.1 /\
             field_value "ROAD_TYPE" r = VText rec.1.2) rows recs.
Proof.
  intros Htok Hrows Hrecs. apply mapM_Some in Hrecs.
  revert recs Hrecs. induction Hrows as [|r vs rows values Hr _ IH]; intros recs Hrecs.
  - inversion Hrecs. constructor.
  - inversion Hrecs as [|? [[k t] v] ? recs' Hrec Hrest]; subst.
    constructor; [|apply IH, Hrest].
    destruct (pivot_record_row r key v1 vs k t v Htok Hr Hrec) as (Hk & Ht & _).
    split; assumption.
Qed.

Lemma group_records_rows (rows : list row) key v2 values recs :
  is_token key = false ->
  Forall2 (fun r vs => mapM (cursor_cell r) [key; "SHAPE@AREA"] = Some vs) rows values ->
  mapM (group_record (RawFrame [key; "SHAPE@AREA"] v2) key ["SHAPE@AREA"]) values
    = Some recs ->
  Forall2 (fun (r : row) (rec : frame_row Q) => field_value key r = VText rec.1) rows recs.
Proof.
  intros Htok Hrows Hrecs. apply mapM_Some in Hrecs.
  revert recs Hrecs. induction Hrows as [|r vs rows values Hr _ IH]; intros recs Hrecs.
  - inversion Hrecs. constructor.
  - inversion Hrecs as [|? [k cells] ? recs' Hrec Hrest]; subst.
    constructor; [|apply IH, Hrest].
    destruct (group_record_row r key v2 vs k cells Htok Hr Hrec) as (Hk & _).
    exact Hk.
Qed.

Lemma Forall2_elem_of_r {A B} (P : A -> B -> Prop) (l : list A) (k : list B) (y : B) :
  Forall2 P l k -> y ∈ k -> exists x, x ∈ l /\ P x y.
Proof.
  intros H. induction H as [|a b l k Hab _ IH]; intros Hy.
  - inversion Hy.
  - apply elem_of_cons in Hy as [->|Hy].
    + exists a. split; [left | exact Hab].
    + destruct (IH Hy) as (x & Hx & HP). exists x. split; [right; exact Hx | exact HP].
Qed.

Lemma Forall2_elem_of_l {A B} (P : A -> B -> Prop) (l : list A) (k : list B) (x : A) :
  Forall2 P l k -> x ∈ l -> exists y, y ∈ k /\ P x y.
Proof.
  intros H. induction H as [|a b l k Hab _ IH]; intros Hx.
  - inversion Hx.
  - apply elem_of_cons in Hx as [->|Hx].
    + exists b. split; [left | exact Hab].
    + destruct (IH Hx) as (y & Hy & HP). exists y. split; [right; exact Hy | exact HP].
Qed.

Variable self : tool.

(** The frame of [run_summary_analysis] against the two tables it reads. *)
Lemma run_summary_analysis_frame sr w df w' T W :
  run_summary_analysis self sr w = (Some df, w') ->
  tables w !! sr = Some T ->
  tables w !! in_watershed (tool_parameters self) = Some W ->
  let key := in_watershed_id (tool_parameters self) in
  (exists r, r ∈ tbl_rows T /\ field_value "ROAD_TYPE" r = VText "Pre-Development") /\
  (exists r, r ∈ tbl_rows T /\ field_value "ROAD_TYPE" r = VText "Proposed") /\
  StronglySorted string_lt (fst <$> fr_rows df) /\
  forall k, k ∈ fst <$> fr_rows df <->
    (exists r, r ∈ tbl_rows W /\ field_value key r = VText k) \/
    (exists r, r ∈ tbl_rows T /\ field_value key r = VText k).
Proof.
  intros H HT HW key.
  destruct (run_summary_analysis_rows self _ _ _ _ _ _ H HT HW) as (_ & Htok & _).
  fold key in Htok.
  unfold run_summary_analysis in H. fold key in H. clearbody key.
  mstep. apply enter_Some in Hstep as Hs0.
  mstep. apply table_to_dataframe_Some in Hstep0 as (Hs1 & T' & v1 & HT' & Hv1 & ->).
  mstep. apply lift_Some in Hstep0 as (Hpv & ->).
  apply fmap_Some in Hpv as (pv & Hpv & ->).
  mstep. apply lift_Some in Hstep0 as (HR & ->).
  mstep. apply table_to_dataframe_Some in Hstep0 as (Hs2 & W' & v2 & HW' & Hv2 & ->).
  mstep. apply lift_Some in Hstep0 as (Hwa & ->).
  mstep. apply lift_Some in Hstep0 as (HL & ->).
  apply lift_Some in H as (Hdf & ->).
  destruct Hs0 as (Ht0 & _). destruct Hs1 as (Ht1 & _).
  rewrite Ht0, HT in HT'. inversion HT'; subst T'; clear HT'.
  rewrite Ht1, Ht0, HW in HW'. inversion HW'; subst W'; clear HW'.
  destruct (summary_frame _ _ _ _ _ _ _ _ Hpv HR Hwa HL Hdf)
    as (recs & recsL & cells0 & Hrecs & HrecsL & Hpre & Hprop & Hrows).
  apply SearchCursor_Some in Hv1, Hv2.
  pose proof (pivot_records_rows _ _ _ _ _ Htok Hv1 Hrecs) as HF1.
  pose proof (group_records_rows _ _ _ _ _ Htok Hv2 HrecsL) as HF2.
  assert (Htype : forall t, t ∈ (fun r : string * string * Q => r.1.2) <$> recs ->
            exists r, r ∈ tbl_rows T /\ field_value "ROAD_TYPE" r = VText t).
  { intros t Ht. apply list_elem_of_fmap in Ht as (rec & -> & Hrec).
    destruct (Forall2_elem_of_r _ _ _ _ HF1 Hrec) as (r & Hr & _ & Hty).
    exists r. split; assumption. }
  split; [apply Htype, Hpre|]. split; [apply Htype, Hprop|].
  rewrite Hrows, fst_fmap_keyed by reflexivity.
  split; [apply sorted_unique_sorted|].
  intros k. rewrite elem_of_sorted_unique, elem_of_app, !elem_of_sorted_unique.
  split.
  - intros [Hk|Hk].
    + left. apply list_elem_of_fmap in Hk as (rec & -> & Hrec).
      destruct (Forall2_elem_of_r _ _ _ _ HF2 Hrec) as (r & Hr & Hkey).
      exists r. split; assumption.
    + right. apply list_elem_of_fmap in Hk as (rec & -> & Hrec).
      destruct (Forall2_elem_of_r _ _ _ _ HF1 Hrec) as (r & Hr & Hkey & _).
      exists r. split; assumption.
  - intros [(r & Hr & Hkey)|(r & Hr & Hkey)].
    + left. destruct (Forall2_elem_of_l _ _ _ _ HF2 Hr) as (rec & Hrec & E).
      rewrite Hkey in E. inversion E; subst k.
      apply list_elem_of_fmap. exists rec. split; [reflexivity | exact Hrec].
    + right. destruct (Forall2_elem_of_l _ _ _ _ HF1 Hr) as (rec & Hrec & E & _).
      rewrite Hkey in E. inversion E; subst k.
      apply list_elem_of_fmap. exists rec. split; [reflexivity | exact Hrec].
Qed.

End SummaryFrame.

Import Notions.

(** ** More on the summary analysis *)

Section SummaryFacts.
Context {G : Geometry}.
Variable self : tool.

Lemma summary_needs_types sr w T :
  tables w !! sr = Some T ->
  (forall r, r ∈ tbl_rows T -> field_value "ROAD_TYPE" r <> VText "Pre-Development") \/
  (forall r, r ∈ tbl_rows T -> field_value "ROAD_TYPE" r <> VText "Proposed") ->
  exists w', run_summary_analysis self sr w = (None, w').
Proof.
  intros HT Hno.
  destruct (run_summary_analysis self sr w) as [[df|] w'] eqn:H; [exfalso|eauto].
  destruct (run_summary_analysis_reads self _ _ _ _ H) as (T' & W & HT' & HW).
  rewrite HT in HT'. inversion HT'; subst T'.
  destruct (run_summary_analysis_frame self _ _ _ _ _ _ H HT HW)
    as ((r1 & Hr1 & Hpre) & (r2 & Hr2 & Hprop) & _).
  destruct Hno as [Hno|Hno]; [exact (Hno r1 Hr1 Hpre) | exact (Hno r2 Hr2 Hprop)].
Qed.





Lemma value_eqb_text v k : value_eqb v (VText k) = true -> v = VText k.
Proof.
  destruct v as [s| |]; simpl; try discriminate.
  intros E. apply String.eqb_eq in E. subst. reflexivity.
Qed.

Lemma road_length_nil (T : table) key t k :
  (forall r, r ∈ tbl_rows T -> field_value key r <> VText k) ->
  road_length T key t k = 0%Q.
Proof.
  intros Hno. unfold road_length.
  replace (List.filter _ (tbl_rows T)) with (@nil row); [reflexivity|].
  symmetry. induction (tbl_rows T) as [|r rows IH]; [reflexivity|]. simpl.
  destruct (value_eqb (field_value key r) (VText k)) eqn:E.
  - apply value_eqb_text in E. exfalso. apply (Hno r); [left | exact E].
  - simpl. apply IH. intros r' Hr'. apply Hno. right. exact Hr'.
Qed.

(** X12. A watershed of positive area without a feature in the spatial
    result gets zero road lengths and zero densities in the summary. *)
Theorem summary_without_roads sr w df w' T k cells area :
  run_summary_analysis self sr w = (Some df, w') ->
  tables w !! sr = Some T ->
  (k, cells) ∈ fr_rows df ->
  cells !! "watershed_area" = Some area ->
  (0 < area)%Q ->
  (forall r, r ∈ tbl_rows T ->
     field_value (in_watershed_id (tool_parameters self)) r <> VText k) ->
  exists e p t o f,
    cells !! "existing_road_length" = Some e /\ (e == 0)%Q /\
    cells !! "proposed_road_length" = Some p /\ (p == 0)%Q /\
    cells !! "total_road_length" = Some t /\ (t == 0)%Q /\
    cells !! "original_road_density" = Some o /\ (o == 0)%Q /\
    cells !! "future_road_density" = Some f /\ (f == 0)%Q.
Proof.
  intros H HT Hin _ _ Hno.
  destruct (run_summary_analysis_reads self _ _ _ _ H) as (T' & W & HT' & HW).
  rewrite HT in HT'. inversion HT'; subst T'.
  destruct (run_summary_analysis_rows self _ _ _ _ _ _ H HT HW)
    as (_ & _ & _ & _ & Hrows).
  destruct (Hrows k cells Hin) as (cells0 & ->).
  rewrite !(road_length_nil T _ _ k Hno).
  match goal with
  | |- context [computed_cells ?pre ?prop ?a _] =>
      destruct (computed_cells_lookup pre prop a cells0)
        as (_ & He & Hp & Ht & Ho & Hf)
  end.
  do 5 eexists.
  split; [exact He|]. split; [reflexivity|].
  split; [exact Hp|]. split; [reflexivity|].
  split; [exact Ht|]. split; [reflexivity|].
  split; [exact Ho|]. split; [reflexivity|].
  split; [exact Hf|]. reflexivity.
Qed.

Lemma no_text_rows name v (rows : list row) :
  forallb (fun r => negb (value_eqb (field_value name r) (VText v))) rows = true ->
  forall r, r ∈ rows -> field_value name r <> VText v.
Proof.
  intros H r Hr E. rewrite forallb_forall in H.
  apply list_elem_of_In in Hr. specialize (H r Hr).
  rewrite E in H. simpl in H. rewrite String.eqb_refl in H. discriminate.
Qed.

End SummaryFacts.

Section SummaryExample.
Import Cells.
Import Examples.




Lemma summary_without_roads_witness :
  exists e p t o f,
    ex_row_B.2 !! "existing_road_length" = Some e /\ (e == 0)%Q /\
    ex_row_B.2 !! "proposed_road_length" = Some p /\ (p == 0)%Q /\
    ex_row_B.2 !! "total_road_length" = Some t /\ (t == 0)%Q /\
    ex_row_B.2 !! "original_road_density" = Some o /\ (o == 0)%Q /\
    ex_row_B.2 !! "future_road_density" = Some f /\ (f == 0)%Q.
Proof.
  apply (summary_without_roads ex_tool ex_spatial_result ex_spatial.2 ex_frame
           ex_summary.2 ex_intersected ex_row_B.1 ex_row_B.2
           (default 0%Q (ex_row_B.2 !! "watershed_area"))).
  - ex_summary_facts.
  - ex_summary_facts.
  - rewrite <- surjective_pairing. apply list_elem_of_lookup_2 with 1%nat.
    apply default_is_Some. by_evaluation.
  - apply default_is_Some. by_evaluation.
  - vm_compute. reflexivity.
  - replace ex_row_B.1 with "B"%string by (vm_compute; reflexivity).
    apply no_text_rows. vm_compute. reflexivity.
Defined.

End SummaryExample.

(** ** The helpers of the tool *)

Section Helpers.
Context {G : Geometry}.

Lemma get_attr_set_attr_ne name n v l :
  n <> name -> get_attr n (set_attr name v l) = get_attr n l.
Proof.
  intros Hne. induction l as [|[a b] l IH]; simpl.
  - destruct (String.eqb name n) eqn:E; [|reflexivity].
    apply String.eqb_eq in E. congruence.
  - destruct (String.eqb a name) eqn:E1; simpl.
    + apply String.eqb_eq in E1. subst a.
      destruct (String.eqb name n) eqn:E2; [|reflexivity].
      apply String.eqb_eq in E2. congruence.
    + destruct (String.eqb a n); [reflexivity | exact IH].
Qed.

(** X13. On a table without a field of that name, [add_constant_field]
    adds one TEXT field, of the length of the value plus 2, after the
    fields of the table; every row keeps its shape and its other
    attributes and gets the value in the new field; no other dataset
    changes. *)
Theorem add_constant_field_adds_one_field p name v w t :
  tables w !! p = Some t ->
  has_field name t = false ->
  exists w' t',
    add_constant_field p name v w = (Some tt, w') /\
    tables w' = <[p := t']> (tables w) /\
    tbl_fields t'
      = tbl_fields t ++
        [FieldDef name "TEXT" None (Some (Z.of_nat (String.length v) + 2)%Z) None None] /\
    Forall2 (fun r r' =>
               shape r' = shape r /\
               field_value name r' = VText v /\
               forall n, n <> name -> field_value n r' = field_value n r)
            (tbl_rows t) (tbl_rows t').
Proof.
  intros Ht Hnew.
  destruct (add_constant_field_eq p name v w t Ht) as (w' & Hrun & Htab & _).
  exists w', (tagged name v t). split; [exact Hrun|]. split; [exact Htab|].
  unfold tagged, add_field, constant_field. cbn [field_name]. rewrite Hnew.
  unfold update_all. cbn [tbl_fields tbl_rows]. split; [reflexivity|].
  induction (tbl_rows t) as [|r rows IH]; [constructor|].
  rewrite fmap_cons. constructor; [|exact IH].
  split; [reflexivity|]. unfold field_value. cbn [attrs]. split.
  - rewrite get_attr_set_attr. reflexivity.
  - intros n Hn. rewrite get_attr_set_attr_ne by exact Hn. reflexivity.
Qed.

Lemma mapM_fmap_Some {A B} (f : A -> B) (l : list A) :
  mapM (fun x => Some (f x)) l = Some (f <$> l).
Proof. apply mapM_Some. induction l; constructor; auto. Qed.

Lemma cursor_cells_fields (t : table) (r : row) (names : list string) :
  (forall n, n ∈ names -> is_token n = false) ->
  mapM (cursor_cell r) names = Some ((fun n => field_value n r) <$> names).
Proof.
  intros Hn. apply mapM_Some.
  induction names as [|n names IH]; [constructor|].
  rewrite fmap_cons. constructor.
  - apply cursor_cell_field, Hn. left.
  - apply IH. intros m Hm. apply Hn. right. exact Hm.
Qed.

Lemma forallb_has_field (t : table) :
  forallb (fun n => is_token n || has_field n t) (field_names t) = true.
Proof.
  apply forallb_forall. intros n Hn. apply orb_true_iff. right.
  unfold has_field. apply existsb_eqb_elem. apply list_elem_of_In. exact Hn.
Qed.

(** X14. Called without field names, [None] or an empty list,
    [table_to_dataframe] reads all the fields of the table: the columns
    of the frame are the field names of the table, and it has one tuple
    for each row, in the order of the rows, with the value of the row for
    each field (null where the row has none). *)
Theorem table_to_dataframe_all_fields p names w t :
  tables w !! p = Some t ->
  names = None \/ names = Some [] ->
  (forall n, n ∈ field_names t -> is_token n = false) ->
  (table_to_dataframe p names w).1
  = Some (RawFrame (field_names t)
            ((fun r => (fun n => field_value n r) <$> field_names t) <$> tbl_rows t)).
Proof.
  intros Ht Hnames Htok. unfold table_to_dataframe.
  rewrite (M_bind_eq _ _ _ _ _ (enter_eq _ _)).
  set (w1 := World _ _ _ _ _).
  assert (H1 : tables w1 !! p = Some t) by exact Ht.
  rewrite (M_bind_eq _ _ _ _ _ (read_table_eq _ _ _ H1)).
  assert (E : match names with Some (n :: l) => n :: l | _ => field_names t end
              = field_names t) by (destruct Hnames as [->| ->]; reflexivity).
  rewrite E. unfold SearchCursor. rewrite forallb_has_field.
  erewrite (mapM_fun_Some (fun r => mapM (cursor_cell r) (field_names t)));
    [reflexivity|].
  intros r _. apply (cursor_cells_fields t), Htok.
Qed.

Lemma filter_first {A} (f : A -> bool) (l : list A) :
  match List.filter f l with
  | x :: _ => exists l1 l2, l = l1 ++ x :: l2 /\ f x = true /\
                            forall y, y ∈ l1 -> f y = false
  | [] => forall y, y ∈ l -> f y = false
  end.
Proof.
  induction l as [|a l IH]; simpl.
  - intros y Hy. inversion Hy.
  - destruct (f a) eqn:E.
    + exists [], l. repeat split; [exact E|]. intros y Hy. inversion Hy.
    + destruct (List.filter f l) as [|x rest].
      * intros y Hy. apply elem_of_cons in Hy as [->|Hy]; [exact E | apply IH, Hy].
      * destruct IH as (l1 & l2 & -> & Hx & Hl1).
        exists (a :: l1), l2. repeat split; [exact Hx|].
        intros y Hy. apply elem_of_cons in Hy as [->|Hy]; [exact E | apply Hl1, Hy].
Qed.

(** X15. [get_field_definition] returns [None] exactly when the table has
    no field of that name; otherwise the definition it returns has the
    name and the type of the first field of that name. *)
Theorem get_field_definition_first q name w t :
  tables w !! q = Some t ->
  match (get_field_definition q name w).1 with
  | Some (Some kd) =>
      exists l1 f l2, tbl_fields t = l1 ++ f :: l2 /\
        field_name f = name /\
        (forall g, g ∈ l1 -> field_name g <> name) /\
        field_name kd = name /\ field_type kd = field_type f
  | Some None => forall f, f ∈ tbl_fields t -> field_name f <> name
  | None => False
  end.
Proof.
  intros Ht. unfold get_field_definition.
  rewrite (M_bind_eq _ _ _ _ _ (enter_eq _ _)).
  set (w1 := World _ _ _ _ _).
  assert (H1 : tables w1 !! q = Some t) by exact Ht.
  rewrite (M_bind_eq _ _ _ _ _ (read_table_eq _ _ _ H1)).
  cbn [mret M_ret ret fst].
  pose proof (filter_first (fun i => String.eqb (field_name i) name) (tbl_fields t)) as H.
  destruct (List.filter _ (tbl_fields t)) as [|f rest].
  - intros g Hg E. specialize (H g Hg). apply String.eqb_neq in H. contradiction.
  - destruct H as (l1 & l2 & Hl & Hf & Hl1). apply String.eqb_eq in Hf.
    exists l1, f, l2. cbn [field_name field_type]. repeat split; try assumption.
    intros g Hg. apply String.eqb_neq, Hl1, Hg.
Qed.

Variable self : tool.

(** X16. When the watershed table has no field named like the key,
    [export_results_table] raises (the [**fld] on [None]); the table
    Results has been created by then, and stays, without a field or a
    row. *)
Theorem export_results_table_without_key df gdb w W :
  tables w !! in_watershed (tool_parameters self) = Some W ->
  has_field (in_watershed_id (tool_parameters self)) W = false ->
  exists w',
    export_results_table self df gdb w = (None, w') /\
    tables w' = <[os_path_join gdb "Results" := Table [] []]> (tables w) /\
    geodatabases w' = geodatabases w /\ files w' = files w.
Proof.
  intros HW Hno.
  assert (Hf : List.filter
                 (fun i => String.eqb (field_name i) (in_watershed_id (tool_parameters self)))
                 (tbl_fields W) = []).
  { pose proof (filter_first
                  (fun i => String.eqb (field_name i) (in_watershed_id (tool_parameters self)))
                  (tbl_fields W)) as H.
    destruct (List.filter _ (tbl_fields W)) as [|f rest]; [reflexivity|].
    destruct H as (l1 & l2 & Hl & Hfn & _). apply String.eqb_eq in Hfn.
    exfalso. unfold has_field, field_names in Hno. rewrite Hl in Hno.
    rewrite fmap_app, existsb_app, fmap_cons in Hno. cbn [existsb] in Hno.
    rewrite Hfn, String.eqb_refl, orb_true_r in Hno. discriminate. }
  unfold export_results_table.
  rewrite (M_bind_eq _ _ _ _ _ (enter_eq _ _)).
  set (w1 := World _ _ _ _ _).
  assert (Hg : exists w2,
             get_field_definition (in_watershed (tool_parameters self))
               (in_watershed_id (tool_parameters self)) w1 = (Some None, w2) /\
             tables w2 = tables w /\ geodatabases w2 = geodatabases w /\
             files w2 = files w).
  { unfold get_field_definition.
    rewrite (M_bind_eq _ _ _ _ _ (enter_eq _ _)).
    set (w2 := World _ _ _ _ _).
    assert (H2 : tables w2 !! in_watershed (tool_parameters self) = Some W) by exact HW.
    rewrite (M_bind_eq _ _ _ _ _ (read_table_eq _ _ _ H2)).
    rewrite Hf. exists w2. repeat split. }
  destruct Hg as (w2 & Hg & Ht2 & Hg2 & Hf2).
  rewrite (M_bind_eq _ _ _ _ _ Hg).
  eexists. split; [cbn; reflexivity|].
  cbn. rewrite Ht2, Hg2, Hf2. auto.
Qed.

End Helpers.

(** ** The export, read back *)

Section ExportFacts.
Context {G : Geometry}.
Variable self : tool.

Lemma dataframe_to_table_rows df q fields w r w' :
  dataframe_to_table df q fields w = (Some r, w') ->
  exists t values,
    tables w !! q = Some t /\
    select_values df fields = Some values /\
    forallb (fun n => has_field n t) fields = true /\
    tables w' = <[q := Table (tbl_fields t)
                          (tbl_rows t ++ ((fun vs => Row (zip fields vs) None) <$> values))]>
                  (tables w).
Proof.
  unfold dataframe_to_table, InsertCursor_rows. intros H.
  mstep. inversion Hstep; subst; clear Hstep.
  mstep. apply lift_Some in Hstep as (Hv & ->).
  mstep. unfold read_table in Hstep. inversion Hstep; subst; clear Hstep.
  destruct (forallb _ _) eqn:Hfields; [|discriminate H].
  inversion H; subst; clear H. simpl in *.
  eexists _, _. split; [eassumption|]. split; [exact Hv|]. split; [exact Hfields|].
  reflexivity.
Qed.

Lemma get_attr_zip (names : list string) (vs : list value) :
  NoDup names -> length vs = length names ->
  (fun n => default VNull (get_attr n (zip names vs))) <$> names = vs.
Proof.
  revert vs. induction names as [|a names IH]; intros vs Hnd Hlen.
  - destruct vs; [reflexivity | discriminate].
  - destruct vs as [|v vs]; [discriminate|].
    apply NoDup_cons in Hnd as [Ha Hnd]. simpl in Hlen.
    rewrite fmap_cons. cbn [zip zip_with get_attr].
    rewrite String.eqb_refl. cbn [default]. f_equal.
    transitivity ((fun n => default VNull (get_attr n (zip names vs))) <$> names);
      [|apply IH; [exact Hnd | lia]].
    apply list_fmap_ext. intros _ n Hn%list_elem_of_lookup_2.
    destruct (String.eqb a n) eqn:E; [|reflexivity].
    apply String.eqb_eq in E. subst. contradiction.
Qed.

Lemma select_values_lengths (df : frame Q) names values :
  select_values df names = Some values ->
  length values = length (fr_rows df) /\
  forall vs, vs ∈ values -> length vs = length names.
Proof.
  unfold select_values. destruct (forallb _ _); [|discriminate].
  intros H. apply mapM_Some in H. split.
  - symmetry. eapply Forall2_length, H.
  - intros vs Hvs.
    destruct (Forall2_elem_of_r _ _ _ _ H Hvs) as (r & _ & Hr).
    apply mapM_Some in Hr. symmetry. eapply Forall2_length, Hr.
Qed.

(** X17. After [export_results_table], reading the table Results back
    with [table_to_dataframe] and the fields of the export gives the
    tuples that were exported: one for each row of the frame, in the order
    of the frame, with the key and the six values of the row. *)
Theorem export_results_table_read_back df gdb w rt w' :
  export_results_table self df gdb w = (Some rt, w') ->
  in_watershed_id (tool_parameters self) ∉ result_field_names ->
  is_token (in_watershed_id (tool_parameters self)) = false ->
  let fields := [in_watershed_id (tool_parameters self); "watershed_area";
                 "existing_road_length"; "proposed_road_length"; "total_road_length";
                 "original_road_density"; "future_road_density"] in
  exists values,
    select_values df fields = Some values /\
    length values = length (fr_rows df) /\
    (table_to_dataframe rt (Some fields) w').1 = Some (RawFrame fields values).
Proof.
  intros H Hkey Htok fields. unfold export_results_table in H. fold fields in H.
  mstep. inversion Hstep; subst; clear Hstep.
  mstep. apply get_field_definition_Some in Hstep as (Ht1 & _ & _ & _ & Hk).
  mstep. apply create_result_table_Some in Hstep as (k & -> & -> & Ht2 & _).
  2:{ intros k ->%Hk. exact Hkey. }
  mstep. apply dataframe_to_table_rows in Hstep
    as (t & values & Ht & Hvalues & Hfields & Ht3).
  apply mret_Some in H as (-> & ->).
  rewrite Ht2, lookup_insert_eq in Ht. inversion Ht; subst t; clear Ht.
  cbn [tbl_fields tbl_rows app] in Ht3, Hfields.
  destruct (select_values_lengths _ _ _ Hvalues) as (Hlen & Hlens).
  exists values. split; [exact Hvalues|]. split; [exact Hlen|].
  unfold table_to_dataframe.
  rewrite (M_bind_eq _ _ _ _ _ (enter_eq _ _)).
  set (wr := World _ _ _ _ _).
  assert (H1 : tables wr !! os_path_join gdb "Results"
               = Some (Table (k :: result_field_defs)
                         ((fun vs => Row (zip fields vs) None) <$> values))).
  { subst wr. cbn [tables]. rewrite Ht3. apply lookup_insert_eq. }
  rewrite (M_bind_eq _ _ _ _ _ (read_table_eq _ _ _ H1)).
  unfold fields at 1 2. fold fields.
  assert (Hnotok : forall n, n ∈ fields -> is_token n = false).
  { intros n Hn. subst fields.
    repeat (apply elem_of_cons in Hn as [->|Hn]; [first [exact Htok | reflexivity]|]).
    inversion Hn. }
  assert (Hnd : NoDup fields).
  { subst fields. apply NoDup_cons. split.
    - intros Hin. apply Hkey. unfold result_field_names.
      rewrite !elem_of_cons, elem_of_nil in *. tauto.
    - apply (bool_decide_unpack _). vm_compute. exact I. }
  unfold SearchCursor.
  replace (forallb _ fields) with true.
  2:{ symmetry. apply forallb_forall. intros n Hn.
      rewrite forallb_forall in Hfields. pose proof (Hfields n Hn) as E.
      unfold has_field, field_names in *. cbn [tbl_fields] in *.
      rewrite E. apply orb_true_r. }
  cbn [tbl_rows].
  replace (mapM _ (_ <$> values)) with (Some values); [reflexivity|].
  symmetry. apply mapM_Some.
  clear Hvalues Hlen Ht3 H1.
  induction values as [|vs values IH]; [constructor|].
  rewrite fmap_cons. constructor.
  - erewrite (mapM_fun_Some (cursor_cell _)
                (fun n => default VNull (get_attr n (zip fields vs)))).
    + f_equal. apply get_attr_zip; [exact Hnd|]. apply Hlens. left.
    + intros n Hn. rewrite cursor_cell_field by (apply Hnotok, Hn). reflexivity.
  - apply IH. intros vs' Hvs'. apply Hlens. right. exact Hvs'.
Qed.

End ExportFacts.

Import Notions.

(** ** What a run writes *)

Section WritesOnly.
Context {G : Geometry}.
Variable L : list path.

Local Abbreviation only c := (respects (untouched_outside L) c).

Lemma uo_refl w : untouched_outside L w w.
Proof. intros q _. reflexivity. Qed.

Lemma uo_trans w1 w2 w3 :
  untouched_outside L w1 w2 -> untouched_outside L w2 w3 -> untouched_outside L w1 w3.
Proof. intros H1 H2 q Hq. rewrite (H2 q Hq). apply H1, Hq. Qed.

Lemma uo_enter m : only (enter m).
Proof. intros w q _. reflexivity. Qed.

Lemma uo_put_session s : only (put_session s).
Proof. intros w q _. reflexivity. Qed.

Lemma uo_write_file p d : only (write_file p d).
Proof. intros w q _. reflexivity. Qed.

Lemma uo_CreateFileGDB p n : only (CreateFileGDB_management p n).
Proof. intros w q _. reflexivity. Qed.

Lemma uo_write_table p t : p ∈ L -> only (write_table p t).
Proof.
  intros Hp w q Hq. simpl. apply lookup_insert_ne. intros ->. contradiction.
Qed.

Lemma uo_bind {A B} (c : M A) (k : A -> M B) :
  only c -> (forall a, only (k a)) -> only (c ≫= k).
Proof. apply keeps_bind. exact uo_trans. Qed.

Ltac only_steps :=
  repeat first
    [ progress intros
    | apply uo_bind
    | apply keeps_mret; exact uo_refl
    | apply keeps_raise; exact uo_refl
    | apply keeps_lift; exact uo_refl
    | apply keeps_read_table; exact uo_refl
    | apply keeps_get_session; exact uo_refl
    | apply keeps_Exists; exact uo_refl
    | apply uo_enter | apply uo_put_session | apply uo_write_file
    | apply uo_CreateFileGDB
    | apply uo_write_table; assumption
    | apply keeps_if
    | match goal with |- respects _ (match ?x with _ => _ end) => destruct x end ].

Lemma uo_CopyFeatures a b : b ∈ L -> only (CopyFeatures_management a b).
Proof. intros Hb. unfold CopyFeatures_management. only_steps. Qed.

Lemma uo_AddField p fd : p ∈ L -> only (AddField_management p fd).
Proof. intros Hp. unfold AddField_management. only_steps. Qed.

Lemma uo_add_constant_field p n v : p ∈ L -> only (add_constant_field p n v).
Proof.
  intros Hp. unfold add_constant_field, AddField_management, UpdateCursor_set.
  only_steps.
Qed.

Lemma uo_Buffer t out d : out ∈ L -> only (Buffer_analysis t out d).
Proof. intros Hp. unfold Buffer_analysis. only_steps. Qed.

Lemma uo_Merge a b out : out ∈ L -> only (Merge_management a b out).
Proof. intros Hp. unfold Merge_management. only_steps. Qed.

Lemma uo_Intersect a b out tol : out ∈ L -> only (Intersect_analysis a b out tol).
Proof. intros Hp. unfold Intersect_analysis. only_steps. Qed.

Lemma uo_JoinField a f b g : a ∈ L -> only (JoinField_management a f b g).
Proof. intros Hp. unfold JoinField_management. only_steps. Qed.

Lemma uo_for_each {A} (l : list A) (f : A -> M unit) :
  (forall x, only (f x)) -> only (for_each l f).
Proof. apply keeps_for_each; [exact uo_refl | exact uo_trans]. Qed.

Lemma uo_run_spatial_analysis self :
  (forall q, q ∈ scratch_outputs self -> q ∈ L) -> only (run_spatial_analysis self).
Proof.
  intros HL. unfold run_spatial_analysis.
  assert (Hin : forall n, n ∈ ["stream_buffer"; "original_roads"; "proposed_roads";
                               "roads_combined"; "intersected_streams_roads";
                               "intersected_roads_watershed"] ->
                os_path_join (workspace (tool_config self)) n ∈ L).
  { intros n Hn. apply HL. unfold scratch_outputs.
    apply list_elem_of_fmap. exists n. split; [reflexivity | exact Hn]. }
  repeat (apply uo_bind;
          [ first [ apply uo_enter
                  | apply uo_add_constant_field; apply Hin; set_solver
                  | apply uo_Buffer; apply Hin; set_solver
                  | apply uo_CopyFeatures; apply Hin; set_solver
                  | apply uo_Merge; apply Hin; set_solver
                  | apply uo_Intersect; apply Hin; set_solver
                  | unfold MakeFeatureLayer_management, SelectLayerByLocation_management;
                    solve [only_steps] ]
          | intros ]).
  apply keeps_mret. exact uo_refl.
Qed.

Lemma uo_export_results_table self df gdb :
  os_path_join gdb "Results" ∈ L -> only (export_results_table self df gdb).
Proof.
  intros Hp.
  unfold export_results_table, create_result_table, dataframe_to_table,
    CreateTable_management, InsertCursor_rows.
  apply uo_bind; [apply uo_enter|intros _].
  apply uo_bind; [apply keeps_get_field_definition;
                    [exact uo_refl | exact uo_trans | exact uo_enter]|intros kd].
  apply uo_bind.
  - apply uo_bind; [apply uo_enter|intros _].
    apply uo_bind; [apply uo_write_table, Hp|intros _].
    apply uo_bind; [|intros _; apply keeps_mret; exact uo_refl].
    apply uo_for_each. intros fld.
    apply uo_bind; [apply keeps_lift; exact uo_refl|intros fd].
    apply uo_AddField, Hp.
  - intros _. only_steps.
Qed.

End WritesOnly.

Section RunFacts.
Context {G : Geometry}.
Variable self : tool.

Let out := out_folder (tool_parameters self).
Let output_gdb := os_path_join out "results.gdb".

(** X18. Whether it completes or raises, [run] changes no dataset other
    than the six scratch outputs of the spatial analysis, the table
    Results and the feature class result_polygons: a dataset at any other
    path, an input among them, is after the run what it was before. *)
Theorem run_writes_only_outputs w q :
  q ∉ run_outputs self ->
  tables (run self w).2 !! q = tables w !! q.
Proof.
  revert w q. change (respects (untouched_outside (run_outputs self)) (run self)).
  assert (Hres : os_path_join output_gdb "Results" ∈ run_outputs self).
  { unfold run_outputs. apply elem_of_app. right. left. }
  assert (Hpol : os_path_join output_gdb "result_polygons" ∈ run_outputs self).
  { unfold run_outputs. apply elem_of_app. right. right. left. }
  unfold run. fold out output_gdb.
  apply uo_bind; [apply uo_enter|intros _].
  apply uo_bind; [apply keeps_Exists; apply uo_refl|intros ex].
  apply uo_bind;
    [apply keeps_if; [apply uo_CreateFileGDB | apply keeps_mret; apply uo_refl]|intros _].
  apply uo_bind; [|intros sr].
  { apply uo_run_spatial_analysis. intros p Hp. unfold run_outputs.
    apply elem_of_app. left. exact Hp. }
  apply uo_bind; [|intros df].
  { apply keeps_run_summary_analysis;
      first [exact (uo_refl _) | exact (uo_trans _) | exact (uo_enter _)]. }
  apply uo_bind; [apply uo_export_results_table, Hres|intros rt].
  apply uo_bind; [apply uo_CopyFeatures, Hpol|intros _].
  apply uo_bind; [apply uo_JoinField, Hpol|intros _].
  apply keeps_generate_pdf_mxd;
    first [exact (uo_refl _) | exact (uo_trans _) | exact (uo_enter _)
          | exact (uo_put_session _) | exact (uo_write_file _)].
Qed.

Lemma same_workspaces_refl w : same_workspaces w w.
Proof. reflexivity. Qed.

Lemma same_workspaces_trans w1 w2 w3 :
  same_workspaces w1 w2 -> same_workspaces w2 w3 -> same_workspaces w1 w3.
Proof. unfold same_workspaces. intros H1 H2. rewrite H2. exact H1. Qed.

Lemma same_workspaces_stages :
  respects same_workspaces
    (sr ← run_spatial_analysis self;
     df ← run_summary_analysis self sr;
     rt ← export_results_table self df output_gdb;
     CopyFeatures_management (in_watershed (tool_parameters self))
                             (os_path_join output_gdb "result_polygons");;
     JoinField_management (os_path_join output_gdb "result_polygons")
                          (in_watershed_id (tool_parameters self)) rt
                          (in_watershed_id (tool_parameters self));;
     generate_pdf_mxd self (os_path_join output_gdb "result_polygons") df).
Proof.
  assert (He : forall m, respects same_workspaces (enter m)) by (intros m w; reflexivity).
  assert (Hs : forall s, respects same_workspaces (put_session s)) by (intros s w; reflexivity).
  assert (Ht : forall q t, respects same_workspaces (write_table q t))
    by (intros q t w; reflexivity).
  assert (Hf : forall q d, respects same_workspaces (write_file q d))
    by (intros q d w; reflexivity).
  apply keeps_run_stages;
    try first [exact same_workspaces_refl | exact same_workspaces_trans
              | exact He | exact Hs | exact Ht | exact Hf].
  intros sr df rt.
  apply keeps_bind; [exact same_workspaces_trans | | intros _].
  { apply keeps_CopyFeatures;
      first [exact same_workspaces_refl | exact same_workspaces_trans | exact Ht]. }
  apply keeps_bind; [exact same_workspaces_trans | | intros _].
  { apply keeps_JoinField;
      first [exact same_workspaces_refl | exact same_workspaces_trans | exact Ht]. }
  apply keeps_generate_pdf_mxd;
    first [exact same_workspaces_refl | exact same_workspaces_trans
          | exact He | exact Hs | exact Hf].
Qed.

(** X19. [run] creates the geodatabase results.gdb only when nothing is
    there under that path: when the path exists the workspaces stay as
    they were, otherwise results.gdb is the one workspace added, whether
    the run then completes or raises. *)
Theorem run_creates_gdb_when_absent w :
  (present output_gdb w -> geodatabases (run self w).2 = geodatabases w) /\
  (~ present output_gdb w ->
   geodatabases (run self w).2 = output_gdb :: geodatabases w).
Proof.
  unfold run. fold out output_gdb.
  rewrite (M_bind_eq _ _ _ _ _ (enter_eq _ _)).
  set (w0 := World _ _ _ _ _).
  rewrite (M_bind_eq (arcpy_Exists output_gdb) _ w0
             (bool_decide (output_gdb ∈ geodatabases w)
              || bool_decide (is_Some (tables w !! output_gdb))
              || bool_decide (is_Some (files w !! output_gdb))) w0 eq_refl).
  set (b := _ || _ || _).
  assert (Hb : b = true <-> present output_gdb w).
  { subst b. unfold present.
    rewrite !orb_true_iff, !bool_decide_eq_true. tauto. }
  pose proof same_workspaces_stages as Hst.
  destruct b.
  - split; [intros _|intros Hn; exfalso; apply Hn, Hb; reflexivity].
    cbn [negb]. rewrite (M_bind_eq (mret tt) _ w0 tt w0 eq_refl).
    exact (Hst w0).
  - split; [intros Hp; apply Hb in Hp; discriminate|intros _].
    cbn [negb].
    rewrite (M_bind_eq (CreateFileGDB_management out "results.gdb") _ w0 tt _ eq_refl).
    match goal with |- geodatabases (_ ?w1).2 = _ => exact (Hst w1) end.
Qed.












End RunFacts.

Import Notions.

(** ** A run without streams in the watersheds *)

Section NoStreams.
Context {G : Geometry}.
Variable self : tool.

Lemma M_bind_None {A B} (c : M A) (k : A -> M B) w w1 :
  c w = (None, w1) -> (c ≫= k) w = (None, w1).
Proof. intros H. unfold mbind, M_bind, bind. rewrite H. reflexivity. Qed.

Lemma stream_buffer_empty (S W : table) d :
  (forall s g h, s ∈ tbl_rows S -> shape s = Some g -> h ∈ shapes (tbl_rows W) ->
                 geom_intersects g h = false) ->
  tbl_rows (stream_buffer S W d) = [].
Proof.
  intros Hno. unfold stream_buffer, buffer_table, buffer_rows. cbn [tbl_rows].
  replace (tbl_rows (select_by_location S W)) with (@nil row); [reflexivity|].
  symmetry. destruct (tbl_rows (select_by_location S W)) as [|s rest] eqn:E;
    [reflexivity|exfalso].
  assert (Hs : s ∈ tbl_rows (select_by_location S W)) by (rewrite E; left).
  apply elem_of_select_by_location in Hs as (Hin & g & h & Hg & Hh & Hi).
  rewrite (Hno s g h Hin Hg Hh) in Hi. discriminate.
Qed.

(** X21. When no stream intersects a watershed, the buffer is empty, the
    spatial result has no feature, and [run] raises in the summary
    analysis instead of reporting zero densities. *)
Theorem run_without_streams_raises w S W R P :
  tables w !! in_streams (tool_parameters self) = Some S ->
  tables w !! in_watershed (tool_parameters self) = Some W ->
  tables w !! in_roads (tool_parameters self) = Some R ->
  tables w !! in_proposed_roads (tool_parameters self) = Some P ->
  in_watershed (tool_parameters self) ∉ scratch_outputs self ->
  in_roads (tool_parameters self) ∉ scratch_outputs self ->
  in_proposed_roads (tool_parameters self) ∉ scratch_outputs self ->
  (forall s g h, s ∈ tbl_rows S -> shape s = Some g -> h ∈ shapes (tbl_rows W) ->
                 geom_intersects g h = false) ->
  tbl_rows (spatial_result S W R P (in_distance (tool_parameters self))) = [] /\
  (run self w).1 = None.
Proof.
  intros HS HW HR HP HnW HnR HnP Hno.
  assert (Hempty : tbl_rows (spatial_result S W R P (in_distance (tool_parameters self))) = []).
  { destruct (tbl_rows (spatial_result _ _ _ _ _)) as [|f rest] eqn:E; [reflexivity|exfalso].
    assert (Hf : f ∈ tbl_rows (spatial_result S W R P (in_distance (tool_parameters self))))
      by (rewrite E; left).
    apply spatial_result_origin in Hf as (r & b & x & g & gb & gi & gx & gf & _ & Hb & _).
    rewrite (stream_buffer_empty S W _ Hno) in Hb. inversion Hb. }
  split; [exact Hempty|].
  unfold run.
  rewrite (M_bind_eq _ _ _ _ _ (enter_eq _ _)).
  set (w0 := World _ _ _ _ _).
  set (gdb := os_path_join _ "results.gdb").
  rewrite (M_bind_eq (arcpy_Exists gdb) _ w0
             (bool_decide (gdb ∈ geodatabases w)
              || bool_decide (is_Some (tables w !! gdb))
              || bool_decide (is_Some (files w !! gdb))) w0 eq_refl).
  set (b := _ || _ || _).
  assert (Hrest : forall w1, tables w1 = tables w ->
            forall k : path -> frame Q -> M unit,
              ((run_spatial_analysis self ≫= fun sr =>
                  run_summary_analysis self sr ≫= fun df => k sr df) w1).1 = None).
  { intros w1 Ht k.
    destruct (run_spatial_analysis_result self w1 S W R P) as (w2 & Hrun & Hres & _);
      try (rewrite Ht; assumption); try assumption.
    rewrite (M_bind_eq _ _ _ _ _ Hrun).
    destruct (summary_needs_types self _ w2 _ Hres) as (w3 & Hsum).
    { left. rewrite Hempty. intros r Hr. inversion Hr. }
    rewrite (M_bind_None _ _ _ _ Hsum). reflexivity. }
  destruct b; cbn [negb].
  - rewrite (M_bind_eq (mret tt) _ w0 tt w0 eq_refl). apply Hrest. reflexivity.
  - rewrite (M_bind_eq (CreateFileGDB_management _ "results.gdb") _ w0 tt _ eq_refl).
    apply Hrest. reflexivity.
Qed.

End NoStreams.

Import Notions.

(** ** The map document of the report *)

Section Document.
Context {G : Geometry}.
Variable self : tool.

Lemma replaceDataSource_Some f l ws ds w r w' :
  replaceDataSource f l ws ds w = (Some r, w') ->
  (exists in_frame,
     layers (session w) !! f = Some in_frame /\
     layers (session w') = <[f := <[l := Layer ws ds]> in_frame]> (layers (session w))) /\
  data_frames (session w') = data_frames (session w) /\
  elements (session w') = elements (session w) /\
  files w' = files w.
Proof.
  unfold replaceDataSource, get_session, put_session. intros H.
  mstep. inversion Hstep; subst; clear Hstep.
  mstep. apply lift_Some in Hstep as (Hf & ->).
  mstep. apply lift_Some in Hstep as (_ & ->).
  inversion H; subst; clear H. cbn. repeat split. eexists. split; [exact Hf | reflexivity].
Qed.

Lemma getExtent_Some f l w ext w' :
  getExtent f l w = (Some ext, w') -> w' = w.
Proof.
  unfold getExtent, get_session, read_table. intros H.
  mstep. inversion Hstep; subst; clear Hstep.
  mstep. apply lift_Some in Hstep as (_ & ->).
  mstep. apply lift_Some in Hstep as (_ & ->).
  mstep. inversion Hstep; subst; clear Hstep.
  inversion H; subst. reflexivity.
Qed.

Lemma set_extent_Some name ext w r w' :
  set_extent name ext w = (Some r, w') ->
  layers (session w') = layers (session w) /\
  data_frames (session w')
    = <[name := DataFrame (Some ext) (extent_scale ext)]> (data_frames (session w)) /\
  elements (session w') = elements (session w) /\
  files w' = files w.
Proof.
  unfold set_extent, get_session, put_session. intros H.
  mstep. inversion Hstep; subst; clear Hstep.
  mstep. apply lift_Some in Hstep as (_ & ->).
  inversion H; subst; clear H. cbn. repeat split.
Qed.

Lemma get_scale_Some name w sc w' :
  get_scale name w = (Some sc, w') ->
  w' = w /\ exists d, data_frames (session w) !! name = Some d /\ sc = df_scale d.
Proof.
  unfold get_scale, get_session. intros H.
  mstep. inversion Hstep; subst; clear Hstep.
  mstep. apply lift_Some in Hstep as (Hd & ->).
  inversion H; subst; clear H. split; [reflexivity|]. eexists. split; [exact Hd | reflexivity].
Qed.

Lemma set_scale_Some name m w r w' :
  set_scale name m w = (Some r, w') ->
  layers (session w') = layers (session w) /\
  (exists d, data_frames (session w) !! name = Some d /\
     data_frames (session w')
       = <[name := DataFrame (df_extent d) (inject_Z m)]> (data_frames (session w))) /\
  elements (session w') = elements (session w) /\
  files w' = files w.
Proof.
  unfold set_scale, get_session, put_session. intros H.
  mstep. inversion Hstep; subst; clear Hstep.
  mstep. apply lift_Some in Hstep as (Hd & ->).
  inversion H; subst; clear H. cbn. repeat split. eexists. split; [exact Hd | reflexivity].
Qed.

Lemma set_text_Some name text w r w' :
  set_text name text w = (Some r, w') ->
  layers (session w') = layers (session w) /\
  data_frames (session w') = data_frames (session w) /\
  elements (session w') = <[name := text]> (elements (session w)) /\
  files w' = files w.
Proof.
  unfold set_text, get_session, put_session. intros H.
  mstep. inversion Hstep; subst; clear Hstep.
  mstep. apply lift_Some in Hstep as (_ & ->).
  inversion H; subst; clear H. cbn. repeat split.
Qed.

Lemma simple_report_session df w text w' :
  simple_report self df w = (Some text, w') -> session w' = session w /\ files w' = files w.
Proof.
  intros H. split.
  - assert (Hk : respects same_session (simple_report self df)).
    { apply keeps_simple_report.
      - intros ?. reflexivity.
      - intros ? ? ? H1 H2. unfold same_session in *. rewrite H2. exact H1.
      - intros ? ?. reflexivity. }
    specialize (Hk w). rewrite H in Hk. exact Hk.
  - pose proof (static_simple_report self df w) as Hs. rewrite H in Hs.
    destruct Hs as (_ & _ & Hf). exact Hf.
Qed.

Lemma export_and_save_Some p1 quality p2 w r w' :
  (ExportToPDF p1 quality;; saveACopy p2) w = (Some r, w') ->
  session w' = session w /\
  files w' = <[p2 := Mxd (session w)]> (<[p1 := Pdf (session w) quality]> (files w)).
Proof.
  unfold ExportToPDF, saveACopy, get_session, write_file. intros H.
  inversion H; subst; clear H. cbn. split; reflexivity.
Qed.

(** X22. When [generate_pdf_mxd] returns, result.pdf and result.mxd hold
    the same map document, the one of the session; in it the two data
    frames have one extent and one scale, which is [get_map_scale] of the
    scale of that extent; the sub-title names the distance; the table text
    is the report of [simple_report]; and the Road Density layer of the
    Existing frame reads the result layer. *)
Theorem generate_pdf_mxd_document q df w w' :
  generate_pdf_mxd self q df w = (Some tt, w') ->
  let s := session w' in
  let out := out_folder (tool_parameters self) in
  files w' !! os_path_join out "result.pdf"
    = Some (Pdf s (image_quality (tool_config self))) /\
  files w' !! os_path_join out "result.mxd" = Some (Mxd s) /\
  (exists ext m,
     MapSession.get_map_scale (extent_scale ext) = Some m /\
     data_frames s !! "Existing" = Some (DataFrame (Some ext) (inject_Z m)) /\
     data_frames s !! "Proposed" = Some (DataFrame (Some ext) (inject_Z m))) /\
  elements s !! "subTitleText"
    = Some ("Density is based on roads within " +:+ in_distance (tool_parameters self) +:+
            " of a stream centerline") /\
  (exists text w1 w2,
     simple_report self df w1 = (Some text, w2) /\
     elements s !! "tableTextArea" = Some text) /\
  (layers s !! "Existing") ≫= (fun in_frame => in_frame !! "Road Density")
    = Some (Layer (os_path_split q).1 (os_path_split q).2).
Proof.
  intros H s out. subst s. unfold generate_pdf_mxd in H. fold out in H.
  destruct (os_path_split q) as [ws1 ds1].
  destruct (os_path_split (in_proposed_roads (tool_parameters self))) as [ws2 ds2].
  mstep_as u0 w0 H0. clear H0.
  mstep_as u1 w1 H1.
  apply replaceDataSource_Some in H1 as ((fr1 & _ & HL1) & _ & _ & _).
  mstep_as u2 w2 H2.
  apply replaceDataSource_Some in H2 as ((fr2 & _ & HL2) & _ & _ & _).
  mstep_as u3 w3 H3.
  apply replaceDataSource_Some in H3 as ((fr3 & _ & HL3) & _ & _ & _).
  mstep_as ext w4 H4. apply getExtent_Some in H4 as ->.
  mstep_as u5 w5 H5. apply set_extent_Some in H5 as (HL5 & HD5 & _ & _).
  mstep_as u6 w6 H6. apply set_extent_Some in H6 as (HL6 & HD6 & _ & _).
  mstep_as cur w7 H7. apply get_scale_Some in H7 as (-> & d7 & Hd7 & ->).
  mstep_as m w8 H8. apply lift_Some in H8 as (Hm & ->).
  mstep_as u9 w9 H9. apply set_scale_Some in H9 as (HL9 & (d9 & Hd9 & HD9) & _ & _).
  mstep_as u10 w10 H10. apply set_scale_Some in H10 as (HL10 & (d10 & Hd10 & HD10) & _ & _).
  mstep_as u11 w11 H11. apply set_text_Some in H11 as (HL11 & HD11 & HE11 & _).
  mstep_as text w12 H12. pose proof (simple_report_session _ _ _ _ H12) as (Hs12 & _).
  mstep_as u13 w13 H13. apply set_text_Some in H13 as (HL13 & HD13 & HE13 & _).
  apply export_and_save_Some in H as (Hs & Hfiles).
  rewrite Hs, Hfiles. clear Hs Hfiles.
  (* the data frames *)
  rewrite HD6, lookup_insert_ne, HD5, lookup_insert_eq in Hd7 by discriminate.
  inversion Hd7; subst d7; clear Hd7.
  rewrite HD6, lookup_insert_ne, HD5, lookup_insert_eq in Hd9 by discriminate.
  inversion Hd9; subst d9; clear Hd9.
  rewrite HD9, lookup_insert_ne, HD6, lookup_insert_eq in Hd10 by discriminate.
  inversion Hd10; subst d10; clear Hd10.
  cbn [df_scale df_extent] in *.
  split.
  { rewrite lookup_insert_ne by (apply os_path_join_ne; discriminate).
    apply lookup_insert_eq. }
  split; [apply lookup_insert_eq|].
  split.
  { exists ext, m. split; [exact Hm|].
    rewrite HD13, Hs12, HD11, HD10. split.
    - rewrite lookup_insert_ne, HD9 by discriminate. apply lookup_insert_eq.
    - apply lookup_insert_eq. }
  split.
  { rewrite HE13, lookup_insert_ne, Hs12, HE11 by discriminate. apply lookup_insert_eq. }
  split.
  { eexists text, _, _. split; [exact H12|]. rewrite HE13. apply lookup_insert_eq. }
  rewrite HL13, Hs12, HL11, HL10, HL9, HL6, HL5, HL3.
  rewrite lookup_insert_ne, HL2, lookup_insert_ne, HL1, lookup_insert_eq by discriminate.
  cbn [mbind option_bind fst snd]. apply lookup_insert_eq.
Qed.

End Document.

Import Notions.

(** ** The example, for the helpers and the run *)

Section MoreExamples.
Import Cells.
Import Examples.

Lemma add_constant_field_adds_one_field_witness :
  exists w' t',
    add_constant_field ["in.gdb"; "roads"] "ROAD_TYPE" "Proposed" ex_world = (Some tt, w') /\
    tables w' = <[["in.gdb"; "roads"] := t']> (tables ex_world) /\
    tbl_fields t'
      = tbl_fields ex_roads ++ [FieldDef "ROAD_TYPE" "TEXT" None (Some 10%Z) None None].
Proof.
  destruct (add_constant_field_adds_one_field ["in.gdb"; "roads"] "ROAD_TYPE" "Proposed"
              ex_world ex_roads) as (w' & t' & Hrun & Ht & Hf & _).
  - vm_compute. reflexivity.
  - vm_compute. reflexivity.
  - exists w', t'. split; [exact Hrun|]. split; [exact Ht | exact Hf].
Defined.

Lemma table_to_dataframe_all_fields_witness :
  (table_to_dataframe ["in.gdb"; "roads"] None ex_world).1
  = Some (RawFrame (field_names ex_roads)
            ((fun r => (fun n => field_value n r) <$> field_names ex_roads)
               <$> tbl_rows ex_roads)).
Proof.
  apply (table_to_dataframe_all_fields ["in.gdb"; "roads"] None ex_world ex_roads).
  - vm_compute. reflexivity.
  - left. reflexivity.
  - intros n Hn. apply list_elem_of_singleton in Hn as ->. reflexivity.
Defined.

Lemma get_field_definition_first_witness :
  match (get_field_definition ["in.gdb"; "watersheds"] "BASIN" ex_world).1 with
  | Some (Some kd) =>
      exists l1 f l2, tbl_fields ex_watersheds = l1 ++ f :: l2 /\
        field_name f = "BASIN"%string /\
        (forall g, g ∈ l1 -> field_name g <> "BASIN"%string) /\
        field_name kd = "BASIN"%string /\ field_type kd = field_type f
  | Some None => forall f, f ∈ tbl_fields ex_watersheds -> field_name f <> "BASIN"%string
  | None => False
  end.
Proof.
  apply (get_field_definition_first ["in.gdb"; "watersheds"] "BASIN" ex_world ex_watersheds).
  vm_compute. reflexivity.
Defined.

Lemma export_results_table_without_key_witness :
  exists w',
    export_results_table ex_tool_without_key ex_frame ["out"; "results.gdb"] ex_world
      = (None, w') /\
    tables w' = <[["out"; "results.gdb"; "Results"] := Table [] []]> (tables ex_world).
Proof.
  destruct (export_results_table_without_key ex_tool_without_key ex_frame
              ["out"; "results.gdb"] ex_world ex_watersheds) as (w' & Hrun & Ht & _).
  - vm_compute. reflexivity.
  - vm_compute. reflexivity.
  - exists w'. split; [exact Hrun | exact Ht].
Defined.

Lemma export_results_table_read_back_witness :
  exists values,
    length values = length (fr_rows ex_frame) /\
    (table_to_dataframe (default [] ex_export.1)
       (Some ["WS_ID"; "watershed_area"; "existing_road_length"; "proposed_road_length";
              "total_road_length"; "original_road_density"; "future_road_density"])
       ex_export.2).1
    = Some (RawFrame ["WS_ID"; "watershed_area"; "existing_road_length";
                      "proposed_road_length"; "total_road_length";
                      "original_road_density"; "future_road_density"] values).
Proof.
  destruct (export_results_table_read_back ex_tool ex_frame ["out"; "results.gdb"]
              ex_summary.2 (default [] ex_export.1) ex_export.2)
    as (values & _ & Hlen & Hread).
  - apply (result_eta ex_export), default_is_Some. by_evaluation.
  - by_evaluation.
  - vm_compute. reflexivity.
  - exists values. split; [exact Hlen | exact Hread].
Defined.

Lemma run_writes_only_outputs_witness :
  tables (run ex_tool ex_world).2 !! ["in.gdb"; "roads"]
  = tables ex_world !! ["in.gdb"; "roads"].
Proof.
  apply (run_writes_only_outputs ex_tool ex_world ["in.gdb"; "roads"]).
  by_evaluation.
Defined.

Lemma run_creates_gdb_when_absent_witness :
  geodatabases (run ex_tool ex_world).2 = [["out"; "results.gdb"]].
Proof.
  apply (proj2 (run_creates_gdb_when_absent ex_tool ex_world)).
  unfold present. by_evaluation.
Defined.


Lemma run_without_streams_raises_witness :
  tbl_rows (spatial_result ex_far_streams ex_watersheds ex_roads ex_proposed "100 Meters") = [] /\
  (run ex_tool ex_world_dry).1 = None.
Proof.
  apply (run_without_streams_raises ex_tool ex_world_dry ex_far_streams ex_watersheds
           ex_roads ex_proposed).
  - vm_compute. reflexivity.
  - vm_compute. reflexivity.
  - vm_compute. reflexivity.
  - vm_compute. reflexivity.
  - by_evaluation.
  - by_evaluation.
  - by_evaluation.
  - intros s g h Hs Hg Hh.
    apply list_elem_of_singleton in Hs as ->. inversion Hg; subst g.
    cbn in Hh. repeat (apply elem_of_cons in Hh as [->|Hh]; [reflexivity|]).
    inversion Hh.
Defined.

Lemma generate_pdf_mxd_document_witness :
  files ex_document.2 !! ["out"; "result.pdf"] = Some (Pdf (session ex_document.2) "BEST") /\
  files ex_document.2 !! ["out"; "result.mxd"] = Some (Mxd (session ex_document.2)).
Proof.
  destruct (generate_pdf_mxd_document ex_tool ["out"; "results.gdb"; "result_polygons"]
              ex_frame ex_joined.2 ex_document.2) as (Hpdf & Hmxd & _).
  - apply (result_eta ex_document). vm_compute. reflexivity.
  - split; [exact Hpdf | exact Hmxd].
Defined.

End MoreExamples.

Import Notions.

(** ** The joined polygons *)

Section Joined.
Context {G : Geometry}.
Variable self : tool.

(** X23. [dataframe_to_table] raises (the KeyError of [result_df[fields]])
    when one of the fields is neither the key column nor a column of the
    frame, before any row is inserted: the datasets stay as they were. *)
Theorem dataframe_to_table_missing_column df q fields w c :
  c ∈ fields -> c <> fr_index df -> c ∉ fr_columns df ->
  exists w', dataframe_to_table df q fields w = (None, w') /\ tables w' = tables w.
Proof.
  intros Hc Hidx Hcol. unfold dataframe_to_table.
  rewrite (M_bind_eq _ _ _ _ _ (enter_eq _ _)).
  assert (Hsel : select_values df fields = None).
  { unfold select_values.
    destruct (forallb _ fields) eqn:E; [exfalso|reflexivity].
    rewrite forallb_forall in E. apply list_elem_of_In in Hc.
    specialize (E c Hc). apply orb_true_iff in E as [E|E].
    - apply String.eqb_eq in E. contradiction.
    - apply existsb_eqb_elem in E. contradiction. }
  rewrite Hsel. eexists. split; reflexivity.
Qed.

Lemma CopyFeatures_inv a b w r w' :
  CopyFeatures_management a b w = (Some r, w') ->
  exists t, tables w !! a = Some t /\ tables w' = <[b := t]> (tables w).
Proof.
  unfold CopyFeatures_management. intros H.
  mstep. unfold read_table in Hstep. inversion Hstep; subst; clear Hstep.
  inversion H; subst; clear H. eexists. split; [eassumption | reflexivity].
Qed.

Lemma JoinField_inv a f b g w r w' :
  JoinField_management a f b g w = (Some r, w') ->
  exists t jt,
    tables w !! a = Some t /\ tables w !! b = Some jt /\
    tables w' = <[a := Table (tbl_fields t ++ tbl_fields jt)
                          (join_row f g jt <$> tbl_rows t)]> (tables w).
Proof.
  unfold JoinField_management. intros H.
  mstep. unfold read_table in Hstep. inversion Hstep; subst; clear Hstep.
  mstep. unfold read_table in Hstep. inversion Hstep; subst; clear Hstep.
  destruct (_ && _); [|discriminate H].
  inversion H; subst; clear H. eexists _, _.
  split; [eassumption|]. split; [eassumption|]. reflexivity.
Qed.

Lemma join_row_keeps f g (jt : table) (r : row) :
  shape (join_row f g jt r) = shape r /\
  exists cells, attrs (join_row f g jt r) = attrs r ++ cells /\
                fst <$> cells = field_names jt.
Proof.
  unfold join_row. destruct (List.filter _ _) as [|j rest]; cbn [shape attrs].
  - split; [reflexivity|]. eexists. split; [reflexivity|].
    rewrite <- list_fmap_compose. reflexivity.
  - split; [reflexivity|]. eexists. split; [reflexivity|].
    unfold project. rewrite <- list_fmap_compose. reflexivity.
Qed.

(** X24. After a run that completes, with the watersheds outside the
    datasets that the run writes, result_polygons has the fields of the
    watersheds followed by the fields of Results, and one feature for each
    feature of the watersheds, in their order: it has the shape and the
    attributes of the watershed feature, followed by one cell for each
    field of Results. *)
Theorem run_joins_results_to_watersheds w w' W :
  run self w = (Some tt, w') ->
  tables w !! in_watershed (tool_parameters self) = Some W ->
  in_watershed (tool_parameters self) ∉ run_outputs self ->
  let output_gdb := os_path_join (out_folder (tool_parameters self)) "results.gdb" in
  exists results joined,
    tables w' !! os_path_join output_gdb "Results" = Some results /\
    tables w' !! os_path_join output_gdb "result_polygons" = Some joined /\
    tbl_fields joined = tbl_fields W ++ tbl_fields results /\
    Forall2 (fun r r' =>
               shape r' = shape r /\
               exists cells, attrs r' = attrs r ++ cells /\
                             fst <$> cells = field_names results)
            (tbl_rows W) (tbl_rows joined).
Proof.
  intros H HW Hout gdb.
  assert (Hres : os_path_join gdb "Results" ∈ run_outputs self).
  { unfold run_outputs. apply elem_of_app. right. left. }
  assert (Hpol : os_path_join gdb "result_polygons" ∈ run_outputs self).
  { unfold run_outputs. apply elem_of_app. right. right. left. }
  unfold run in H. fold gdb in H.
  mstep_as u0 w0 H0. inversion H0; subst; clear H0.
  mstep_as found w1 H1. inversion H1; subst; clear H1.
  mstep_as u2 w2 H2.
  assert (Ht2 : tables w2 = tables w).
  { destruct (negb _); inversion H2; subst; reflexivity. }
  clear H2.
  mstep_as sr w3 H3. mstep_as df w4 H4. mstep_as rt w5 H5.
  assert (Hu3 : untouched_outside (run_outputs self) w2 w3).
  { pose proof (uo_run_spatial_analysis (run_outputs self) self) as Hk.
    specialize (Hk ltac:(intros p Hp; unfold run_outputs; apply elem_of_app; left; exact Hp) w2).
    rewrite H3 in Hk. exact Hk. }
  pose proof (run_summary_analysis_key self _ _ _ _ H4) as (Hkey & _).
  assert (Ht4 : tables w4 = tables w3).
  { pose proof (static_run_summary_analysis self sr w3) as Hs.
    rewrite H4 in Hs. destruct Hs as (Hs & _). exact Hs. }
  apply export_results_table_Some in H5 as (-> & k & rows & _ & Ht5 & _); [|exact Hkey].
  mstep_as u6 w6 H6. apply CopyFeatures_inv in H6 as (t6 & Hread6 & Ht6).
  mstep_as u7 w7 H7. apply JoinField_inv in H7 as (t7 & jt & Hread7 & Hjt & Ht7).
  apply generate_pdf_mxd_Some in H as (Ht8 & _).
  (* the watersheds, as the copy reads them *)
  assert (HW5 : tables w5 !! in_watershed (tool_parameters self) = Some W).
  { rewrite Ht5, lookup_insert_ne by (intros E; apply Hout; rewrite <- E; exact Hres).
    rewrite Ht4, (Hu3 _ Hout), Ht2. exact HW. }
  rewrite HW5 in Hread6. inversion Hread6; subst t6; clear Hread6.
  rewrite Ht6, lookup_insert_eq in Hread7. inversion Hread7; subst t7; clear Hread7.
  rewrite Ht6, lookup_insert_ne, Ht5, lookup_insert_eq in Hjt
    by (apply os_path_join_ne; discriminate).
  inversion Hjt; subst jt; clear Hjt.
  eexists _, _. split.
  { rewrite Ht8, Ht7, lookup_insert_ne, Ht6, lookup_insert_ne, Ht5
      by (apply os_path_join_ne; discriminate).
    apply lookup_insert_eq. }
  split; [rewrite Ht8, Ht7; apply lookup_insert_eq|].
  split; [reflexivity|].
  cbn [tbl_rows]. generalize (tbl_rows W). intros l.
  induction l as [|r l IH]; [constructor|].
  rewrite fmap_cons. constructor; [apply join_row_keeps | exact IH].
Qed.

End Joined.

Import Notions.

Section JoinedExample.
Import Cells.
Import Examples.

Lemma dataframe_to_table_missing_column_witness :
  exists w',
    dataframe_to_table ex_frame ["out"; "results.gdb"; "Results"]
      ["WS_ID"; "road_density"] ex_world = (None, w') /\
    tables w' = tables ex_world.
Proof.
  apply (dataframe_to_table_missing_column ex_frame ["out"; "results.gdb"; "Results"]
           ["WS_ID"; "road_density"] ex_world "road_density").
  - right. left.
  - intros E. vm_compute in E. discriminate E.
  - by_evaluation.
Defined.

Lemma run_joins_results_to_watersheds_witness :
  exists results joined,
    tables ex_run.2 !! ["out"; "results.gdb"; "Results"] = Some results /\
    tables ex_run.2 !! ["out"; "results.gdb"; "result_polygons"] = Some joined /\
    tbl_fields joined = tbl_fields ex_watersheds ++ tbl_fields results.
Proof.
  destruct (run_joins_results_to_watersheds ex_tool ex_world ex_run.2 ex_watersheds)
    as (results & joined & Hres & Hjoin & Hfields & _).
  - apply (result_eta ex_run). vm_compute. reflexivity.
  - vm_compute. reflexivity.
  - by_evaluation.
  - exists results, joined. split; [exact Hres|]. split; [exact Hjoin | exact Hfields].
Defined.

End JoinedExample.
